(** * Entity resolver of the Workbench natural language processor

    A shallow embedding of [mmworkbench/components/entity_resolver.py]:
    the [EntityResolver] class, its Elasticsearch-backed synonym index
    ([create_index], [ingest_synonym], [fit]) and the two resolution
    paths of [predict].

    Python dictionaries are finite maps, exceptions are an error monad
    layered over the state the code mutates (the resolver object, the
    backend and the logger). *)

From stdpp Require Import gmap strings list fin_maps numbers pretty.
From Stdlib Require Import QArith Sorted Permutation.

Set Warnings "-register-all".

Local Close Scope Q_scope.
Local Open Scope string_scope.
Local Open Scope list_scope.

(** ** Python values and dictionaries *)

(** The values a mapping record holds under its keys. *)
Inductive value :=
  | VNone
  | VStr (s : string)
  | VInt (z : Z)
  | VStrs (l : list string).

(** A JSON record of the entity map: [{'id': .., 'cname': .., 'whitelist': [..], ..}]. *)
Abbreviation doc := (gmap string value).

(** [base.update(other)]: the keys of [other] win. *)
Definition dict_update (base other : doc) : doc := other ∪ base.

(** ** Exceptions and results *)

Inductive exn :=
  | AttributeError (obj attr : string)
  | KeyError (key : string)
  | TypeError (msg : string)
  | NotFoundError (index : string)
  | RequestError (index : string)
  | BulkIndexError (failed : nat)
  | DuplicateIdentifierError (ident : string).

Inductive result (A : Type) :=
  | Ok (a : A)
  | Raise (e : exn).
Arguments Ok {A} a.
Arguments Raise {A} e.

Definition is_ok {A} (r : result A) : bool :=
  match r with Ok _ => true | Raise _ => false end.

(** ** Module-level constants *)

Definition DOC_TYPE : string := "document".
Definition ES_SYNONYM_INDEX_PREFIX : string := "synonym".

(** ** The class namespace of [EntityResolver]

    [EntityResolver.NAME] is an attribute lookup in the class body; the
    body binds one data attribute and the methods. *)

Inductive member :=
  | MStr (s : string)
  | MMapping (analysis : list string)
  | MFunction.

(** The analyzers of [DEFAULT_SYN_ES_MAPPING]; the rest of the settings
    is configuration of the backend. *)
Definition DEFAULT_SYN_ES_MAPPING : member :=
  MMapping ["default_analyzer"; "keyword_match_analyzer"; "char_ngram_analyzer"].

Definition EntityResolver_dict : list (string * member) :=
  [ ("DEFAULT_SYN_ES_MAPPING", DEFAULT_SYN_ES_MAPPING);
    ("__init__", MFunction);
    ("_es_client", MFunction);
    ("_create_es_client", MFunction);
    ("create_index", MFunction);
    ("ingest_synonym", MFunction);
    ("fit", MFunction);
    ("predict", MFunction);
    ("predict_proba", MFunction);
    ("evaluate", MFunction);
    ("dump", MFunction);
    ("load", MFunction) ].

Fixpoint assoc (name : string) (l : list (string * member)) : option member :=
  match l with
  | [] => None
  | (k, v) :: l' => if String.eqb k name then Some v else assoc name l'
  end.

Definition class_getattr (name : string) : result member :=
  match assoc name EntityResolver_dict with
  | Some v => Ok v
  | None => Raise (AttributeError "EntityResolver" name)
  end.

(** ** Collaborators *)

(** [resource_loader]: the normalizer of its query factory and the
    entity maps it loads. *)
Record ResourceLoader := {
  normalize : string -> string;
  get_entity_map : string -> list doc
}.

(** An entity found in a query. *)
Record Entity := {
  text : string;
  type : string;
  entity_value : value
}.

(** The Elasticsearch client handle built by [_create_es_client]. *)
Record es_client := {
  es_host : option string;
  http_auth : option (string * string)
}.

(** ** The resolver object *)

(** [self._mapping]: a dictionary with the two tables [predict] reads. *)
Record mapping_tables := {
  items : gmap string (list doc);
  synonyms : gmap string (list string)
}.

Record EntityResolver := {
  _resource_loader : ResourceLoader;
  _normalizer : string -> string;
  self_type : string;
  _mapping : option mapping_tables;
  _is_system_entity : bool;
  __es_client : option es_client;
  _es_index_name : string
}.

(** [str + str]; anything else on the left is a [TypeError]. *)
Definition str_add (m : member) (s : string) : result string :=
  match m with
  | MStr p => Ok (p +:+ s)
  | _ => Raise (TypeError "unsupported operand type(s) for +")
  end.

Section Init.
(** [Entity.is_system_entity], of the [core] module. *)
Variable is_system_entity : string -> bool.

(** [EntityResolver.__init__]. *)
Definition init (resource_loader : ResourceLoader) (entity_type : string)
  : result EntityResolver :=
  let normalizer := normalize resource_loader in
  let mapping := None in
  let is_system := is_system_entity entity_type in
  let client := None in
  match class_getattr "ES_SYNONYM_INDEX_PREFIX" with
  | Raise e => Raise e
  | Ok prefix =>
      match str_add prefix ("_" +:+ entity_type) with
      | Raise e => Raise e
      | Ok name =>
          Ok {| _resource_loader := resource_loader;
                _normalizer := normalizer;
                self_type := entity_type;
                _mapping := mapping;
                _is_system_entity := is_system;
                __es_client := client;
                _es_index_name := name |}
      end
  end.
End Init.

(** ** Logging *)

Inductive level := DEBUG | INFO | WARNING | ERROR.

(** One item of a bulk response: [{'_id': .., 'status': ..}]. *)
Record bulk_item := {
  item_id : string;
  item_status : Z
}.

Inductive logarg :=
  | LStr (s : string)
  | LNat (n : nat)
  | LItem (i : bulk_item).

(** A call [logger.LEVEL(msg, *args)]. *)
Record log_record := {
  lvl : level;
  msg : string;
  args : list logarg
}.

(** ** Search requests and responses *)

Inductive clause :=
  | Match (field : string) (query : string) (boost : option Z)
  | Bool_should (clauses : list clause).

Record aggregations := {
  sampler_shard_size : nat;
  terms_field : string;
  terms_size : nat;
  top_hits_size : nat
}.

Record search_body := {
  body_query : clause;
  body_size : nat;
  body_aggs : aggregations
}.

(** One bucket of the [top_cnames] aggregation: its key and the
    [hits] of its [top_text_rel_match]. *)
Record bucket := {
  key : string;
  hits_total : nat;
  hits_max_score : Q
}.

(** ** Bulk actions

    What [expand_action] of [elasticsearch.helpers] makes of one action
    of the caller: the operation, the metadata of the action line, and
    the data line. *)
Inductive source :=
  | NoSource
  | Fields (d : doc)
  | Literal (v : value).

Record bulk_action := {
  op_type : value;
  action_meta : doc;
  action_data : source
}.

(** ** The backend

    The [elasticsearch] package is outside the repository. What the
    server decides on its own (which actions it accepts, how it scores)
    is an interface, and so is the list of metadata keys, which differs
    between the releases of the helpers: [es_metadata] holds the keys
    the release in use moves into the action line besides [_index],
    [_type] and [_id]. *)
Class Elasticsearch := {
  es_metadata : list string;
  es_accepts : string -> bulk_action -> bool;
  es_aggregate : gmap string doc -> search_body -> list bucket
}.

(** ** State and the monad of the methods

    What the methods read and write: the resolver object, the process
    environment, the indices of the backend (index name to document id
    to stored source) and the records sent to the logger. An exception
    keeps the effects that came before it. *)

Record world := {
  this : EntityResolver;
  environ : gmap string string;
  es : gmap string (gmap string doc);
  logs : list log_record
}.

Definition M (A : Type) : Type := world -> result A * world.

Definition ret {A} (a : A) : M A := fun w => (Ok a, w).

Definition raise {A} (e : exn) : M A := fun w => (Raise e, w).

Definition bind {A B} (m : M A) (k : A -> M B) : M B :=
  fun w =>
    match m w with
    | (Ok a, w') => k a w'
    | (Raise e, w') => (Raise e, w')
    end.

Notation "x <- m ;; k" := (bind m (fun x => k))
  (at level 100, m at next level, right associativity).
Notation "m ;;; k" := (bind m (fun _ => k))
  (at level 100, right associativity).

(** [try: m except KeyError: handler]. *)
Definition except_KeyError {A} (m : M A) (handler : M A) : M A :=
  fun w =>
    match m w with
    | (Raise (KeyError _), w') => handler w'
    | r => r
    end.

Definition lift {A} (r : result A) : M A := fun w => (r, w).

Definition get_this : M EntityResolver := fun w => (Ok (this w), w).

Definition set_this (r : EntityResolver) : M unit :=
  fun w => (Ok tt, {| this := r; environ := environ w; es := es w; logs := logs w |}).

Definition get_es : M (gmap string (gmap string doc)) := fun w => (Ok (es w), w).

Definition set_es (e : gmap string (gmap string doc)) : M unit :=
  fun w => (Ok tt, {| this := this w; environ := environ w; es := e; logs := logs w |}).

Definition environ_get (name : string) : M (option string) :=
  fun w => (Ok (environ w !! name), w).

Definition logger (l : level) (m : string) (a : list logarg) : M unit :=
  fun w => (Ok tt, {| this := this w; environ := environ w; es := es w;
                      logs := logs w ++ [ {| lvl := l; msg := m; args := a |} ] |}).

(** ** Rendering and truthiness *)

(** Python's [a or b] on optional strings: [None] and [''] are falsy. *)
Definition truthy (a : option string) : bool :=
  match a with
  | Some s => negb (String.eqb s "")
  | None => false
  end.

Definition py_or (a b : option string) : option string :=
  if truthy a then a else b.

(** The document id the backend keeps for an [_id]. *)
Definition id_key (v : value) : string :=
  match v with
  | VStr s => s
  | VInt z => pretty z
  | VNone => "None"
  | VStrs l => String.concat "," l
  end.

(** ** The fuzzy query *)

Definition full_text_query (normed : string) : search_body :=
  {| body_query :=
       Bool_should
         [ Bool_should
             [ Match "whitelist.normalized_keyword" normed (Some 10%Z);
               Match "cname.normalized_keyword" normed (Some 10%Z) ];
           Match "whitelist" normed None;
           Match "cname" normed None;
           Match "cname.char_ngram" normed None;
           Match "whitelist.char_ngram" normed None ];
     body_size := 0;
     body_aggs := {| sampler_shard_size := 20;
                     terms_field := "cname.raw";
                     terms_size := 100;
                     top_hits_size := 1 |} |}.

(** ** Results of [predict] *)

(** One entry of the fuzzy result: [{'cname': .., 'max_score': .., 'num_hits': ..}]. *)
Record candidate := {
  cname : string;
  max_score : Q;
  num_hits : nat
}.

Inductive prediction :=
  | Value (v : value)
  | Text (s : string)
  | Values (l : list doc)
  | Results (l : list candidate).

Definition result_of_bucket (b : bucket) : candidate :=
  {| cname := key b; max_score := hits_max_score b; num_hits := hits_total b |}.

(** [results.sort(key=lambda x: x['max_score'], reverse=True)]: a stable
    sort, entries of equal score keep their order. *)
Fixpoint insert_reverse (x : candidate) (l : list candidate) : list candidate :=
  match l with
  | [] => [x]
  | y :: l' =>
      if Qle_bool (max_score y) (max_score x) then x :: l
      else y :: insert_reverse x l'
  end.

Definition sort_reverse (l : list candidate) : list candidate :=
  foldr insert_reverse [] l.

(** [self._mapping['synonyms'][normed]]. *)
Definition mapping_synonyms (self : EntityResolver) (normed : string)
  : result (list string) :=
  match _mapping self with
  | None => Raise (TypeError "'NoneType' object is not subscriptable")
  | Some m =>
      match synonyms m !! normed with
      | Some cnames => Ok cnames
      | None => Raise (KeyError normed)
      end
  end.

(** [self._mapping['items'][cname]]. *)
Definition mapping_items (self : EntityResolver) (name : string)
  : result (list doc) :=
  match _mapping self with
  | None => Raise (TypeError "'NoneType' object is not subscriptable")
  | Some m =>
      match items m !! name with
      | Some l => Ok l
      | None => Raise (KeyError name)
      end
  end.

(** [item_value = copy.copy(item); item_value.pop('whitelist', None)]. *)
Definition item_value (item : doc) : doc := delete "whitelist" item.

(** The two nested loops of the exact path. *)
Fixpoint collect_values (self : EntityResolver) (cnames : list string)
    (values : list doc) : result (list doc) :=
  match cnames with
  | [] => Ok values
  | c :: cs =>
      match mapping_items self c with
      | Raise e => Raise e
      | Ok its => collect_values self cs (values ++ map item_value its)
      end
  end.

(** [_doc_generator], one document. *)
Definition _doc_generator (d : doc) : result doc :=
  match d !! "id" with
  | Some v => Ok (dict_update {[ "_id" := v ]} d)
  | None => Raise (KeyError "id")
  end.

Definition chunk_size : nat := 50.

Section Resolver.
Context `{Elasticsearch}.

(** *** The client *)

Definition _create_es_client (host user pass : option string) : M es_client :=
  h <- environ_get "MM_ES_HOST";;
  let host := py_or host h in
  u <- environ_get "MM_ES_USERNAME";;
  let user := py_or user u in
  p <- environ_get "MM_ES_PASSWORD";;
  let pass := py_or pass p in
  let auth :=
    match user, pass with
    | Some us, Some pa => if truthy user && truthy pass then Some (us, pa) else None
    | _, _ => None
    end in
  ret {| es_host := host; http_auth := auth |}.

(** The lazily connecting property [_es_client]. *)
Definition _es_client : M es_client :=
  self <- get_this;;
  match __es_client self with
  | Some c => ret c
  | None =>
      c <- _create_es_client None None None;;
      set_this {| _resource_loader := _resource_loader self;
                  _normalizer := _normalizer self;
                  self_type := self_type self;
                  _mapping := _mapping self;
                  _is_system_entity := _is_system_entity self;
                  __es_client := Some c;
                  _es_index_name := _es_index_name self |};;;
      ret c
  end.

(** [es_client or cls._create_es_client()]. *)
Definition client_or_create (c : option es_client) : M es_client :=
  match c with
  | Some c => ret c
  | None => _create_es_client None None None
  end.

(** The calls the class makes on the client, on the index store of the
    world: [indices.exists], [indices.create], [search] and the bulk
    request behind [streaming_bulk]. *)
Definition indices_exists (c : es_client) (index : string) : M bool :=
  e <- get_es;;
  ret (bool_decide (is_Some (e !! index))).

Definition indices_create (c : es_client) (index : string) (body : member) : M unit :=
  e <- get_es;;
  match e !! index with
  | Some _ => raise (RequestError index)
  | None => set_es (<[ index := ∅ ]> e)
  end.

Definition search (c : es_client) (index : string) (body : search_body)
  : M (list bucket) :=
  e <- get_es;;
  match e !! index with
  | Some docs => ret (es_aggregate docs body)
  | None => raise (NotFoundError index)
  end.

(** *** [streaming_bulk] of [elasticsearch.helpers]

    [ingest_synonym] calls the helper with [chunk_size=50] and leaves
    [raise_on_error] and [raise_on_exception] at their default [True]. *)

(** A list cannot be the key of the action line. *)
Definition hashable (v : value) : bool :=
  match v with
  | VStrs _ => false
  | _ => true
  end.

Definition metadata_keys : list string :=
  "_index" :: "_type" :: "_id" :: es_metadata.

(** [for key in (..): if key in data: action[op_type][key] = data.pop(key)]. *)
Fixpoint move_metadata (keys : list string) (data meta : doc) : doc * doc :=
  match keys with
  | [] => (data, meta)
  | k :: ks =>
      match data !! k with
      | Some v => move_metadata ks (delete k data) (<[ k := v ]> meta)
      | None => move_metadata ks data meta
      end
  end.

Definition is_delete (op : value) : bool :=
  match op with
  | VStr o => String.eqb o "delete"
  | _ => false
  end.

(** [expand_action]: the operation is popped from [_op_type], [index]
    when the action names none; the metadata keys move to the action
    line; a [delete] has no data line, any other operation sends
    [data.get('_source', data)]. *)
Definition expand_action (data : doc) : result bulk_action :=
  let op := default (VStr "index") (data !! "_op_type") in
  let data := delete "_op_type" data in
  if hashable op then
    let '(data, meta) := move_metadata metadata_keys data ∅ in
    Ok {| op_type := op;
          action_meta := meta;
          action_data :=
            if is_delete op then NoSource
            else match data !! "_source" with
                 | None => Fields data
                 | Some VNone => NoSource
                 | Some v => Literal v
                 end |}
  else Raise (TypeError "unhashable type: 'list'").

(** *** The bulk request

    The server reads the whole body before it executes any of it, and
    refuses a body it cannot read: an operation other than [index],
    [create] and [delete] ([update] needs a partial document, which no
    record of flat values provides), or an [index] or [create] without
    data line. *)
Definition well_formed (a : bulk_action) : bool :=
  match op_type a, action_data a with
  | VStr o, Fields _ => String.eqb o "index" || String.eqb o "create"
  | VStr o, Literal _ => String.eqb o "index" || String.eqb o "create"
  | VStr o, NoSource => String.eqb o "delete"
  | _, _ => false
  end.

(** The index an action goes to: the [_index] of its action line, the
    index of the request when the line names none or [null]. *)
Definition target_index (index : string) (a : bulk_action) : string :=
  match action_meta a !! "_index" with
  | None | Some VNone => index
  | Some v => id_key v
  end.

(** The server executes one action and answers with an item. An action
    it does not accept (a document that does not fit the mapping of the
    index, metadata it cannot use) answers 400 and changes nothing, and
    so does a source that is not an object; [index] writes the source under the
    document id, 201 for a new document and 200 for a replaced one;
    [create] answers 409 on a document that exists; [delete] removes
    the document and answers 404 when there is none. An index that does
    not exist yet is created by the first write. *)
Definition execute_action (index : string) (e : gmap string (gmap string doc))
    (a : bulk_action) : gmap string (gmap string doc) * (string * bulk_item) :=
  let target := target_index index a in
  let i := id_key (default VNone (action_meta a !! "_id")) in
  let store := default ∅ (e !! target) in
  let present := bool_decide (is_Some (store !! i)) in
  let item := fun s : Z => (id_key (op_type a), {| item_id := i; item_status := s |}) in
  if es_accepts index a then
    match action_data a with
    | Fields d =>
        if String.eqb (id_key (op_type a)) "create" && present then (e, item 409%Z)
        else (<[ target := <[ i := d ]> store ]> e,
              item (if present then 200%Z else 201%Z))
    | Literal _ => (e, item 400%Z)
    | NoSource =>
        if present then (<[ target := delete i store ]> e, item 200%Z)
        else (e, item 404%Z)
    end
  else (e, item 400%Z).

Fixpoint execute_actions (index : string) (e : gmap string (gmap string doc))
    (l : list bulk_action)
  : gmap string (gmap string doc) * list (string * bulk_item) :=
  match l with
  | [] => (e, [])
  | a :: l' =>
      let '(e1, r) := execute_action index e a in
      let '(e2, rs) := execute_actions index e1 l' in
      (e2, r :: rs)
  end.

(** [client.bulk(body, index=index, doc_type=DOC_TYPE)]: the items of
    the response, or the [RequestError] of a refused body. *)
Definition bulk (c : es_client) (index : string) (chunk : list bulk_action)
  : M (list (string * bulk_item)) :=
  if forallb well_formed chunk then
    e <- get_es;;
    let '(e', items) := execute_actions index e chunk in
    set_es e';;;
    ret items
  else raise (RequestError index).

(** *** [create_index] *)

Definition create_index (index_name : string) (client : option es_client)
  : M value :=
  c <- client_or_create client;;
  mapping <- lift (class_getattr "DEFAULT_SYNC_ES_MAPPING");;
  ex <- indices_exists c index_name;;
  if negb ex then
    logger INFO ("Creating index '" +:+ index_name +:+ "'") [];;;
    indices_create c index_name mapping;;;
    ret VNone
  else
    logger ERROR ("Index '" +:+ index_name +:+ "' already exists.") [];;;
    ret VNone.

(** *** [ingest_synonym] *)

(** The body of the loop over the results of [streaming_bulk]. *)
Definition handle_result (index_name : string) (count : nat)
    (r : bool * (string * bulk_item)) : M nat :=
  let '(okay, (action, result)) := r in
  let doc_id := "/" +:+ index_name +:+ "/" +:+ DOC_TYPE +:+ "/" +:+ item_id result in
  if negb okay then
    logger ERROR "Failed to %s document %s: %r"
           [LStr action; LStr doc_id; LItem result];;;
    ret count
  else
    logger DEBUG "Loaded document: %s" [LStr doc_id];;;
    ret (S count).

(** [ok = 200 <= item.get('status', 500) < 300]. *)
Definition item_ok (r : string * bulk_item) : bool :=
  (200 <=? item_status (snd r))%Z && (item_status (snd r) <? 300)%Z.

(** [_process_bulk_chunk] with [raise_on_error=True], its consumer being
    the loop of [ingest_synonym]: a failed item is appended to [errors]
    and withheld, an item that succeeded is yielded to the body of the
    loop, and once the items are through the helper raises
    [BulkIndexError] if [errors] holds anything. *)
Fixpoint _process_bulk_chunk (index_name : string)
    (items errors : list (string * bulk_item)) (count : nat) : M nat :=
  match items with
  | [] =>
      match errors with
      | [] => ret count
      | _ => raise (BulkIndexError (length errors))
      end
  | r :: items' =>
      let ok := item_ok r in
      let errors := if negb ok then errors ++ [r] else errors in
      if ok || (match errors with [] => true | _ => false end) then
        n <- handle_result index_name count (ok, r);;
        _process_bulk_chunk index_name items' errors n
      else _process_bulk_chunk index_name items' errors count
  end.

(** One chunk: the request, then the items of its response. *)
Definition send_chunk (c : es_client) (index_name : string)
    (chunk : list bulk_action) (count : nat) : M nat :=
  items <- bulk c index_name chunk;;
  _process_bulk_chunk index_name items [] count.

(** [for okay, result in streaming_bulk(es_client, _doc_generator(mapping), ..,
    chunk_size=50)]: the helper pulls an action from the generator and
    expands it; when the pending chunk holds [chunk_size] actions it is
    sent before the new action joins the next chunk, and what is pending
    when the generator ends is sent last. An exception of the generator,
    of the expansion, of the request or of a chunk with a failed item
    ends the loop: the chunks not yet sent never are. The bound of a
    chunk in bytes (100 MB) is taken not to be reached. *)
Fixpoint streaming_loop (c : es_client) (index_name : string)
    (docs : list doc) (pending : list bulk_action) (count : nat) : M nat :=
  match docs with
  | [] =>
      match pending with
      | [] => ret count
      | _ => send_chunk c index_name pending count
      end
  | d :: ds =>
      a <- lift (_doc_generator d);;
      x <- lift (expand_action a);;
      if Nat.eqb (length pending) chunk_size then
        n <- send_chunk c index_name pending count;;
        streaming_loop c index_name ds [x] n
      else streaming_loop c index_name ds (pending ++ [x]) count
  end.

Definition ingest_synonym (index_name : string) (mapping : list doc)
    (client : option es_client) : M value :=
  c <- client_or_create client;;
  ex <- indices_exists c index_name;;
  (if negb ex then create_index index_name (Some c) else ret VNone);;;
  count <- streaming_loop c index_name mapping [] 0;;
  logger INFO "Loaded %s document%s"
         [LNat count; LStr (if Nat.eqb count 1 then "" else "s")];;;
  ret VNone.

(** *** [fit] *)

Definition fit (clean : bool) : M value :=
  self <- get_this;;
  if negb (_is_system_entity self) then
    let mapping := get_entity_map (_resource_loader self) (self_type self) in
    c <- _es_client;;
    ex <- indices_exists c (_es_index_name self);;
    (if negb ex then
       c' <- _es_client;;
       create_index (_es_index_name self) (Some c')
     else ret VNone);;;
    logger INFO ("Importing synonym data to ES index '" +:+ _es_index_name self +:+ "'") [];;;
    ingest_synonym (_es_index_name self) mapping None;;;
    ret VNone
  else ret VNone.

(** [load]. *)
Definition load : M value := fit false;;; ret VNone.

(** *** [predict] *)

Definition predict (entity : Entity) (exact_match_only : bool) : M prediction :=
  self <- get_this;;
  if _is_system_entity self then ret (Value (entity_value entity))
  else
    let normed := _normalizer self (text entity) in
    if exact_match_only then
      found <- except_KeyError
                 (cnames <- lift (mapping_synonyms self normed);; ret (Some cnames))
                 (logger WARNING "Failed to resolve entity %r for type %r"
                         [LStr (text entity); LStr (type entity)];;;
                  ret None);;
      match found with
      | None => ret (Text (text entity))
      | Some cnames =>
          (if Nat.ltb 1 (length cnames) then
             logger INFO "Multiple possible canonical names for %r entity for type %r"
                    [LStr (text entity); LStr (type entity)]
           else ret tt);;;
          values <- lift (collect_values self cnames []);;
          ret (Values values)
      end
    else
      c <- _es_client;;
      buckets <- search c (_es_index_name self) (full_text_query normed);;
      let results := map result_of_bucket buckets in
      let results := sort_reverse results in
      ret (Results (firstn 10 results)).

(** [predict_proba]: [pass]. *)
Definition predict_proba (entity : Entity) : M value := ret VNone.

End Resolver.

(** ** A sample deployment *)

Module Sample.

(** A normalizer: ASCII lower-casing. *)
Definition lower_ascii (a : Ascii.ascii) : Ascii.ascii :=
  let n := Ascii.nat_of_ascii a in
  if (Nat.leb 65 n && Nat.leb n 90)%bool then Ascii.ascii_of_nat (n + 32) else a.

Fixpoint lower (s : string) : string :=
  match s with
  | EmptyString => EmptyString
  | String a s' => String (lower_ascii a) (lower s')
  end.

Definition seattle : doc :=
  {[ "id" := VStr "1"; "cname" := VStr "Seattle"; "whitelist" := VStrs ["SEA"] ]}.

Definition nyc : doc := {[ "id" := VStr "1"; "cname" := VStr "NYC" ]}.

Definition new_york_city : doc :=
  {[ "id" := VStr "2"; "cname" := VStr "New York City"; "whitelist" := VStrs ["NYC"] ]}.

(** A record without an [id]. *)
Definition portland : doc := {[ "cname" := VStr "Portland"; "state" := VStr "OR" ]}.

(** A record the sample backend rejects: its [cname] is not a string. *)
Definition malformed : doc := {[ "id" := VStr "7"; "cname" := VInt 7 ]}.

(** A document indexed by an earlier build. *)
Definition old_town : doc := {[ "id" := VStr "9"; "cname" := VStr "Old Town" ]}.


(** Twelve groups, as the backend lists them. *)
Definition sample_buckets : list bucket :=
  [ {| key := "Seattle"; hits_total := 2; hits_max_score := 3 # 2 |};
    {| key := "Seatac"; hits_total := 1; hits_max_score := 12 # 1 |};
    {| key := "Sea Isle"; hits_total := 1; hits_max_score := 3 # 2 |};
    {| key := "Seaside"; hits_total := 3; hits_max_score := 7 # 4 |};
    {| key := "Seabrook"; hits_total := 1; hits_max_score := 1 # 2 |};
    {| key := "Seaford"; hits_total := 1; hits_max_score := 9 # 10 |};
    {| key := "Searcy"; hits_total := 2; hits_max_score := 2 # 1 |};
    {| key := "Seal Beach"; hits_total := 1; hits_max_score := 5 # 1 |};
    {| key := "Sealy"; hits_total := 1; hits_max_score := 1 # 4 |};
    {| key := "Seagoville"; hits_total := 1; hits_max_score := 3 # 4 |};
    {| key := "Seadrift"; hits_total := 1; hits_max_score := 1 # 8 |};
    {| key := "Sebastopol"; hits_total := 4; hits_max_score := 11 # 10 |} ].

(** The metadata keys of the helpers of the 5.x client, besides
    [_index], [_type] and [_id]. *)
Definition helper_5x : list string :=
  ["_parent"; "_percolate"; "_routing"; "_timestamp"; "_version";
   "_version_type"; "_retry_on_conflict"; "pipeline"].

(** The sample backend runs the helpers of the 5.x client and accepts
    a document when its [cname] is a string. *)
#[export] Instance backend : Elasticsearch := {|
  es_metadata := helper_5x;
  es_accepts := fun _ a =>
    match action_data a with
    | Fields d => match d !! "cname" with Some (VStr _) => true | _ => false end
    | _ => true
    end;
  es_aggregate := fun _ _ => sample_buckets
|}.


Definition loader (mapping : list doc) : ResourceLoader :=
  {| normalize := lower; get_entity_map := fun _ => mapping |}.

(** The object [__init__] is written to build for entity type [city]. *)
Definition resolver (mapping : list doc) : EntityResolver :=
  {| _resource_loader := loader mapping;
     _normalizer := lower;
     self_type := "city";
     _mapping := None;
     _is_system_entity := false;
     __es_client := None;
     _es_index_name := "synonym_city" |}.

(** A world whose backend already holds the index [synonym_city]. *)
Definition world_with (mapping : list doc) (store : gmap string doc) : world :=
  {| this := resolver mapping;
     environ := ∅;
     es := {[ "synonym_city" := store ]};
     logs := [] |}.

Definition mention (s : string) : Entity :=
  {| text := s; type := "city"; entity_value := VNone |}.

(** The tables [predict] reads, as they would hold [nyc] and
    [new_york_city]; no method builds them. *)
Definition nyc_tables : mapping_tables :=
  {| items := {[ "NYC" := [nyc]; "New York City" := [new_york_city] ]};
     synonyms := {[ "nyc" := ["NYC"; "New York City"];
                    "new york city" := ["New York City"] ]} |}.

Definition loaded_world : world :=
  {| this := {| _resource_loader := loader [nyc; new_york_city];
                _normalizer := lower;
                self_type := "city";
                _mapping := Some nyc_tables;
                _is_system_entity := false;
                __es_client := None;
                _es_index_name := "synonym_city" |};
     environ := ∅;
     es := {[ "synonym_city" := ∅ ]};
     logs := [] |}.

(** The worlds of the scenarios below. *)
Definition seattle_world : world := world_with [seattle] ∅.
Definition stale_world : world := world_with [seattle] {[ "9" := old_town ]}.
Definition nyc_world : world := world_with [nyc; new_york_city] ∅.
Definition portland_world : world := world_with [portland] ∅.
Definition fresh_world : world :=
  {| this := resolver [seattle]; environ := ∅; es := ∅; logs := [] |}.
Definition batch : list doc := [seattle; malformed; new_york_city].

End Sample.


(** ** Vocabulary of the statements *)

(** The record the loop of [ingest_synonym] logs for an item it is
    handed as a success. *)
Definition loaded_document (index_name : string) (r : string * bulk_item)
  : log_record :=
  {| lvl := DEBUG; msg := "Loaded document: %s";
     args := [LStr ("/" +:+ index_name +:+ "/" +:+ DOC_TYPE +:+ "/" +:+ item_id (snd r))] |}.

(** The items of a response that report success, and those that do not. *)
Definition succeeded (items : list (string * bulk_item)) : list (string * bulk_item) :=
  filter (fun r => item_ok r = true) items.

Definition failed (items : list (string * bulk_item)) : list (string * bulk_item) :=
  filter (fun r => item_ok r = false) items.

(** The closing message of [ingest_synonym]. *)
Definition loaded_log (count : nat) : log_record :=
  {| lvl := INFO; msg := "Loaded %s document%s";
     args := [LNat count; LStr (if Nat.eqb count 1 then "" else "s")] |}.

Definition add_logs (w : world) (l : list log_record) : world :=
  {| this := this w; environ := environ w; es := es w; logs := logs w ++ l |}.

Definition with_es (w : world) (e : gmap string (gmap string doc)) : world :=
  {| this := this w; environ := environ w; es := e; logs := logs w |}.


(** The tier of a clause of the fuzzy query, by the analyzer of its field
    in [DEFAULT_SYN_ES_MAPPING]. *)
Inductive tier := ExactNormalized | FullText | PartialNgram.

Definition tier_of_field (f : string) : option tier :=
  if String.eqb f "whitelist.normalized_keyword" || String.eqb f "cname.normalized_keyword"
  then Some ExactNormalized
  else if String.eqb f "whitelist" || String.eqb f "cname" then Some FullText
  else if String.eqb f "whitelist.char_ngram" || String.eqb f "cname.char_ngram"
  then Some PartialNgram
  else None.

(** The [match] clauses of a query, with their field, text and boost. *)
Fixpoint leaves (c : clause) : list (string * string * option Z) :=
  match c with
  | Match f q b => [(f, q, b)]
  | Bool_should cs => flat_map leaves cs
  end.

(** The boost the backend applies to a clause that names none. *)
Definition default_boost : Z := 1.

Definition effective_boost (b : option Z) : Z := default default_boost b.

(** The boosts of a query form three strictly ordered tiers. *)
Definition three_tiers (c : clause) : Prop :=
  forall f1 q1 b1 f2 q2 b2 f3 q3 b3,
    In (f1, q1, b1) (leaves c) -> tier_of_field f1 = Some ExactNormalized ->
    In (f2, q2, b2) (leaves c) -> tier_of_field f2 = Some FullText ->
    In (f3, q3, b3) (leaves c) -> tier_of_field f3 = Some PartialNgram ->
    (effective_boost b3 < effective_boost b2 < effective_boost b1)%Z.

(** The action [_doc_generator] yields for a record with an [id]. *)
Definition action_of (d : doc) : doc :=
  dict_update {[ "_id" := default VNone (d !! "id") ]} d.

(** A computation is [tame] when it leaves the tables and the kind of the
    resolver alone and never raises [DuplicateIdentifierError]. *)
Definition tame {A} (m : M A) : Prop :=
  forall w,
    _mapping (this (snd (m w))) = _mapping (this w) /\
    _is_system_entity (this (snd (m w))) = _is_system_entity (this w) /\
    forall i, fst (m w) <> Raise (DuplicateIdentifierError i).

Definition not_duplicate {A} (r : result A) : Prop :=
  forall i, r <> Raise (DuplicateIdentifierError i).

(** ** Relations between the world before and after a method *)

(** A computation [steps] along a relation when the world it leaves is
    related to the world it started from, whether it returns or raises. *)
Definition steps (R : world -> world -> Prop) {A} (m : M A) : Prop :=
  forall w, R w (snd (m w)).

(** No index and no document id disappears from the backend. *)
Definition never_shrinks (w w' : world) : Prop :=
  forall index store,
    es w !! index = Some store ->
    exists store', es w' !! index = Some store' /\ dom store ⊆ dom store'.

(** Every index but [index] holds what it held. *)
Definition only_index (index : string) (w w' : world) : Prop :=
  forall j, j <> index -> es w' !! j = es w !! j.

(** The resolver is configured as before: everything but the cached
    client. *)
Definition same_configuration (w w' : world) : Prop :=
  _resource_loader (this w') = _resource_loader (this w) /\
  self_type (this w') = self_type (this w) /\
  _es_index_name (this w') = _es_index_name (this w) /\
  _is_system_entity (this w') = _is_system_entity (this w) /\
  environ w' = environ w.

(** The document id a record is indexed under. *)
Definition doc_key (d : doc) : string := id_key (default VNone (d !! "id")).

(** The keys one release or another of the helpers moves from a record
    into the action line. *)
Definition known_metadata : list string :=
  [ "_id"; "_index"; "_type"; "_parent"; "_percolate"; "_routing"; "_timestamp";
    "_ttl"; "_version"; "_version_type"; "_retry_on_conflict"; "_if_seq_no";
    "_if_primary_term"; "if_seq_no"; "if_primary_term"; "parent"; "pipeline";
    "retry_on_conflict"; "routing"; "version"; "version_type";
    "dynamic_templates"; "require_alias" ].

Section Requests.
Context `{Elasticsearch}.

(** What the helper holds for one record: the action of the generator,
    expanded. *)
Definition request_of (d : doc) : result bulk_action :=
  match _doc_generator d with
  | Ok a => expand_action a
  | Raise e => Raise e
  end.

Fixpoint requests_of (docs : list doc) : result (list bulk_action) :=
  match docs with
  | [] => Ok []
  | d :: ds =>
      match request_of d with
      | Raise e => Raise e
      | Ok x =>
          match requests_of ds with
          | Raise e => Raise e
          | Ok l => Ok (x :: l)
          end
      end
  end.

(** The backend accepts the action made of a record. *)
Definition accepts (index : string) (d : doc) : bool :=
  match request_of d with
  | Ok x => es_accepts index x
  | Raise _ => false
  end.

(** An action that indexes a document of fields. *)
Definition indexing (a : bulk_action) : Prop :=
  op_type a = VStr "index" /\ exists d, action_data a = Fields d.

(** The keys of a record the helper reads, in the release in use or in
    another. *)
Definition reserved_keys : list string :=
  "_op_type" :: "_source" :: metadata_keys ++ known_metadata.

(** A plain record: its [id] is a non-empty string or an integer, and
    it has none of the keys the helper reads. *)
Definition plain (d : doc) : bool :=
  match d !! "id" with
  | Some (VStr s) => negb (String.eqb s "")
  | Some (VInt _) => true
  | _ => false
  end
  && forallb (fun k => match d !! k with None => true | Some _ => false end)
             reserved_keys.

(** The action the helper makes of a plain record. *)
Definition index_request (d : doc) : bulk_action :=
  {| op_type := VStr "index";
     action_meta := {[ "_id" := default VNone (d !! "id") ]};
     action_data := Fields d |}.

(** What a store holds once the backend has been sent plain records in
    order. *)
Definition store_after (index : string) (store : gmap string doc) (l : list doc)
  : gmap string doc :=
  foldl (fun s d =>
           if es_accepts index (index_request d) then <[ doc_key d := d ]> s else s)
        store l.

(** What a sequence of records leaves under a document id: the last
    record with that id the backend accepts, if there is one. *)
Fixpoint written (index : string) (l : list doc) (k : string) : option doc :=
  match l with
  | [] => None
  | d :: l' =>
      match written index l' k with
      | Some x => Some x
      | None =>
          if accepts index d && String.eqb (doc_key d) k then Some d else None
      end
  end.

End Requests.

(** ** The application manager ([app_manager.py])

    Request parameters are JSON values of any shape, so this part of
    the model is dynamically typed: one type of Python values, with the
    truthiness and the [isinstance] tests the validators make. Strings
    are those of Python 3. *)

Module AppManager.

Inductive pyval :=
  | PNone
  | PBool (b : bool)
  | PInt (z : Z)
  | PFloat (q : Q)
  | PStr (s : string)
  | PList (l : list pyval)
  | PDict (d : gmap string pyval).

(** [bool(v)]. *)
Definition truthy (v : pyval) : bool :=
  match v with
  | PNone => false
  | PBool b => b
  | PInt z => negb (Z.eqb z 0)
  | PFloat q => negb (Qeq_bool q 0)
  | PStr s => negb (String.eqb s "")
  | PList l => match l with [] => false | _ => true end
  | PDict d => negb (Nat.eqb (size d) 0)
  end.

(** [a or b]. *)
Definition py_or (a b : pyval) : pyval := if truthy a then a else b.

(** The types the validators test for. *)
Inductive pytype := TList | TStr | TInt.

(** [isinstance(v, t)]; [bool] is a subclass of [int]. *)
Definition isinstance (v : pyval) (t : pytype) : bool :=
  match t, v with
  | TList, PList _ => true
  | TStr, PStr _ => true
  | TInt, PInt _ => true
  | TInt, PBool _ => true
  | _, _ => false
  end.

Definition type_name (v : pyval) : string :=
  match v with
  | PNone => "NoneType"
  | PBool _ => "bool"
  | PInt _ => "int"
  | PFloat _ => "float"
  | PStr _ => "str"
  | PList _ => "list"
  | PDict _ => "dict"
  end.

Inductive error :=
  | AttributeError (obj attr : string)
  | KeyError (key : string)
  | TypeError (msg : string)
  | ValueError (msg : string)
  | AllowedNlpClassesKeyError (msg : string)
  | OtherError (name : string).

Inductive outcome (A : Type) :=
  | Return (a : A)
  | Raised (e : error).
Arguments Return {A} a.
Arguments Raised {A} e.

Inductive logval :=
  | AStr (s : string)
  | AVal (v : pyval)
  | AType (t : pytype).

Record record := {
  rlvl : level;
  rmsg : string;
  rargs : list logval
}.

(** A call the application manager makes on a collaborator. *)
Inductive call :=
  | ExtractAllowedIntents (allowed_intents : pyval)
  | Process (text : string) (nlp_hierarchy time_zone timestamp bypass_nlp : pyval)
  | ApplyHandler (context : gmap string pyval) (target_dialogue_state : pyval).

(** The collaborators: the time zones [pytz] knows, the natural
    language processor and the dialogue manager. *)
Class Collaborators := {
  time_zone_known : string -> bool;
  handler_map : list string;
  extract_allowed_intents : pyval -> outcome pyval;
  process : string -> pyval -> pyval -> pyval -> pyval -> outcome (gmap string pyval);
  apply_handler : gmap string pyval -> pyval -> outcome (gmap string pyval)
}.

(** The state a request goes through: the records sent to the logger
    and the calls made so far. *)
Record state := {
  records : list record;
  calls : list call
}.

Definition A (T : Type) : Type := state -> outcome T * state.

Definition ret {T} (a : T) : A T := fun s => (Return a, s).

Definition throw {T} (e : error) : A T := fun s => (Raised e, s).

Definition bind {T U} (m : A T) (k : T -> A U) : A U :=
  fun s =>
    match m s with
    | (Return a, s') => k a s'
    | (Raised e, s') => (Raised e, s')
    end.

Definition lift {T} (o : outcome T) : A T := fun s => (o, s).

Definition log (l : level) (m : string) (a : list logval) : A unit :=
  fun s => (Return tt,
            {| records := records s ++ [ {| rlvl := l; rmsg := m; rargs := a |} ];
               calls := calls s |}).

Definition called (c : call) : A unit :=
  fun s => (Return tt, {| records := records s; calls := calls s ++ [c] |}).

Notation "x <~ m ; k" := (bind m (fun x => k))
  (at level 100, m at next level, right associativity).
Notation "m ;> k" := (bind m (fun _ => k))
  (at level 100, right associativity).

Definition MAX_HISTORY_LEN : nat := 100.

(** [v.get(name)]. *)
Definition py_get (v : pyval) (name : string) : outcome pyval :=
  match v with
  | PDict d => Return (default PNone (d !! name))
  | _ => Raised (AttributeError (type_name v) "get")
  end.

(** [x in handler_map], on the names of a dictionary. *)
Definition in_keys (x : pyval) (names : list string) : outcome bool :=
  match x with
  | PStr s => Return (bool_decide (s ∈ names))
  | PList _ | PDict _ => Raised (TypeError "unhashable type")
  | _ => Return false
  end.

Section Manager.
Context `{Collaborators}.

(** The validator [_validate_generic(name, ptype)] returns. *)
Definition _validate_generic (name : string) (ptype : pytype) (param : pyval)
  : A pyval :=
  if negb (isinstance param ptype) then
    log WARNING "Invalid %r param: %s is not of type %s."
        [AStr name; AVal param; AType ptype];>
    ret PNone
  else ret param.

Definition _validate_time_zone (param : pyval) : A pyval :=
  if negb (truthy param) then ret PNone
  else if negb (isinstance param TStr) then
    log WARNING "Invalid %r param: %s is not of type %s."
        [AStr "time_zone"; AVal param; AType TStr];>
    ret PNone
  else
    match param with
    | PStr zone =>
        if time_zone_known zone then ret param
        else
          log WARNING "Invalid %r param: %s is not a valid time zone."
              [AStr "time_zone"; AVal param];>
          ret PNone
    | _ => ret PNone
    end.

Definition PARAM_VALIDATORS : list (string * (pyval -> A pyval)) :=
  [ ("allowed_intents", _validate_generic "allowed_intents" TList);
    ("kws", _validate_generic "kws" TStr);
    ("target_dialogue_state", _validate_generic "target_dialogue_state" TStr);
    ("time_zone", _validate_time_zone);
    ("timestamp", _validate_generic "timestamp" TInt) ].

Fixpoint validator_of (name : string) (l : list (string * (pyval -> A pyval)))
  : option (pyval -> A pyval) :=
  match l with
  | [] => None
  | (k, v) :: l' => if String.eqb k name then Some v else validator_of name l'
  end.

(** [ApplicationManager._validate_param]; [mode] is not read. *)
Definition _validate_param (params : pyval) (name : string) (mode : string)
  : A pyval :=
  let validator := validator_of name PARAM_VALIDATORS in
  param <~ lift (py_get params name);
  if truthy param then
    match validator with
    | Some v => v param
    | None => throw (TypeError "'NoneType' object is not callable")
    end
  else ret param.

(** [self.nlp.extract_allowed_intents], inside its [try]. *)
Definition try_extract (allowed_intents : pyval) : A pyval :=
  called (ExtractAllowedIntents allowed_intents);>
  match extract_allowed_intents allowed_intents with
  | Return h => ret h
  | Raised (AllowedNlpClassesKeyError m) =>
      log ERROR "Validation error '{}' on input allowed intents {}. Not applying domain/intent restrictions this turn"
          [AStr m; AVal allowed_intents];>
      ret PNone
  | Raised (ValueError m) =>
      log ERROR "Validation error '{}' on input allowed intents {}. Not applying domain/intent restrictions this turn"
          [AStr m; AVal allowed_intents];>
      ret PNone
  | Raised (KeyError m) =>
      log ERROR "Validation error '{}' on input allowed intents {}. Not applying domain/intent restrictions this turn"
          [AStr m; AVal allowed_intents];>
      ret PNone
  | Raised e => throw e
  end.

(** [context.pop(name)]. *)
Definition pop (name : string) (context : gmap string pyval)
  : A (pyval * gmap string pyval) :=
  match context !! name with
  | Some v => ret (v, delete name context)
  | None => throw (KeyError name)
  end.

(** [ApplicationManager.parse]. *)
Definition parse (text : string) (params session frame history : pyval)
    (verbose : bool) : A (gmap string pyval) :=
  let params := py_or params (PDict ∅) in
  let session := py_or session (PDict ∅) in
  let history := py_or history (PList []) in
  let frame := py_or frame (PDict ∅) in
  let request :=
    PDict {[ "text" := PStr text; "params" := params; "session" := session ]} in
  allowed_intents <~ _validate_param params "allowed_intents" "incoming";
  kws <~ _validate_param params "kws" "incoming";
  let bypass_nlp :=
    match kws with
    | PStr s => if String.eqb s "true" then PBool true else PNone
    | _ => PNone
    end in
  target_dialogue_state <~ _validate_param params "target_dialogue_state" "incoming";
  time_zone <~ _validate_param params "time_zone" "incoming";
  timestamp <~ _validate_param params "timestamp" "incoming";
  let context : gmap string pyval :=
    {[ "request" := request;
       "history" := history;
       "params" := PDict ∅;
       "frame" := frame;
       "entities" := PList [] ]} in
  target_dialogue_state <~
    (if truthy target_dialogue_state then
       known <~ lift (in_keys target_dialogue_state handler_map);
       if negb known then
         log ERROR "Target dialogue state {} does not match any dialogue state names in for the application. Not applying the target dialogue state this turn."
             [AVal target_dialogue_state];>
         ret PNone
       else ret target_dialogue_state
     else ret target_dialogue_state);
  nlp_hierarchy <~
    (if truthy allowed_intents then try_extract allowed_intents else ret PNone);
  called (Process text nlp_hierarchy time_zone timestamp bypass_nlp);>
  processed_query <~ lift (process text nlp_hierarchy time_zone timestamp bypass_nlp);
  let context := processed_query ∪ context in
  popped <~ pop "text" context;
  let context := snd popped in
  called (ApplyHandler context target_dialogue_state);>
  handled <~ lift (apply_handler context target_dialogue_state);
  let context := handled ∪ context in
  popped <~ pop "history" context;
  let context := snd popped in
  match fst popped with
  | PList old =>
      let history := PDict context :: old in
      _validate_param params "allowed_intents" "outgoing";>
      _validate_param params "target_dialogue_state" "outgoing";>
      let history := firstn MAX_HISTORY_LEN history in
      let response := <[ "history" := PList history ]> context in
      ret response
  | other => throw (AttributeError (type_name other) "insert")
  end.

End Manager.

(** *** Vocabulary of the statements about the manager *)

Section ManagerVocabulary.
Context `{Collaborators}.

(** What the validator registered under a name lets through. *)
Definition passes (name : string) (v : pyval) : bool :=
  if String.eqb name "allowed_intents" then isinstance v TList
  else if String.eqb name "kws" then isinstance v TStr
  else if String.eqb name "target_dialogue_state" then isinstance v TStr
  else if String.eqb name "time_zone" then
    match v with PStr zone => time_zone_known zone | _ => false end
  else if String.eqb name "timestamp" then isinstance v TInt
  else false.

Definition registered (name : string) : bool :=
  bool_decide (name ∈ ["allowed_intents"; "kws"; "target_dialogue_state";
                       "time_zone"; "timestamp"]).

(** A call whose arguments are absent, falsy, or passed their check. *)
Definition checked (c : call) : Prop :=
  match c with
  | ExtractAllowedIntents allowed_intents =>
      truthy allowed_intents = true /\ isinstance allowed_intents TList = true
  | Process _ _ time_zone timestamp bypass_nlp =>
      (truthy time_zone = true -> passes "time_zone" time_zone = true) /\
      (truthy timestamp = true -> isinstance timestamp TInt = true) /\
      (bypass_nlp = PBool true \/ bypass_nlp = PNone)
  | ApplyHandler _ target_dialogue_state =>
      truthy target_dialogue_state = true ->
      exists name, target_dialogue_state = PStr name /\ name ∈ handler_map
  end.

Definition add_records (s : state) (l : list record) : state :=
  {| records := records s ++ l; calls := calls s |}.

(** The calls made since [s], all of them checked. *)
Definition checked_since (s s' : state) : Prop :=
  exists cs, calls s' = calls s ++ cs /\ Forall checked cs.

(** The second half of [parse], from the call of the language processor
    on, once the parameters are validated and the target dialogue state
    is settled. *)
Definition parse_tail (text : string) (params : pyval)
    (context : gmap string pyval)
    (allowed_intents time_zone timestamp bypass_nlp target_dialogue_state : pyval)
  : A (gmap string pyval) :=
  nlp_hierarchy <~
    (if truthy allowed_intents then try_extract allowed_intents else ret PNone);
  called (Process text nlp_hierarchy time_zone timestamp bypass_nlp);>
  processed_query <~ lift (process text nlp_hierarchy time_zone timestamp bypass_nlp);
  let context := processed_query ∪ context in
  popped <~ pop "text" context;
  let context := snd popped in
  called (ApplyHandler context target_dialogue_state);>
  handled <~ lift (apply_handler context target_dialogue_state);
  let context := handled ∪ context in
  popped <~ pop "history" context;
  let context := snd popped in
  match fst popped with
  | PList old =>
      let history := PDict context :: old in
      _validate_param params "allowed_intents" "outgoing";>
      _validate_param params "target_dialogue_state" "outgoing";>
      let history := firstn MAX_HISTORY_LEN history in
      let response := <[ "history" := PList history ]> context in
      ret response
  | other => throw (AttributeError (type_name other) "insert")
  end.

End ManagerVocabulary.

End AppManager.

(** ** The question answerer ([question_answerer.py]) *)

Module QuestionAnswerer.
Import AppManager.

(** A call [get] makes on its Elasticsearch client. *)
Inductive backend_call :=
  | Get (index : string) (doc_id : pyval)
  | Search (index : string) (body q : pyval).

(** The client and the rendering of [str.format]. *)
Class Backend := {
  render : pyval -> string;
  es_get : string -> pyval -> outcome pyval;
  es_search : string -> pyval -> pyval -> outcome pyval
}.

(** [QuestionAnswerer.get] runs over the calls made so far. *)
Definition B (T : Type) : Type := list backend_call -> outcome T * list backend_call.

Definition unit_b {T} (a : T) : B T := fun s => (Return a, s).

Definition fail_b {T} (e : error) : B T := fun s => (Raised e, s).

Definition bind_b {T U} (m : B T) (k : T -> B U) : B U :=
  fun s =>
    match m s with
    | (Return a, s') => k a s'
    | (Raised e, s') => (Raised e, s')
    end.

Definition lift_b {T} (o : outcome T) : B T := fun s => (o, s).

Definition call_b (c : backend_call) : B unit := fun s => (Return tt, s ++ [c]).

Notation "x <~~ m ; k" := (bind_b m (fun x => k))
  (at level 100, m at next level, right associativity).
Notation "m ;>> k" := (bind_b m (fun _ => k))
  (at level 100, right associativity).

(** [v[key]] for a string key. *)
Definition py_index (v : pyval) (key : string) : outcome pyval :=
  match v with
  | PDict d =>
      match d !! key with
      | Some x => Return x
      | None => Raised (KeyError key)
      end
  | PStr _ => Raised (TypeError "string indices must be integers")
  | PList _ => Raised (TypeError "list indices must be integers or slices, not str")
  | _ => Raised (TypeError "object is not subscriptable")
  end.

(** [sub] occurs in [s]. *)
Fixpoint occurs (sub s : string) : bool :=
  String.prefix sub s ||
  match s with
  | EmptyString => false
  | String _ s' => occurs sub s'
  end.

(** [key in v] for a string key. *)
Definition py_in (key : string) (v : pyval) : outcome bool :=
  match v with
  | PDict d => Return (bool_decide (is_Some (d !! key)))
  | PStr s => Return (occurs key s)
  | PList l =>
      Return (existsb (fun x => match x with PStr s => String.eqb s key | _ => false end) l)
  | _ => Raised (TypeError "argument is not iterable")
  end.

(** [[hit['_source'] for hit in hits]]. *)
Fixpoint sources (hits : list pyval) : outcome (list pyval) :=
  match hits with
  | [] => Return []
  | hit :: hits' =>
      match py_index hit "_source" with
      | Raised e => Raised e
      | Return src =>
          match sources hits' with
          | Raised e => Raised e
          | Return l => Return (src :: l)
          end
      end
  end.

Definition sources_of (hits : pyval) : outcome (list pyval) :=
  match hits with
  | PList l => sources l
  | PDict d =>
      if Nat.eqb (size d) 0 then Return []
      else Raised (TypeError "string indices must be integers")
  | PStr s =>
      if String.eqb s "" then Return []
      else Raised (TypeError "string indices must be integers")
  | _ => Raised (TypeError "object is not iterable")
  end.

(** The sort clause [get] builds for [sort == 'location']. *)
Definition geo_distance_sort (location : pyval) : pyval :=
  PDict {[ "sort" :=
             PList [ PDict {[ "_geo_distance" :=
                                PDict {[ "location" := location;
                                         "order" := PStr "asc";
                                         "unit" := PStr "km";
                                         "distance_type" := PStr "plane" ]} ]} ] ]}.

Section Get.
Context `{Backend}.

(** [location] after the test for [latitude] and [longitude]. *)
Definition converted (location : pyval) : B pyval :=
  if truthy location then
    has_latitude <~~ lift_b (py_in "latitude" location);
    if (has_latitude : bool) then
      has_longitude <~~ lift_b (py_in "longitude" location);
      if (has_longitude : bool) then
        lat <~~ lift_b (py_index location "latitude");
        lon <~~ lift_b (py_index location "longitude");
        unit_b (PDict {[ "lat" := lat; "lon" := lon ]})
      else unit_b location
    else unit_b location
  else unit_b location.

(** [QuestionAnswerer.get(query_string, **kwargs)], for the application
    [app_name]. *)
Definition get (app_name : pyval) (query_string : pyval)
    (kwargs : gmap string pyval) : B pyval :=
  match kwargs !! "index" with
  | None => fail_b (TypeError "get() missing required keyword argument 'index'")
  | Some index =>
      let index := render app_name +:+ "$" +:+ render index in
      let doc_id := default PNone (kwargs !! "id") in
      if truthy doc_id then
        call_b (Get index doc_id);>>
        response <~~ lift_b (es_get index doc_id);
        source <~~ lift_b (py_index response "_source");
        unit_b (PList [source])
      else
        let sort := default PNone (kwargs !! "sort") in
        let location := default PNone (kwargs !! "location") in
        location <~~ converted location;
        let es_query :=
          match sort with
          | PStr s => if String.eqb s "location" then geo_distance_sort location
                      else PDict ∅
          | _ => PDict ∅
          end in
        call_b (Search index es_query query_string);>>
        response <~~ lift_b (es_search index es_query query_string);
        hits <~~ lift_b (py_index response "hits");
        hits <~~ lift_b (py_index hits "hits");
        results <~~ lift_b (sources_of hits);
        unit_b (PList results)
  end.

End Get.

End QuestionAnswerer.

(** ** More of the sample deployment *)

Module Fixtures.
Import Sample.

(** A resolver for a system entity type. *)
Definition system_world : world :=
  {| this := {| _resource_loader := loader [];
                _normalizer := lower;
                self_type := "sys_time";
                _mapping := None;
                _is_system_entity := true;
                __es_client := None;
                _es_index_name := "synonym_sys_time" |};
     environ := ∅;
     es := ∅;
     logs := [] |}.

(** Tables whose synonym entry names a canonical name, Gotham, that
    has no items. *)
Definition dangling_tables : mapping_tables :=
  {| items := {[ "NYC" := [nyc] ]};
     synonyms := {[ "nyc" := ["NYC"; "Gotham"; "New York City"] ]} |}.

(** The world of the batch with a rejected record. *)
Definition batch_world : world := world_with batch ∅.

(** A backend with the index of another entity type. *)
Definition shared_world : world :=
  {| this := resolver [seattle; new_york_city];
     environ := ∅;
     es := {[ "synonym_city" := ∅; "synonym_state" := {[ "9" := old_town ]} ]};
     logs := [] |}.

Definition dangling_world : world :=
  {| this := {| _resource_loader := loader [nyc];
                _normalizer := lower;
                self_type := "city";
                _mapping := Some dangling_tables;
                _is_system_entity := false;
                __es_client := None;
                _es_index_name := "synonym_city" |};
     environ := ∅;
     es := {[ "synonym_city" := ∅ ]};
     logs := [] |}.

(** The collaborators of a small application. *)
#[export] Instance desk : AppManager.Collaborators := {|
  AppManager.time_zone_known :=
    fun zone => String.eqb zone "UTC" || String.eqb zone "America/Los_Angeles";
  AppManager.handler_map := ["welcome"; "order"];
  AppManager.extract_allowed_intents :=
    fun allowed => AppManager.Raised (AppManager.ValueError "not enough values to unpack");
  AppManager.process :=
    fun text _ _ _ _ =>
      AppManager.Return {[ "text" := AppManager.PStr text;
                           "domain" := AppManager.PStr "store_info" ]};
  AppManager.apply_handler :=
    fun _ state => AppManager.Return {[ "dialogue_state" := state ]}
|}.

(** The parameters of a request: a zone [pytz] knows, a timestamp that
    is no integer, no allowed intents. *)
Definition request_params : gmap string AppManager.pyval :=
  {[ "time_zone" := AppManager.PStr "UTC";
     "timestamp" := AppManager.PStr "noon";
     "allowed_intents" := AppManager.PInt 0 ]}.

Definition quiet : AppManager.state :=
  {| AppManager.records := []; AppManager.calls := [] |}.

(** A knowledge base with one store. *)
Definition store_12 : AppManager.pyval :=
  AppManager.PDict {[ "id" := AppManager.PStr "12";
                      "name" := AppManager.PStr "Central Market" ]}.

#[export] Instance kb : QuestionAnswerer.Backend := {|
  QuestionAnswerer.render :=
    fun v => match v with AppManager.PStr s => s | _ => "?" end;
  QuestionAnswerer.es_get :=
    fun _ _ => AppManager.Return (AppManager.PDict {[ "_source" := store_12 ]});
  QuestionAnswerer.es_search :=
    fun _ _ _ =>
      AppManager.Return
        (AppManager.PDict
           {[ "hits" :=
                AppManager.PDict
                  {[ "hits" :=
                       AppManager.PList
                         [AppManager.PDict {[ "_source" := store_12 ]}] ]} ]})
|}.

End Fixtures.

(** ** The monad: equations *)

Lemma bind_ok {A B} (m : M A) (k : A -> M B) w a w' :
  m w = (Ok a, w') -> bind m k w = k a w'.
Proof. intros E. unfold bind. now rewrite E. Qed.

Lemma bind_raise {A B} (m : M A) (k : A -> M B) w e w' :
  m w = (Raise e, w') -> bind m k w = (Raise e, w').
Proof. intros E. unfold bind. now rewrite E. Qed.

Lemma add_logs_nil w : add_logs w [] = w.
Proof. destruct w. unfold add_logs. simpl. now rewrite app_nil_r. Qed.

Lemma add_logs_app w l1 l2 : add_logs (add_logs w l1) l2 = add_logs w (l1 ++ l2).
Proof. unfold add_logs. simpl. now rewrite app_assoc. Qed.

Lemma with_es_same w : with_es w (es w) = w.
Proof. now destruct w. Qed.

Lemma succeeded_app l1 l2 : succeeded (l1 ++ l2) = succeeded l1 ++ succeeded l2.
Proof. apply filter_app. Qed.

Lemma failed_app l1 l2 : failed (l1 ++ l2) = failed l1 ++ failed l2.
Proof. apply filter_app. Qed.

Lemma succeeded_cons r l :
  succeeded (r :: l) = if item_ok r then r :: succeeded l else succeeded l.
Proof.
  unfold succeeded. rewrite filter_cons.
  destruct (item_ok r); [now rewrite decide_True | now rewrite decide_False].
Qed.

Lemma failed_cons r l :
  failed (r :: l) = if item_ok r then failed l else r :: failed l.
Proof.
  unfold failed. rewrite filter_cons.
  destruct (item_ok r); [now rewrite decide_False | now rewrite decide_True].
Qed.

(** ** Ingestion *)

Section Ingestion.
Context `{Elasticsearch}.

(** *** The expansion of an action *)

Lemma move_metadata_data_in keys : forall data meta k,
  k ∈ keys -> (move_metadata keys data meta).1 !! k = None.
Proof.
  induction keys as [| x keys IH]; intros data meta k Hk; [now apply elem_of_nil in Hk |].
  assert (Hout : forall ks d m, k ∉ ks -> d !! k = None ->
                                (move_metadata ks d m).1 !! k = None).
  { clear. induction ks as [| y ks IHk]; intros d m Hn Hd; simpl; [exact Hd |].
    apply not_elem_of_cons in Hn as [Hy Hn].
    destruct (d !! y); apply IHk; try assumption.
    now rewrite lookup_delete_ne by congruence. }
  simpl. destruct (decide (k ∈ keys)) as [Hin | Hnin].
  - destruct (data !! x); now apply IH.
  - apply elem_of_cons in Hk as [-> | Hk]; [| contradiction].
    destruct (data !! x) as [v |] eqn:Hx; apply Hout; try assumption.
    apply lookup_delete_eq.
Qed.

Lemma move_metadata_data_out keys : forall data meta k,
  k ∉ keys -> (move_metadata keys data meta).1 !! k = data !! k.
Proof.
  induction keys as [| x keys IH]; intros data meta k Hk; simpl; [reflexivity |].
  apply not_elem_of_cons in Hk as [Hx Hk].
  destruct (data !! x); rewrite IH by assumption; [| reflexivity].
  now rewrite lookup_delete_ne by congruence.
Qed.

Lemma move_metadata_meta_out keys : forall data meta k,
  k ∉ keys -> (move_metadata keys data meta).2 !! k = meta !! k.
Proof.
  induction keys as [| x keys IH]; intros data meta k Hk; simpl; [reflexivity |].
  apply not_elem_of_cons in Hk as [Hx Hk].
  destruct (data !! x); rewrite IH by assumption; [| reflexivity].
  now rewrite lookup_insert_ne by congruence.
Qed.

Lemma move_metadata_meta_in keys : forall data meta k,
  k ∈ keys ->
  (move_metadata keys data meta).2 !! k =
  match data !! k with
  | Some v => Some v
  | None => meta !! k
  end.
Proof.
  induction keys as [| x keys IH]; intros data meta k Hk; [now apply elem_of_nil in Hk |].
  simpl. destruct (decide (k = x)) as [-> | Hne].
  - destruct (data !! x) as [v |] eqn:Hx.
    + destruct (decide (x ∈ keys)) as [Hin | Hnin].
      * rewrite IH by exact Hin. now rewrite lookup_delete_eq, lookup_insert_eq.
      * rewrite move_metadata_meta_out by exact Hnin. apply lookup_insert_eq.
    + destruct (decide (x ∈ keys)) as [Hin | Hnin].
      * rewrite IH by exact Hin. now rewrite Hx.
      * now apply move_metadata_meta_out.
  - apply elem_of_cons in Hk as [-> | Hk]; [contradiction |].
    destruct (data !! x) as [v |] eqn:Hx; rewrite IH by exact Hk; [| reflexivity].
    rewrite lookup_delete_ne by congruence.
    now rewrite lookup_insert_ne by congruence.
Qed.

Lemma expand_action_eq data :
  expand_action data =
  if hashable (default (VStr "index") (data !! "_op_type")) then
    Ok {| op_type := default (VStr "index") (data !! "_op_type");
          action_meta := (move_metadata metadata_keys (delete "_op_type" data) ∅).2;
          action_data :=
            if is_delete (default (VStr "index") (data !! "_op_type")) then NoSource
            else match (move_metadata metadata_keys (delete "_op_type" data) ∅).1
                         !! "_source" with
                 | None => Fields (move_metadata metadata_keys (delete "_op_type" data) ∅).1
                 | Some VNone => NoSource
                 | Some v => Literal v
                 end |}
  else Raise (TypeError "unhashable type: 'list'").
Proof.
  unfold expand_action.
  destruct (hashable _); [| reflexivity].
  now destruct (move_metadata metadata_keys (delete "_op_type" data) ∅).
Qed.

Opaque move_metadata.

Lemma request_of_with_id d v :
  d !! "id" = Some v -> request_of d = expand_action (d ∪ {[ "_id" := v ]}).
Proof. intros Hd. unfold request_of, _doc_generator, dict_update. now rewrite Hd. Qed.

Lemma request_of_without_id d :
  d !! "id" = None -> request_of d = Raise (KeyError "id").
Proof. intros Hd. unfold request_of, _doc_generator. now rewrite Hd. Qed.

Lemma action_lookup_ne d v k :
  k <> "_id" -> (d ∪ ({[ "_id" := v ]} : doc)) !! k = d !! k.
Proof.
  intros Hk. destruct (d !! k) as [x |] eqn:Hd.
  - now apply lookup_union_Some_l.
  - rewrite lookup_union_r by exact Hd. now apply lookup_singleton_ne.
Qed.

Lemma plain_spec d :
  plain d = true ->
  (exists v, d !! "id" = Some v /\ hashable v = true) /\
  forall k, k ∈ reserved_keys -> d !! k = None.
Proof.
  unfold plain. intros Hp. apply andb_true_iff in Hp as [Hid Hkeys].
  split.
  - destruct (d !! "id") as [[| s | z | l] |]; try discriminate; eauto.
  - intros k Hk. rewrite forallb_forall in Hkeys.
    specialize (Hkeys k (proj1 (list_elem_of_In _ _) Hk)).
    now destruct (d !! k).
Qed.

(** A plain record becomes an [index] action that carries the record
    itself and, in its action line, the [id] alone. *)
Lemma request_of_plain d : plain d = true -> request_of d = Ok (index_request d).
Proof.
  intros Hp. destruct (plain_spec d Hp) as [(v & Hv & _) Hkeys].
  assert (Hop : d !! "_op_type" = None) by (apply Hkeys, elem_of_cons; now left).
  assert (Hsrc : d !! "_source" = None)
    by (apply Hkeys, elem_of_cons; right; apply elem_of_cons; now left).
  assert (Hmeta : forall k, k ∈ metadata_keys -> d !! k = None)
    by (intros k Hk; apply Hkeys; do 2 (apply elem_of_cons; right);
        apply elem_of_app; now left).
  assert (Hid : "_id" ∈ metadata_keys)
    by (unfold metadata_keys; do 2 (apply elem_of_cons; right); apply elem_of_cons;
        now left).
  rewrite (request_of_with_id d v Hv), expand_action_eq.
  rewrite action_lookup_ne, Hop by discriminate.
  change (default (VStr "index") None) with (VStr "index").
  change (is_delete (VStr "index")) with false. cbn [hashable].
  assert (Hdata : (move_metadata metadata_keys
                     (delete "_op_type" (d ∪ ({[ "_id" := v ]} : doc))) ∅).1 = d).
  { apply map_eq. intros k. destruct (decide (k ∈ metadata_keys)) as [Hin | Hnin].
    - rewrite move_metadata_data_in by exact Hin. symmetry. now apply Hmeta.
    - rewrite move_metadata_data_out by exact Hnin.
      destruct (decide (k = "_op_type")) as [-> | Hne].
      + now rewrite lookup_delete_eq.
      + rewrite lookup_delete_ne by congruence. apply action_lookup_ne.
        intros ->. contradiction. }
  assert (Hm : (move_metadata metadata_keys
                  (delete "_op_type" (d ∪ ({[ "_id" := v ]} : doc))) ∅).2
               = {[ "_id" := v ]}).
  { apply map_eq. intros k. destruct (decide (k ∈ metadata_keys)) as [Hin | Hnin].
    - rewrite move_metadata_meta_in by exact Hin.
      destruct (decide (k = "_id")) as [-> | Hne].
      + rewrite lookup_delete_ne by discriminate.
        rewrite lookup_union_r by now apply Hmeta.
        now rewrite !lookup_singleton_eq.
      + rewrite lookup_singleton_ne by congruence.
        destruct (decide (k = "_op_type")) as [-> | Hne'].
        * now rewrite lookup_delete_eq.
        * rewrite lookup_delete_ne by congruence.
          rewrite action_lookup_ne by exact Hne. now rewrite (Hmeta k Hin).
    - rewrite move_metadata_meta_out by exact Hnin.
      rewrite lookup_empty. symmetry. apply lookup_singleton_ne.
      intros <-. contradiction. }
  rewrite Hdata, Hm, Hsrc. unfold index_request. now rewrite Hv.
Qed.

Lemma requests_of_plain docs :
  Forall (fun d => plain d = true) docs -> requests_of docs = Ok (map index_request docs).
Proof.
  induction 1 as [| d ds Hd _ IH]; simpl; [reflexivity |].
  now rewrite (request_of_plain d Hd), IH.
Qed.

Lemma accepts_plain index d :
  plain d = true -> accepts index d = es_accepts index (index_request d).
Proof. intros Hp. unfold accepts. now rewrite (request_of_plain d Hp). Qed.

(** A record without [_op_type] and without [_source] becomes an
    [index] action with a document of fields, whatever else it holds. *)
Lemma request_of_indexing d x :
  d !! "_op_type" = None -> d !! "_source" = None ->
  request_of d = Ok x -> indexing x.
Proof.
  intros Hop Hsrc Hx.
  destruct (d !! "id") as [v |] eqn:Hv.
  2: { rewrite request_of_without_id in Hx by exact Hv. discriminate. }
  rewrite (request_of_with_id d v Hv), expand_action_eq in Hx.
  rewrite action_lookup_ne, Hop in Hx by discriminate.
  change (default (VStr "index") None) with (VStr "index") in Hx.
  change (is_delete (VStr "index")) with false in Hx. cbn [hashable] in Hx.
  assert (Hs : (move_metadata metadata_keys
                  (delete "_op_type" (d ∪ ({[ "_id" := v ]} : doc))) ∅).1
               !! "_source" = None).
  { destruct (decide ("_source" ∈ metadata_keys)) as [Hin | Hnin].
    - now apply move_metadata_data_in.
    - rewrite move_metadata_data_out by exact Hnin.
      rewrite lookup_delete_ne by discriminate.
      now rewrite action_lookup_ne by discriminate. }
  rewrite Hs in Hx. injection Hx as <-. split; simpl; eauto.
Qed.

Lemma request_of_exists d :
  is_Some (d !! "id") -> d !! "_op_type" = None ->
  exists x, request_of d = Ok x.
Proof.
  intros [v Hv] Hop.
  rewrite (request_of_with_id d v Hv), expand_action_eq.
  rewrite action_lookup_ne, Hop by discriminate.
  change (default (VStr "index") None) with (VStr "index"). cbn [hashable]. eauto.
Qed.

(** A record without [_index] becomes an action for the index of the
    request. *)
Lemma request_of_same_index index d x :
  d !! "_index" = None -> request_of d = Ok x -> target_index index x = index.
Proof.
  intros Hidx Hx.
  destruct (d !! "id") as [v |] eqn:Hv.
  2: { rewrite request_of_without_id in Hx by exact Hv. discriminate. }
  rewrite (request_of_with_id d v Hv), expand_action_eq in Hx.
  destruct (hashable _); [| discriminate].
  injection Hx as <-. unfold target_index. cbn [action_meta].
  rewrite move_metadata_meta_in by (unfold metadata_keys; apply elem_of_cons; now left).
  destruct (decide ("_op_type" = "_index")) as [E | _]; [discriminate E |].
  rewrite lookup_delete_ne by discriminate.
  rewrite action_lookup_ne, Hidx by discriminate. now rewrite lookup_empty.
Qed.

Lemma requests_of_cons d ds reqs :
  requests_of (d :: ds) = Ok reqs ->
  exists x l, request_of d = Ok x /\ requests_of ds = Ok l /\ reqs = x :: l.
Proof.
  simpl. destruct (request_of d) as [x |]; [| discriminate].
  destruct (requests_of ds) as [l |]; [| discriminate].
  intros [= <-]. eauto.
Qed.

Lemma requests_of_length docs : forall reqs,
  requests_of docs = Ok reqs -> length reqs = length docs.
Proof.
  induction docs as [| d ds IH]; intros reqs Hr.
  - injection Hr as <-. reflexivity.
  - apply requests_of_cons in Hr as (x & l & _ & Hl & ->). simpl. now rewrite (IH l).
Qed.

(** *** The request *)

Lemma execute_actions_app index l1 : forall e l2,
  execute_actions index e (l1 ++ l2) =
  (fst (execute_actions index (fst (execute_actions index e l1)) l2),
   snd (execute_actions index e l1) ++
   snd (execute_actions index (fst (execute_actions index e l1)) l2)).
Proof.
  induction l1 as [| a l1 IH]; intros e l2; simpl.
  - now destruct (execute_actions index e l2).
  - destruct (execute_action index e a) as [e1 r].
    rewrite IH.
    destruct (execute_actions index e1 l1) as [e2 rs]. simpl.
    now destruct (execute_actions index e2 l2).
Qed.

Lemma execute_actions_length index l : forall e,
  length (snd (execute_actions index e l)) = length l.
Proof.
  induction l as [| a l IH]; intros e; simpl; [reflexivity |].
  destruct (execute_action index e a) as [e1 r].
  specialize (IH e1). destruct (execute_actions index e1 l). simpl in *. lia.
Qed.

Lemma execute_actions_cons index e a l :
  execute_actions index e (a :: l) =
  (fst (execute_actions index (fst (execute_action index e a)) l),
   snd (execute_action index e a) ::
   snd (execute_actions index (fst (execute_action index e a)) l)).
Proof.
  simpl. destruct (execute_action index e a) as [e1 r]. simpl.
  now destruct (execute_actions index e1 l).
Qed.

(** An accepted [index] action is written and answers 200 or 201. *)
Lemma execute_indexing index e a :
  indexing a -> es_accepts index a = true ->
  exists d,
    action_data a = Fields d /\
    fst (execute_action index e a) =
      <[ target_index index a :=
           <[ id_key (default VNone (action_meta a !! "_id")) := d ]>
             (default ∅ (e !! target_index index a)) ]> e /\
    item_ok (snd (execute_action index e a)) = true.
Proof.
  intros [Hop [d Hd]] Hacc. exists d. split; [exact Hd |].
  unfold execute_action. rewrite Hacc, Hd, Hop. simpl.
  split; [reflexivity |]. now destruct (bool_decide _).
Qed.

Lemma indexing_well_formed a : indexing a -> well_formed a = true.
Proof. intros [Hop [d Hd]]. unfold well_formed. now rewrite Hop, Hd. Qed.

Lemma forallb_well_formed l : Forall indexing l -> forallb well_formed l = true.
Proof.
  induction 1 as [| a l Ha _ IH]; simpl; [reflexivity |].
  now rewrite (indexing_well_formed a Ha), IH.
Qed.

Lemma execute_accepted index l : forall e,
  Forall (fun a => indexing a /\ es_accepts index a = true) l ->
  succeeded (snd (execute_actions index e l)) = snd (execute_actions index e l) /\
  failed (snd (execute_actions index e l)) = [].
Proof.
  induction l as [| a l IH]; intros e Hall; [split; reflexivity |].
  apply Forall_cons in Hall as [[Ha Hacc] Hl].
  rewrite execute_actions_cons. cbn [snd].
  destruct (execute_indexing index e a Ha Hacc) as (d & _ & _ & Hok).
  rewrite succeeded_cons, failed_cons, Hok.
  destruct (IH (fst (execute_action index e a)) Hl) as [-> ->]. now split.
Qed.

Lemma index_request_indexing d : indexing (index_request d).
Proof. split; simpl; eauto. Qed.

(** The action of a plain record, as the server executes it. *)
Lemma execute_index_request index e d :
  execute_action index e (index_request d) =
  if es_accepts index (index_request d)
  then (<[ index := <[ doc_key d := d ]> (default ∅ (e !! index)) ]> e,
        ("index", {| item_id := doc_key d;
                     item_status :=
                       if bool_decide (is_Some (default ∅ (e !! index) !! doc_key d))
                       then 200%Z else 201%Z |}))
  else (e, ("index", {| item_id := doc_key d; item_status := 400%Z |})).
Proof.
  unfold execute_action, target_index, doc_key. simpl.
  rewrite lookup_singleton_ne by discriminate.
  rewrite lookup_singleton_eq. simpl.
  now destruct (es_accepts index (index_request d)).
Qed.

Lemma item_ok_index_request index e d :
  item_ok (snd (execute_action index e (index_request d))) =
  es_accepts index (index_request d).
Proof.
  rewrite execute_index_request.
  destruct (es_accepts index (index_request d)); [| reflexivity].
  simpl. now destruct (bool_decide _).
Qed.

Lemma store_after_cons index store d l :
  store_after index store (d :: l) =
  store_after index
    (if es_accepts index (index_request d) then <[ doc_key d := d ]> store else store) l.
Proof. reflexivity. Qed.

(** Plain records only touch the index of the request. *)
Lemma execute_index_requests index docs : forall e,
  is_Some (e !! index) ->
  fst (execute_actions index e (map index_request docs)) =
  <[ index := store_after index (default ∅ (e !! index)) docs ]> e.
Proof.
  induction docs as [| d docs IH]; intros e [s Hs].
  - simpl. rewrite Hs. simpl. symmetry. now apply insert_id.
  - cbn [map]. rewrite execute_actions_cons. cbn [fst].
    rewrite store_after_cons, execute_index_request.
    destruct (es_accepts index (index_request d)); cbn [fst].
    + rewrite IH by (rewrite lookup_insert_eq; eauto).
      rewrite lookup_insert_eq. cbn [default from_option].
      now rewrite insert_insert_eq.
    + now rewrite IH by (rewrite Hs; eauto).
Qed.

Lemma failed_index_requests index docs : forall e,
  length (failed (snd (execute_actions index e (map index_request docs)))) =
  length (filter (fun d => es_accepts index (index_request d) = false) docs).
Proof.
  induction docs as [| d docs IH]; intros e; [reflexivity |].
  cbn [map]. rewrite execute_actions_cons. cbn [snd].
  rewrite failed_cons, item_ok_index_request, filter_cons.
  destruct (es_accepts index (index_request d)).
  - rewrite decide_False by discriminate. apply IH.
  - rewrite decide_True by reflexivity. simpl. now rewrite IH.
Qed.

Lemma store_after_lookup index docs : forall store k,
  Forall (fun d => plain d = true) docs ->
  store_after index store docs !! k =
  match written index docs k with
  | Some d => Some d
  | None => store !! k
  end.
Proof.
  induction docs as [| d docs IH]; intros store k Hall; [reflexivity |].
  apply Forall_cons in Hall as [Hd Hall].
  rewrite store_after_cons, IH by exact Hall. simpl.
  destruct (written index docs k); [reflexivity |].
  rewrite (accepts_plain index d Hd).
  destruct (es_accepts index (index_request d)); simpl; [| reflexivity].
  destruct (String.eqb_spec (doc_key d) k) as [-> | Hne].
  - apply lookup_insert_eq.
  - now apply lookup_insert_ne.
Qed.

Lemma written_none index l k :
  Forall (fun r => doc_key r <> k) l -> written index l k = None.
Proof.
  induction 1 as [| r l Hr _ IH]; simpl; [reflexivity |].
  rewrite IH. destruct (String.eqb_spec (doc_key r) k); [contradiction |].
  now rewrite andb_false_r.
Qed.

Lemma written_some index l k d :
  written index l k = Some d -> In d l /\ accepts index d = true /\ doc_key d = k.
Proof.
  induction l as [| r l IH]; simpl; [discriminate |].
  destruct (written index l k) as [x |].
  - intros [= ->]. destruct (IH eq_refl) as (Hin & Hrest). auto.
  - destruct (accepts index r) eqn:Ha; simpl; [| discriminate].
    destruct (String.eqb_spec (doc_key r) k); [| discriminate].
    intros [= <-]. auto.
Qed.

(** The last record under a document id is the one that stays. *)
Lemma written_last index pre d post :
  accepts index d = true ->
  Forall (fun r => doc_key r <> doc_key d) post ->
  written index (pre ++ d :: post) (doc_key d) = Some d.
Proof.
  intros Hacc Hpost. induction pre as [| r pre IH]; simpl.
  - rewrite (written_none index post _ Hpost), Hacc, String.eqb_refl. reflexivity.
  - now rewrite IH.
Qed.

(** *** The items of a response *)

Lemma handle_result_ok index_name count r w :
  handle_result index_name count (true, r) w =
  (Ok (S count), add_logs w [loaded_document index_name r]).
Proof. destruct r as [action item]. reflexivity. Qed.

(** The loop body sees the items that succeeded, in order, and nothing
    of those that failed; the helper raises at the end of a chunk in
    which an item failed. *)
Lemma process_bulk_chunk_eq index_name items : forall errors count w,
  _process_bulk_chunk index_name items errors count w =
  (match errors ++ failed items with
   | [] => Ok (count + length (succeeded items))
   | l => Raise (BulkIndexError (length l))
   end,
   add_logs w (map (loaded_document index_name) (succeeded items))).
Proof.
  induction items as [| r items IH]; intros errors count w.
  - simpl. rewrite app_nil_r, add_logs_nil.
    destruct errors; [| reflexivity]. unfold ret. now rewrite Nat.add_0_r.
  - cbn [_process_bulk_chunk]. rewrite succeeded_cons, failed_cons.
    destruct (item_ok r) eqn:Hok; cbn [negb orb].
    + erewrite bind_ok by apply handle_result_ok.
      rewrite IH, add_logs_app. simpl.
      destruct (errors ++ failed items); [| reflexivity].
      do 2 f_equal. lia.
    + assert (Hne : match errors ++ [r] with [] => true | _ => false end = false)
        by now destruct errors.
      rewrite Hne, IH, <- app_assoc. reflexivity.
Qed.

Lemma bulk_eq c index chunk w :
  forallb well_formed chunk = true ->
  bulk c index chunk w =
  (Ok (snd (execute_actions index (es w) chunk)),
   with_es w (fst (execute_actions index (es w) chunk))).
Proof.
  intros Hwf. unfold bulk. rewrite Hwf. unfold bind, get_es. simpl.
  now destruct (execute_actions index (es w) chunk).
Qed.

Lemma bulk_refused c index chunk w :
  forallb well_formed chunk = false ->
  bulk c index chunk w = (Raise (RequestError index), w).
Proof. intros Hwf. unfold bulk. now rewrite Hwf. Qed.

Lemma send_chunk_eq c index chunk count w :
  forallb well_formed chunk = true ->
  send_chunk c index chunk count w =
  (match failed (snd (execute_actions index (es w) chunk)) with
   | [] => Ok (count + length (succeeded (snd (execute_actions index (es w) chunk))))
   | l => Raise (BulkIndexError (length l))
   end,
   add_logs (with_es w (fst (execute_actions index (es w) chunk)))
     (map (loaded_document index) (succeeded (snd (execute_actions index (es w) chunk))))).
Proof.
  intros Hwf. unfold send_chunk.
  erewrite bind_ok by now apply bulk_eq.
  now rewrite process_bulk_chunk_eq.
Qed.

(** *** The loop *)

Lemma streaming_loop_cons c index d ds pending count w :
  streaming_loop c index (d :: ds) pending count w =
  match request_of d with
  | Raise e => (Raise e, w)
  | Ok x =>
      if Nat.eqb (length pending) chunk_size then
        (n <- send_chunk c index pending count;;
         streaming_loop c index ds [x] n) w
      else streaming_loop c index ds (pending ++ [x]) count w
  end.
Proof.
  cbn [streaming_loop]. unfold request_of, bind at 1, lift at 1.
  destruct (_doc_generator d) as [a | e]; [| reflexivity].
  unfold bind at 1, lift at 1. destruct (expand_action a); [| reflexivity].
  now destruct (Nat.eqb (length pending) chunk_size).
Qed.

(** When the backend accepts every action and every action indexes,
    the loop sends them all, chunk by chunk, logs each document and
    counts it. *)
Lemma streaming_loop_accepted c index docs : forall pending count w reqs,
  requests_of docs = Ok reqs ->
  Forall (fun a => indexing a /\ es_accepts index a = true) (pending ++ reqs) ->
  streaming_loop c index docs pending count w =
  (Ok (count + length (pending ++ reqs)),
   add_logs (with_es w (fst (execute_actions index (es w) (pending ++ reqs))))
     (map (loaded_document index)
          (snd (execute_actions index (es w) (pending ++ reqs))))).
Proof.
  assert (Hsend : forall chunk count w,
             Forall (fun a => indexing a /\ es_accepts index a = true) chunk ->
             send_chunk c index chunk count w =
             (Ok (count + length chunk),
              add_logs (with_es w (fst (execute_actions index (es w) chunk)))
                (map (loaded_document index) (snd (execute_actions index (es w) chunk))))).
  { intros chunk count w Hall.
    rewrite send_chunk_eq
      by (apply forallb_well_formed; eapply Forall_impl; [exact Hall | now intros a [? _]]).
    destruct (execute_accepted index chunk (es w) Hall) as [-> ->].
    now rewrite execute_actions_length. }
  induction docs as [| d ds IH]; intros pending count w reqs Hreq Hall.
  - injection Hreq as <-. rewrite app_nil_r in *. simpl.
    destruct pending as [| p pending].
    + simpl. rewrite with_es_same, add_logs_nil. unfold ret. now rewrite Nat.add_0_r.
    + now apply Hsend.
  - apply requests_of_cons in Hreq as (x & l & Hx & Hl & ->).
    rewrite streaming_loop_cons, Hx.
    destruct (Nat.eqb (length pending) chunk_size).
    + apply Forall_app in Hall as [Hpending Hrest].
      erewrite bind_ok by now apply Hsend.
      rewrite (IH [x] _ _ l Hl) by exact Hrest.
      cbn [es add_logs with_es logs this environ].
      rewrite (execute_actions_app index pending).
      cbn [fst snd app]. rewrite map_app, !length_app.
      unfold add_logs, with_es. cbn. f_equal; [f_equal; lia |].
      now rewrite app_assoc.
    + rewrite (IH (pending ++ [x]) count w l Hl) by now rewrite <- app_assoc.
      now rewrite <- app_assoc.
Qed.

(** A mapping that fits in one chunk is sent in one request, at the end
    of the generator. *)
Lemma streaming_loop_one_chunk c index docs : forall pending count w reqs,
  requests_of docs = Ok reqs ->
  length pending + length docs <= chunk_size ->
  streaming_loop c index docs pending count w =
  match pending ++ reqs with
  | [] => (Ok count, w)
  | chunk => send_chunk c index chunk count w
  end.
Proof.
  induction docs as [| d ds IH]; intros pending count w reqs Hreq Hlen.
  - injection Hreq as <-. rewrite app_nil_r. simpl. now destruct pending.
  - apply requests_of_cons in Hreq as (x & l & Hx & Hl & ->).
    rewrite streaming_loop_cons, Hx. simpl in Hlen.
    destruct (Nat.eqb_spec (length pending) chunk_size) as [E | _]; [lia |].
    rewrite (IH (pending ++ [x]) count w l Hl) by (rewrite length_app; simpl; lia).
    now rewrite <- app_assoc.
Qed.

Transparent move_metadata.

End Ingestion.

(** ** What no method does *)

Lemma tame_ret {A} (a : A) : tame (ret a).
Proof. intros w. simpl. repeat split. discriminate. Qed.

Lemma tame_lift {A} (r : result A) : not_duplicate r -> tame (lift r).
Proof. intros Hr w. simpl. repeat split. exact Hr. Qed.

Lemma tame_raise {A} e : not_duplicate (@Raise A e) -> tame (@raise A e).
Proof. intros Hr w. simpl. repeat split. exact Hr. Qed.

Lemma tame_bind {A B} (m : M A) (k : A -> M B) :
  tame m -> (forall a, tame (k a)) -> tame (bind m k).
Proof.
  intros Hm Hk w. unfold bind.
  destruct (Hm w) as (Hmap & Hsys & Hdup).
  destruct (m w) as [[a | e] w'] eqn:E; simpl in *.
  - destruct (Hk a w') as (Hmap' & Hsys' & Hdup').
    repeat split; [congruence | congruence | exact Hdup'].
  - repeat split; [exact Hmap | exact Hsys |].
    intros i Hi. apply (Hdup i). congruence.
Qed.

Lemma tame_logger l m a : tame (logger l m a).
Proof. intros w. simpl. repeat split. discriminate. Qed.

Lemma tame_get_this : tame get_this.
Proof. intros w. simpl. repeat split. discriminate. Qed.

Lemma tame_get_es : tame get_es.
Proof. intros w. simpl. repeat split. discriminate. Qed.

Lemma tame_set_es e : tame (set_es e).
Proof. intros w. simpl. repeat split. discriminate. Qed.

Lemma tame_environ_get n : tame (environ_get n).
Proof. intros w. simpl. repeat split. discriminate. Qed.

Lemma tame_except_KeyError {A} (m h : M A) :
  tame m -> tame h -> tame (except_KeyError m h).
Proof.
  intros Hm Hh w. unfold except_KeyError.
  destruct (Hm w) as (Hmap & Hsys & Hdup).
  destruct (m w) as [[a | e] w'] eqn:E; simpl in *.
  - repeat split; [exact Hmap | exact Hsys | discriminate].
  - destruct (Hh w') as (Hmap' & Hsys' & Hdup').
    destruct e; simpl; repeat split; try assumption; try congruence.
Qed.

Lemma not_duplicate_class_getattr name : not_duplicate (class_getattr name).
Proof. intros i. unfold class_getattr. destruct (assoc name _); discriminate. Qed.

Lemma not_duplicate_doc_generator d : not_duplicate (_doc_generator d).
Proof. intros i. unfold _doc_generator. destruct (d !! "id"); discriminate. Qed.

Lemma not_duplicate_mapping_synonyms self normed :
  not_duplicate (mapping_synonyms self normed).
Proof.
  intros i. unfold mapping_synonyms.
  destruct (_mapping self) as [m |]; [| discriminate].
  destruct (synonyms m !! normed); discriminate.
Qed.

Lemma not_duplicate_collect_values self cnames : forall values,
  not_duplicate (collect_values self cnames values).
Proof.
  induction cnames as [| c cs IH]; intros values i; simpl; [discriminate |].
  unfold mapping_items.
  destruct (_mapping self) as [m |]; [| discriminate].
  destruct (items m !! c); [apply IH | discriminate].
Qed.

Create HintDb tame.
#[export] Hint Resolve tame_ret tame_lift tame_logger tame_get_this tame_get_es
  tame_set_es tame_environ_get not_duplicate_class_getattr
  not_duplicate_doc_generator not_duplicate_mapping_synonyms
  not_duplicate_collect_values : tame.

Ltac tame_step :=
  match goal with
  | |- tame (bind _ _) => apply tame_bind; [| intros ?]
  | |- tame (except_KeyError _ _) => apply tame_except_KeyError
  | |- tame (raise _) => apply tame_raise; intros ?; discriminate
  | |- tame (if ?b then _ else _) => destruct b
  | |- tame (match ?x with _ => _ end) => destruct x
  | |- tame _ => solve [auto with tame]
  end.

Section Tame.
Context `{Elasticsearch}.

Lemma tame_create_es_client h u p : tame (_create_es_client h u p).
Proof. unfold _create_es_client. repeat tame_step. Qed.

Lemma tame_es_client : tame _es_client.
Proof.
  intros w. unfold _es_client, bind, get_this. simpl.
  destruct (__es_client (this w)) as [c |]; simpl; repeat split; discriminate.
Qed.

Lemma tame_client_or_create c : tame (client_or_create c).
Proof. destruct c; simpl; [apply tame_ret | apply tame_create_es_client]. Qed.

Lemma tame_indices_exists c index : tame (indices_exists c index).
Proof. unfold indices_exists. repeat tame_step. Qed.

Lemma tame_indices_create c index body : tame (indices_create c index body).
Proof. unfold indices_create. repeat tame_step. Qed.

Lemma tame_search c index body : tame (search c index body).
Proof. unfold search. repeat tame_step. Qed.

Lemma not_duplicate_expand_action a : not_duplicate (expand_action a).
Proof. intros i. rewrite expand_action_eq. destruct (hashable _); discriminate. Qed.

Lemma tame_bulk c index chunk : tame (bulk c index chunk).
Proof.
  unfold bulk. destruct (forallb well_formed chunk); [| repeat tame_step].
  apply tame_bind; [apply tame_get_es | intros e].
  destruct (execute_actions index e chunk).
  repeat tame_step.
Qed.

Hint Resolve tame_create_es_client tame_es_client tame_client_or_create
  tame_indices_exists tame_indices_create tame_search tame_bulk : tame.

Lemma tame_create_index index_name client : tame (create_index index_name client).
Proof. unfold create_index. repeat tame_step. Qed.

Lemma tame_handle_result index_name count r : tame (handle_result index_name count r).
Proof. destruct r as [okay [action result]]. unfold handle_result. repeat tame_step. Qed.

Lemma tame_process_bulk_chunk index_name items : forall errors count,
  tame (_process_bulk_chunk index_name items errors count).
Proof.
  induction items as [| r items IH]; intros errors count; cbn [_process_bulk_chunk].
  - destruct errors; repeat tame_step.
  - destruct (_ || _); [| apply IH].
    apply tame_bind; [apply tame_handle_result | intros n; apply IH].
Qed.

Lemma tame_send_chunk c index_name chunk count :
  tame (send_chunk c index_name chunk count).
Proof.
  unfold send_chunk.
  apply tame_bind; [apply tame_bulk | intros items; apply tame_process_bulk_chunk].
Qed.

Hint Resolve tame_create_index tame_send_chunk not_duplicate_expand_action : tame.

Lemma tame_streaming_loop c index_name docs : forall pending count,
  tame (streaming_loop c index_name docs pending count).
Proof.
  induction docs as [| d ds IH]; intros pending count; cbn [streaming_loop].
  - destruct pending; repeat tame_step.
  - apply tame_bind; [auto with tame | intros a].
    apply tame_bind; [auto with tame | intros x].
    destruct (Nat.eqb (length pending) chunk_size).
    + apply tame_bind; [auto with tame | intros n]. apply IH.
    + apply IH.
Qed.

Hint Resolve tame_streaming_loop : tame.

Lemma tame_ingest_synonym index_name mapping client :
  tame (ingest_synonym index_name mapping client).
Proof. unfold ingest_synonym. repeat tame_step. Qed.

Hint Resolve tame_ingest_synonym : tame.

Lemma tame_fit clean : tame (fit clean).
Proof. unfold fit. repeat tame_step. Qed.

End Tame.

(** ** Ranking *)

Lemma insert_reverse_perm x l : Permutation (insert_reverse x l) (x :: l).
Proof.
  induction l as [| y l IH]; simpl; [reflexivity |].
  destruct (Qle_bool (max_score y) (max_score x)); [reflexivity |].
  rewrite IH. apply perm_swap.
Qed.

Lemma sort_reverse_perm l : Permutation (sort_reverse l) l.
Proof.
  induction l as [| x l IH]; simpl; [reflexivity |].
  rewrite insert_reverse_perm. now rewrite IH.
Qed.




(** Entries of equal score keep the order of the response: an entry goes
    in front of the sorted rest unless the rest starts with a strictly
    higher score. *)
Lemma sort_reverse_stable x l :
  Forall (fun y => (max_score y <= max_score x)%Q) l ->
  sort_reverse (x :: l) = x :: sort_reverse l.
Proof.
  intros Hall. simpl.
  assert (Hs : Forall (fun y => (max_score y <= max_score x)%Q) (sort_reverse l)).
  { eapply Permutation_Forall; [symmetry; apply sort_reverse_perm | exact Hall]. }
  destruct (sort_reverse l) as [| y l']; simpl; [reflexivity |].
  apply Forall_cons in Hs as [Hy _].
  apply Qle_bool_iff in Hy. now rewrite Hy.
Qed.

(** ** The methods, step by step *)

Section Methods.
Context `{Elasticsearch}.

Lemma create_es_client_eq h u p w :
  exists c, _create_es_client h u p w = (Ok c, w).
Proof. unfold _create_es_client, bind, environ_get, ret. simpl. eauto. Qed.

Lemma client_or_create_eq client w :
  exists c, client_or_create client w = (Ok c, w).
Proof. destruct client; simpl; [unfold ret; eauto | apply create_es_client_eq]. Qed.

Lemma es_client_eq w :
  exists c w', _es_client w = (Ok c, w') /\
    es w' = es w /\ logs w' = logs w /\ environ w' = environ w /\
    _es_index_name (this w') = _es_index_name (this w).
Proof.
  unfold _es_client, bind, get_this. simpl.
  destruct (__es_client (this w)); simpl; unfold ret; eauto 10.
Qed.

Lemma indices_exists_eq c index w :
  indices_exists c index w = (Ok (bool_decide (is_Some (es w !! index))), w).
Proof. reflexivity. Qed.

Lemma search_eq c index body w docs :
  es w !! index = Some docs ->
  search c index body w = (Ok (es_aggregate docs body), w).
Proof. intros Hidx. unfold search, bind, get_es. simpl. now rewrite Hidx. Qed.

Lemma search_missing c index body w :
  es w !! index = None ->
  search c index body w = (Raise (NotFoundError index), w).
Proof. intros Hidx. unfold search, bind, get_es. simpl. now rewrite Hidx. Qed.

(** [ingest_synonym] on an existing index: the loop, then the closing
    message if the loop came to its end. *)
Lemma ingest_synonym_loop index_name mapping client w :
  is_Some (es w !! index_name) ->
  exists c,
    ingest_synonym index_name mapping client w =
    match streaming_loop c index_name mapping [] 0 w with
    | (Ok count, w') => (Ok VNone, add_logs w' [loaded_log count])
    | (Raise e, w') => (Raise e, w')
    end.
Proof.
  intros Hex. unfold ingest_synonym.
  destruct (client_or_create_eq client w) as [c Hc]. exists c.
  erewrite bind_ok by exact Hc.
  erewrite bind_ok by apply indices_exists_eq.
  rewrite bool_decide_eq_true_2 by exact Hex. cbn [negb].
  erewrite bind_ok by reflexivity.
  unfold bind at 1.
  now destruct (streaming_loop c index_name mapping [] 0 w) as [[count | e] w'].
Qed.

(** [ingest_synonym] on an existing index, when every record becomes an
    [index] action the backend accepts. *)
Lemma ingest_synonym_accepted index_name mapping client w reqs :
  is_Some (es w !! index_name) ->
  requests_of mapping = Ok reqs ->
  Forall (fun a => indexing a /\ es_accepts index_name a = true) reqs ->
  ingest_synonym index_name mapping client w =
  (Ok VNone,
   add_logs (with_es w (fst (execute_actions index_name (es w) reqs)))
     (map (loaded_document index_name) (snd (execute_actions index_name (es w) reqs)) ++
      [loaded_log (length reqs)])).
Proof.
  intros Hex Hreq Hall.
  destruct (ingest_synonym_loop index_name mapping client w Hex) as [c ->].
  rewrite (streaming_loop_accepted c index_name mapping [] 0 w reqs Hreq Hall).
  cbn [app Nat.add]. now rewrite add_logs_app.
Qed.

(** [ingest_synonym] on an existing index, when the mapping fits in one
    chunk: one request, the documents that succeeded logged, and the
    closing message only if none failed. *)
Lemma ingest_synonym_one_chunk index_name mapping client w reqs :
  is_Some (es w !! index_name) ->
  requests_of mapping = Ok reqs ->
  forallb well_formed reqs = true ->
  length mapping <= chunk_size ->
  ingest_synonym index_name mapping client w =
  match failed (snd (execute_actions index_name (es w) reqs)) with
  | [] =>
      (Ok VNone,
       add_logs (with_es w (fst (execute_actions index_name (es w) reqs)))
         (map (loaded_document index_name)
              (succeeded (snd (execute_actions index_name (es w) reqs))) ++
          [loaded_log (length (succeeded (snd (execute_actions index_name (es w) reqs))))]))
  | l =>
      (Raise (BulkIndexError (length l)),
       add_logs (with_es w (fst (execute_actions index_name (es w) reqs)))
         (map (loaded_document index_name)
              (succeeded (snd (execute_actions index_name (es w) reqs)))))
  end.
Proof.
  intros Hex Hreq Hwf Hlen.
  destruct (ingest_synonym_loop index_name mapping client w Hex) as [c ->].
  rewrite (streaming_loop_one_chunk c index_name mapping [] 0 w reqs Hreq)
    by (simpl; lia).
  cbn [app]. destruct reqs as [| x reqs].
  - cbn [execute_actions fst snd]. unfold failed, succeeded. rewrite !filter_nil.
    cbn [map app length]. now rewrite with_es_same.
  - rewrite send_chunk_eq by exact Hwf.
    destruct (failed _); [| reflexivity].
    cbn [Nat.add]. now rewrite add_logs_app.
Qed.

(** [fit] on an existing index: it connects, logs the import and hands
    the entity map to [ingest_synonym]. *)
Lemma fit_ingests clean w :
  _is_system_entity (this w) = false ->
  is_Some (es w !! _es_index_name (this w)) ->
  exists w1,
    es w1 = es w /\
    fit clean w =
    match ingest_synonym (_es_index_name (this w))
            (get_entity_map (_resource_loader (this w)) (self_type (this w))) None w1
    with
    | (Ok _, w') => (Ok VNone, w')
    | (Raise e, w') => (Raise e, w')
    end.
Proof.
  intros Hsys Hex. unfold fit.
  erewrite bind_ok by reflexivity. rewrite Hsys. cbn [negb].
  destruct (es_client_eq w) as (c & w1 & Hc & Hes & Hlogs & Henv & Hname).
  erewrite bind_ok by exact Hc.
  erewrite bind_ok by apply indices_exists_eq.
  rewrite Hes, (bool_decide_eq_true_2 _ Hex). cbn [negb].
  erewrite bind_ok by reflexivity.
  erewrite bind_ok by reflexivity.
  match goal with |- exists _, _ /\ bind _ _ ?w2 = _ => exists w2 end.
  split; [exact Hes |].
  unfold bind at 1.
  now destruct (ingest_synonym _ _ None _) as [[v | e] w'].
Qed.

(** [fit] on an existing index, when every record becomes an [index]
    action the backend accepts. *)
Lemma fit_accepted clean w reqs :
  _is_system_entity (this w) = false ->
  is_Some (es w !! _es_index_name (this w)) ->
  requests_of (get_entity_map (_resource_loader (this w)) (self_type (this w)))
    = Ok reqs ->
  Forall (fun a => indexing a /\ es_accepts (_es_index_name (this w)) a = true) reqs ->
  fst (fit clean w) = Ok VNone /\
  es (snd (fit clean w)) = fst (execute_actions (_es_index_name (this w)) (es w) reqs).
Proof.
  intros Hsys Hex Hreq Hall.
  destruct (fit_ingests clean w Hsys Hex) as (w1 & Hes & ->).
  rewrite (ingest_synonym_accepted _ _ None w1 reqs) by (rewrite ?Hes; assumption).
  simpl. now rewrite Hes.
Qed.

(** [fit] on an existing index, when the entity map fits in one chunk. *)
Lemma fit_one_chunk clean w reqs :
  _is_system_entity (this w) = false ->
  is_Some (es w !! _es_index_name (this w)) ->
  requests_of (get_entity_map (_resource_loader (this w)) (self_type (this w)))
    = Ok reqs ->
  forallb well_formed reqs = true ->
  length (get_entity_map (_resource_loader (this w)) (self_type (this w))) <= chunk_size ->
  fst (fit clean w) =
    match failed (snd (execute_actions (_es_index_name (this w)) (es w) reqs)) with
    | [] => Ok VNone
    | l => Raise (BulkIndexError (length l))
    end /\
  es (snd (fit clean w)) = fst (execute_actions (_es_index_name (this w)) (es w) reqs).
Proof.
  intros Hsys Hex Hreq Hwf Hlen.
  destruct (fit_ingests clean w Hsys Hex) as (w1 & Hes & ->).
  rewrite (ingest_synonym_one_chunk _ _ None w1 reqs) by (rewrite ?Hes; assumption).
  rewrite Hes. destruct (failed _); simpl; auto.
Qed.

(** The exact path on a resolver whose tables were never loaded. *)
Lemma predict_exact_unloaded entity w :
  _is_system_entity (this w) = false ->
  _mapping (this w) = None ->
  predict entity true w =
  (Raise (TypeError "'NoneType' object is not subscriptable"), w).
Proof.
  intros Hsys Hmap. unfold predict.
  erewrite bind_ok by reflexivity. rewrite Hsys.
  unfold bind, except_KeyError, lift, mapping_synonyms. now rewrite Hmap.
Qed.

(** [fit] leaves the resolver without tables, so the exact path fails
    after it whatever the mapping holds. *)
Lemma predict_exact_after_fit entity clean w :
  _is_system_entity (this w) = false ->
  _mapping (this w) = None ->
  fst (predict entity true (snd (fit clean w))) =
  Raise (TypeError "'NoneType' object is not subscriptable").
Proof.
  intros Hsys Hmap.
  destruct (tame_fit clean w) as (Hmap' & Hsys' & _).
  rewrite predict_exact_unloaded; [reflexivity | congruence | congruence].
Qed.

(** What the exact path does on tables, had they been loaded: a miss. *)
Lemma predict_exact_loaded_miss entity w m :
  _is_system_entity (this w) = false ->
  _mapping (this w) = Some m ->
  synonyms m !! _normalizer (this w) (text entity) = None ->
  predict entity true w =
  (Ok (Text (text entity)),
   add_logs w [ {| lvl := WARNING;
                   msg := "Failed to resolve entity %r for type %r";
                   args := [LStr (text entity); LStr (type entity)] |} ]).
Proof.
  intros Hsys Hmap Hsyn. unfold predict.
  erewrite bind_ok by reflexivity. rewrite Hsys.
  unfold bind, except_KeyError, lift, mapping_synonyms. now rewrite Hmap, Hsyn.
Qed.

(** What the exact path does on tables, had they been loaded: a hit. *)
Lemma predict_exact_loaded_hit entity w m cnames values :
  _is_system_entity (this w) = false ->
  _mapping (this w) = Some m ->
  synonyms m !! _normalizer (this w) (text entity) = Some cnames ->
  collect_values (this w) cnames [] = Ok values ->
  predict entity true w =
  (Ok (Values values),
   if Nat.ltb 1 (length cnames)
   then add_logs w [ {| lvl := INFO;
                        msg := "Multiple possible canonical names for %r entity for type %r";
                        args := [LStr (text entity); LStr (type entity)] |} ]
   else w).
Proof.
  intros Hsys Hmap Hsyn Hval. unfold predict.
  erewrite bind_ok by reflexivity. rewrite Hsys.
  unfold bind, except_KeyError, lift, mapping_synonyms. rewrite Hmap, Hsyn.
  simpl. destruct (Nat.ltb _ _); simpl; now rewrite Hval.
Qed.


End Methods.

(** ** Records with an [id] *)

Lemma doc_generator_with_id d :
  is_Some (d !! "id") -> _doc_generator d = Ok (action_of d).
Proof. intros [v Hv]. unfold _doc_generator, action_of. now rewrite Hv. Qed.

Lemma doc_generator_without_id d :
  d !! "id" = None -> _doc_generator d = Raise (KeyError "id").
Proof. intros Hd. unfold _doc_generator. now rewrite Hd. Qed.

(** The action carries every field of the record, verbatim. *)
Lemma action_of_keeps_fields d k v :
  d !! k = Some v -> action_of d !! k = Some v.
Proof.
  intros Hk. unfold action_of, dict_update.
  apply lookup_union_Some_l. exact Hk.
Qed.

(** The projection [predict] returns for an item: the aliases are
    dropped, every other attribute is kept. *)
Lemma item_value_strips_whitelist item k :
  item_value item !! k = if String.eqb k "whitelist" then None else item !! k.
Proof.
  unfold item_value. destruct (String.eqb_spec k "whitelist") as [-> | Hne].
  - apply lookup_delete_eq.
  - apply lookup_delete_ne. congruence.
Qed.

(** ** The claims *)

(** C10 (the code departs from the claim). Constructing an
    [EntityResolver] never succeeds: whatever the resource loader and
    the entity type, [__init__] looks the index prefix up in the class,
    where it is not bound (it is a constant of the module), and raises
    [AttributeError] instead of joining the prefix with the entity
    type, which would give the name on the last line. *)
Theorem init_raises_AttributeError
    (is_system_entity : string -> bool) (resource_loader : ResourceLoader)
    (entity_type : string) :
  init is_system_entity resource_loader entity_type =
    Raise (AttributeError "EntityResolver" "ES_SYNONYM_INDEX_PREFIX") /\
  assoc "ES_SYNONYM_INDEX_PREFIX" EntityResolver_dict = None /\
  str_add (MStr ES_SYNONYM_INDEX_PREFIX) ("_" +:+ entity_type) =
    Ok ("synonym_" +:+ entity_type).
Proof.
  split; [| split].
  - unfold init.
    assert (E : class_getattr "ES_SYNONYM_INDEX_PREFIX" =
                Raise (AttributeError "EntityResolver" "ES_SYNONYM_INDEX_PREFIX"))
      by reflexivity.
    now rewrite E.
  - reflexivity.
  - reflexivity.
Qed.

(** [fit] does not read [clean]. *)
Lemma fit_ignores_clean `{Elasticsearch} w : fit true w = fit false w.
Proof. reflexivity. Qed.




(** C8 (amended). The query of the fuzzy path is a disjunction of six
    match clauses on the normalized mention with two levels of boost:
    the exact-normalized clause on the alias field and the one on the
    canonical-name field carry boost 10; the full-text and the n-gram
    clauses on either field carry none, so that an exact-normalized
    clause outweighs the full-text and the n-gram clauses, which weigh
    the same. *)
Theorem full_text_query_two_boost_levels (normed : string) :
  (exists clauses, body_query (full_text_query normed) = Bool_should clauses) /\
  leaves (body_query (full_text_query normed)) =
    [ ("whitelist.normalized_keyword", normed, Some 10%Z);
      ("cname.normalized_keyword", normed, Some 10%Z);
      ("whitelist", normed, None);
      ("cname", normed, None);
      ("cname.char_ngram", normed, None);
      ("whitelist.char_ngram", normed, None) ] /\
  (forall f q b,
     In (f, q, b) (leaves (body_query (full_text_query normed))) ->
     q = normed /\
     match tier_of_field f with
     | Some ExactNormalized => b = Some 10%Z
     | Some FullText => b = None
     | Some PartialNgram => b = None
     | None => False
     end) /\
  (forall f, tier_of_field f <> None ->
     exists b, In (f, normed, b) (leaves (body_query (full_text_query normed)))) /\
  (forall t, exists f b,
     In (f, normed, b) (leaves (body_query (full_text_query normed))) /\
     tier_of_field f = Some t) /\
  (forall f1 q1 b1 f2 q2 b2,
     In (f1, q1, b1) (leaves (body_query (full_text_query normed))) ->
     In (f2, q2, b2) (leaves (body_query (full_text_query normed))) ->
     tier_of_field f1 = Some ExactNormalized ->
     tier_of_field f2 <> Some ExactNormalized ->
     (effective_boost b2 < effective_boost b1)%Z /\
     effective_boost b2 = default_boost).
Proof.
  split; [eexists; reflexivity |].
  split; [reflexivity |].
  split.
  { intros f q b Hin. simpl in Hin.
    repeat (destruct Hin as [Hin | Hin]; [injection Hin as <- <- <-; now split |]).
    destruct Hin. }
  split.
  { intros f Hf. unfold tier_of_field in Hf.
    destruct (String.eqb_spec f "whitelist.normalized_keyword") as [E | _];
      [exists (Some 10%Z); rewrite E; simpl; tauto |].
    destruct (String.eqb_spec f "cname.normalized_keyword") as [E | _];
      [exists (Some 10%Z); rewrite E; simpl; tauto |].
    destruct (String.eqb_spec f "whitelist") as [E | _];
      [exists None; rewrite E; simpl; tauto |].
    destruct (String.eqb_spec f "cname") as [E | _];
      [exists None; rewrite E; simpl; tauto |].
    destruct (String.eqb_spec f "whitelist.char_ngram") as [E | _];
      [exists None; rewrite E; simpl; tauto |].
    destruct (String.eqb_spec f "cname.char_ngram") as [E | _];
      [exists None; rewrite E; simpl; tauto |].
    now elim Hf. }
  split.
  { intros []; [exists "whitelist.normalized_keyword", (Some 10%Z)
               | exists "whitelist", None
               | exists "cname.char_ngram", None];
      (split; [simpl; tauto | reflexivity]). }
  intros f1 q1 b1 f2 q2 b2 H1 H2 Ht1 Ht2. simpl in H1, H2.
  repeat (destruct H1 as [H1 | H1];
          [injection H1 as <- <- <-; try discriminate Ht1 |]); try destruct H1;
    repeat (destruct H2 as [H2 | H2];
            [injection H2 as <- <- <-; try (now elim Ht2);
             (split; [reflexivity | reflexivity]) |]); destruct H2.
Qed.

(** ** Scenarios on the sample deployment *)

Module Scenarios.
Import Sample.

(** On a backend without the index, [fit] stops in [create_index], whose
    lookup of the analysis settings names an attribute the class does
    not bind. *)
Lemma fit_without_index :
  fst (fit false fresh_world) =
  Raise (AttributeError "EntityResolver" "DEFAULT_SYNC_ES_MAPPING").
Proof. vm_compute. reflexivity. Qed.

(** C1 (the code departs from the claim). After [fit] has ingested the
    mapping with Seattle, the exact path of [predict] on the mention
    "portland", which no synonym matches, raises [TypeError] to the
    caller: [fit] leaves the resolver without synonym table, the lookup
    subscripts [None], and the handler of the miss, which would log it
    and return the mention text, only catches [KeyError]. Nothing is
    logged. *)
Theorem predict_exact_miss_raises_TypeError :
  fst (fit false seattle_world) = Ok VNone /\
  _mapping (this (snd (fit false seattle_world))) = None /\
  fst (predict (mention "portland") true (snd (fit false seattle_world))) =
    Raise (TypeError "'NoneType' object is not subscriptable") /\
  logs (snd (predict (mention "portland") true (snd (fit false seattle_world)))) =
    logs (snd (fit false seattle_world)).
Proof. repeat split; vm_compute; reflexivity. Qed.

(** The miss as the handler treats it, on tables [fit] does not build. *)
Lemma predict_exact_miss_on_tables :
  fst (predict (mention "portland") true loaded_world) = Ok (Text "portland") /\
  map lvl (logs (snd (predict (mention "portland") true loaded_world))) = [WARNING].
Proof. split; vm_compute; reflexivity. Qed.

(** C2 (the code departs from the claim). [fit] with [clean=True] on an
    index that holds a document of an earlier build neither deletes nor
    recreates the index: it does what [fit] with [clean=False] does, and
    the stale document is still in the index afterwards. *)
Theorem fit_clean_keeps_stale_document :
  fit true stale_world = fit false stale_world /\
  fst (fit true stale_world) = Ok VNone /\
  (es (snd (fit true stale_world)) !! "synonym_city") ≫= (fun store => store !! "9")
    = Some old_town /\
  (es (snd (fit true stale_world)) !! "synonym_city") ≫= (fun store => store !! "1")
    = Some seattle.
Proof. repeat split; vm_compute; reflexivity. Qed.



(** C4 (the code departs from the claim). After [fit] has ingested a
    mapping in which the alias "NYC" is claimed by the canonical names
    NYC and New York City, the exact path of [predict] on "nyc" raises
    [TypeError] and logs nothing: the resolver has no synonym table to
    find the two names in. *)
Theorem predict_exact_ambiguous_raises_TypeError :
  fst (fit false nyc_world) = Ok VNone /\
  fst (predict (mention "nyc") true (snd (fit false nyc_world))) =
    Raise (TypeError "'NoneType' object is not subscriptable") /\
  logs (snd (predict (mention "nyc") true (snd (fit false nyc_world)))) =
    logs (snd (fit false nyc_world)).
Proof. repeat split; vm_compute; reflexivity. Qed.

(** The ambiguous alias as the loops treat it, on tables [fit] does not
    build: the items of both names, the aliases dropped, and one
    informational record. *)
Lemma predict_exact_ambiguous_on_tables :
  fst (predict (mention "nyc") true loaded_world) =
    Ok (Values [nyc; delete "whitelist" new_york_city]) /\
  map lvl (logs (snd (predict (mention "nyc") true loaded_world))) = [INFO].
Proof. split; vm_compute; reflexivity. Qed.

(** C5 (the code departs from the claim). After [fit] has ingested the
    record of Seattle, the exact path of [predict] on its own canonical
    name returns no result set: it raises [TypeError]. *)
Theorem predict_exact_round_trip_raises_TypeError :
  fst (fit false seattle_world) = Ok VNone /\
  (es (snd (fit false seattle_world)) !! "synonym_city") ≫= (fun store => store !! "1")
    = Some seattle /\
  fst (predict (mention "Seattle") true (snd (fit false seattle_world))) =
    Raise (TypeError "'NoneType' object is not subscriptable").
Proof. repeat split; vm_compute; reflexivity. Qed.

(** C6 (the code departs from the claim). A batch of three records of
    which the backend rejects the second. The loop of [ingest_synonym]
    is written to log a failed document as an error, leave it out of
    the count and go on; [streaming_bulk], called with its default
    [raise_on_error], withholds the failed item and raises
    [BulkIndexError] once the chunk is through. The two accepted
    documents are indexed and logged, the failure is not logged, the
    closing message with the count is never reached, and the call
    raises instead of returning. *)
Theorem ingest_synonym_raises_BulkIndexError :
  accepts "synonym_city" malformed = false /\
  fst (ingest_synonym "synonym_city" batch None seattle_world) =
    Raise (BulkIndexError 1) /\
  logs (snd (ingest_synonym "synonym_city" batch None seattle_world)) =
    [ {| lvl := DEBUG; msg := "Loaded document: %s";
         args := [LStr "/synonym_city/document/1"] |};
      {| lvl := DEBUG; msg := "Loaded document: %s";
         args := [LStr "/synonym_city/document/2"] |} ] /\
  es (snd (ingest_synonym "synonym_city" batch None seattle_world)) !! "synonym_city" =
    Some {[ "1" := seattle; "2" := new_york_city ]} /\
  fst (fit false (world_with batch ∅)) = Raise (BulkIndexError 1).
Proof. repeat split; vm_compute; reflexivity. Qed.



(** Twelve groups in the response: ten entries come back, best first,
    the two of equal score in the order of the response. *)
Lemma predict_fuzzy_twelve_groups :
  fst (predict (mention "Sea") false seattle_world) =
  Ok (Results
        [ {| cname := "Seatac"; max_score := 12 # 1; num_hits := 1 |};
          {| cname := "Seal Beach"; max_score := 5 # 1; num_hits := 1 |};
          {| cname := "Searcy"; max_score := 2 # 1; num_hits := 2 |};
          {| cname := "Seaside"; max_score := 7 # 4; num_hits := 3 |};
          {| cname := "Seattle"; max_score := 3 # 2; num_hits := 2 |};
          {| cname := "Sea Isle"; max_score := 3 # 2; num_hits := 1 |};
          {| cname := "Sebastopol"; max_score := 11 # 10; num_hits := 4 |};
          {| cname := "Seaford"; max_score := 9 # 10; num_hits := 1 |};
          {| cname := "Seagoville"; max_score := 3 # 4; num_hits := 1 |};
          {| cname := "Seabrook"; max_score := 1 # 2; num_hits := 1 |} ]).
Proof. vm_compute. reflexivity. Qed.

(** On a backend without the index the fuzzy path raises. *)
Lemma predict_fuzzy_without_index :
  fst (predict (mention "Sea") false fresh_world) = Raise (NotFoundError "synonym_city").
Proof. vm_compute. reflexivity. Qed.

(** C8 (counterexample). In the query built for "nyc" the full-text
    clause on [cname] and the n-gram clause on [cname.char_ngram] carry
    the same weight, none being given: the boosts do not form three
    strictly ordered tiers. *)
Lemma full_text_query_not_three_tiers :
  ~ three_tiers (body_query (full_text_query "nyc")).
Proof.
  intros Htiers.
  assert (Hlt : (effective_boost None < effective_boost None
                 < effective_boost (Some 10%Z))%Z).
  { apply (Htiers "cname.normalized_keyword" "nyc" (Some 10%Z)
                  "cname" "nyc" None
                  "cname.char_ngram" "nyc" None);
      first [reflexivity | simpl; tauto]. }
  lia.
Qed.

(** C9 (the code departs from the claim). A mapping whose one record
    has a [cname] and an extra field but no [id]: [fit] raises
    [KeyError] from [_doc_generator] and nothing is indexed. *)
Theorem fit_without_id_raises_KeyError :
  portland !! "id" = None /\
  fst (fit false portland_world) = Raise (KeyError "id") /\
  es (snd (fit false portland_world)) = es portland_world /\
  fst (ingest_synonym "synonym_city" [portland] None portland_world) =
    Raise (KeyError "id").
Proof. repeat split; vm_compute; reflexivity. Qed.

End Scenarios.

(** ** Beyond the claims: the client *)

Section Client.
Context `{Elasticsearch}.

(** [_create_es_client] reads the environment and nothing else: the host
    is the argument when it is a non-empty string and [MM_ES_HOST]
    otherwise, and credentials are attached exactly when a non-empty
    user name and a non-empty password are found, argument first, the
    environment second. *)
Theorem create_es_client_credentials (host user pass : option string) (w : world) :
  exists c,
    _create_es_client host user pass w = (Ok c, w) /\
    es_host c = (if truthy host then host else environ w !! "MM_ES_HOST") /\
    (forall us pa,
       http_auth c = Some (us, pa) <->
       (if truthy user then user else environ w !! "MM_ES_USERNAME") = Some us /\
       (if truthy pass then pass else environ w !! "MM_ES_PASSWORD") = Some pa /\
       us <> "" /\ pa <> "").
Proof.
  eexists. split.
  { unfold _create_es_client, bind, environ_get, ret. simpl. reflexivity. }
  split; [reflexivity |].
  intros us pa. simpl. unfold py_or.
  set (u := if truthy user then user else environ w !! "MM_ES_USERNAME").
  set (p := if truthy pass then pass else environ w !! "MM_ES_PASSWORD").
  destruct u as [us' |], p as [pa' |]; simpl;
    try (split; [discriminate | intros (? & ? & _); discriminate]).
  destruct (String.eqb_spec us' "") as [-> | Hu], (String.eqb_spec pa' "") as [-> | Hp];
    simpl; split; try discriminate;
    try (intros (Hu' & Hp' & Hnu & Hnp); congruence).
  intros [= <- <-]. auto.
Qed.

(** The property [_es_client] connects once: the first access stores
    the client in the resolver and alters nothing else, and every later
    access, whatever happened to the environment, the backend or the log
    in between, gives that client back and leaves the world alone. *)
Theorem es_client_connects_once (w : world) :
  exists c,
    fst (_es_client w) = Ok c /\
    __es_client (this (snd (_es_client w))) = Some c /\
    same_configuration w (snd (_es_client w)) /\
    _mapping (this (snd (_es_client w))) = _mapping (this w) /\
    es (snd (_es_client w)) = es w /\
    logs (snd (_es_client w)) = logs w /\
    forall w', __es_client (this w') = Some c -> _es_client w' = (Ok c, w').
Proof.
  assert (Hlater : forall c w', __es_client (this w') = Some c ->
                                _es_client w' = (Ok c, w')).
  { intros c w' Hc. unfold _es_client, bind, get_this. simpl. now rewrite Hc. }
  destruct (__es_client (this w)) as [c |] eqn:Hc.
  - exists c. rewrite (Hlater c w Hc). unfold same_configuration. simpl.
    repeat split; auto.
  - destruct (create_es_client_eq None None None w) as [c Hnew].
    exists c.
    assert (E : _es_client w =
                (Ok c,
                 {| this := {| _resource_loader := _resource_loader (this w);
                               _normalizer := _normalizer (this w);
                               self_type := self_type (this w);
                               _mapping := _mapping (this w);
                               _is_system_entity := _is_system_entity (this w);
                               __es_client := Some c;
                               _es_index_name := _es_index_name (this w) |};
                    environ := environ w; es := es w; logs := logs w |})).
    { unfold _es_client. erewrite bind_ok by reflexivity. rewrite Hc.
      erewrite bind_ok by exact Hnew. reflexivity. }
    rewrite E. unfold same_configuration. simpl. repeat split; auto.
Qed.

(** [create_index] never creates anything: for every index name, with
    or without a client, on a backend that has the index or not, it
    raises [AttributeError] on the settings attribute it names, and the
    backend and the log are as before. *)
Theorem create_index_always_raises (index_name : string)
    (client : option es_client) (w : world) :
  create_index index_name client w =
  (Raise (AttributeError "EntityResolver" "DEFAULT_SYNC_ES_MAPPING"), w).
Proof.
  unfold create_index.
  destruct (client_or_create_eq client w) as [c Hc].
  erewrite bind_ok by exact Hc. reflexivity.
Qed.

(** The settings the class does bind go by another name. *)
Lemma class_binds_the_settings :
  class_getattr "DEFAULT_SYN_ES_MAPPING" = Ok DEFAULT_SYN_ES_MAPPING.
Proof. reflexivity. Qed.

End Client.

(** ** Beyond the claims: what the methods leave in place *)

Section Steps.
Context `{Elasticsearch}.
Variable R : world -> world -> Prop.
Hypothesis R_refl : forall w, R w w.
Hypothesis R_trans : forall w1 w2 w3, R w1 w2 -> R w2 w3 -> R w1 w3.

Lemma steps_ret {A} (a : A) : steps R (ret a).
Proof. intros w. apply R_refl. Qed.

Lemma steps_raise {A} e : steps R (@raise A e).
Proof. intros w. apply R_refl. Qed.

Lemma steps_lift {A} (r : result A) : steps R (lift r).
Proof. intros w. apply R_refl. Qed.

Lemma steps_bind {A B} (m : M A) (k : A -> M B) :
  steps R m -> (forall a, steps R (k a)) -> steps R (bind m k).
Proof.
  intros Hm Hk w. unfold bind. specialize (Hm w).
  destruct (m w) as [[a | e] w'] eqn:E; simpl in *.
  - eapply R_trans; [exact Hm | apply Hk].
  - exact Hm.
Qed.

Lemma steps_create_es_client h u p : steps R (_create_es_client h u p).
Proof.
  intros w. destruct (create_es_client_eq h u p w) as [c ->]. apply R_refl.
Qed.

Lemma steps_client_or_create c : steps R (client_or_create c).
Proof.
  intros w. destruct (client_or_create_eq c w) as [c' ->]. apply R_refl.
Qed.

Lemma steps_indices_exists c index : steps R (indices_exists c index).
Proof. intros w. apply R_refl. Qed.

Lemma create_index_eq index_name client w :
  create_index index_name client w =
  (Raise (AttributeError "EntityResolver" "DEFAULT_SYNC_ES_MAPPING"), w).
Proof.
  unfold create_index.
  destruct (client_or_create_eq client w) as [c Hc].
  erewrite bind_ok by exact Hc. reflexivity.
Qed.

Lemma steps_create_index index_name client : steps R (create_index index_name client).
Proof. intros w. rewrite create_index_eq. apply R_refl. Qed.

Hypothesis R_logger : forall l m a, steps R (logger l m a).
Hypothesis R_connect : steps R _es_client.

(** The records of the mapping satisfy [sends], the actions they become
    satisfy [sent], and a request of such actions steps along [R]. *)
Variable index : string.
Variable sends : doc -> Prop.
Variable sent : bulk_action -> Prop.
Hypothesis sends_sent : forall d x, sends d -> request_of d = Ok x -> sent x.
Hypothesis R_bulk : forall c chunk, Forall sent chunk -> steps R (bulk c index chunk).

Lemma steps_handle_result count r : steps R (handle_result index count r).
Proof.
  destruct r as [okay [action result]]. unfold handle_result.
  destruct okay; simpl; apply steps_bind; auto using steps_ret.
Qed.

Lemma steps_process_bulk_chunk items : forall errors count,
  steps R (_process_bulk_chunk index items errors count).
Proof.
  induction items as [| r items IH]; intros errors count; cbn [_process_bulk_chunk].
  - destruct errors; [apply steps_ret | apply steps_raise].
  - destruct (_ || _); [| apply IH].
    apply steps_bind; [apply steps_handle_result | intros n; apply IH].
Qed.

Lemma steps_send_chunk c chunk count :
  Forall sent chunk -> steps R (send_chunk c index chunk count).
Proof.
  intros Hall. unfold send_chunk.
  apply steps_bind; [now apply R_bulk | intros items; apply steps_process_bulk_chunk].
Qed.

Lemma steps_streaming_loop c docs : forall pending count,
  Forall sends docs -> Forall sent pending ->
  steps R (streaming_loop c index docs pending count).
Proof.
  induction docs as [| d ds IH]; intros pending count Hdocs Hpending.
  - cbn [streaming_loop]. destruct pending; [apply steps_ret |].
    now apply steps_send_chunk.
  - apply Forall_cons in Hdocs as [Hd Hds].
    intros w. rewrite streaming_loop_cons.
    destruct (request_of d) as [x | e] eqn:Hx; [| apply R_refl].
    pose proof (sends_sent d x Hd Hx) as Hsent.
    destruct (Nat.eqb (length pending) chunk_size).
    + apply steps_bind; [now apply steps_send_chunk | intros n].
      apply IH; [exact Hds | now constructor].
    + apply IH; [exact Hds |]. apply Forall_app. split; [exact Hpending | now constructor].
Qed.

Lemma steps_ingest_synonym mapping client :
  Forall sends mapping -> steps R (ingest_synonym index mapping client).
Proof.
  intros Hall. unfold ingest_synonym.
  apply steps_bind; [apply steps_client_or_create | intros c].
  apply steps_bind; [apply steps_indices_exists | intros ex].
  apply steps_bind.
  { destruct (negb ex); [apply steps_create_index | apply steps_ret]. }
  intros _.
  apply steps_bind; [now apply steps_streaming_loop | intros count].
  apply steps_bind; [apply R_logger | intros _; apply steps_ret].
Qed.

Lemma steps_fit clean w :
  _es_index_name (this w) = index ->
  Forall sends (get_entity_map (_resource_loader (this w)) (self_type (this w))) ->
  R w (snd (fit clean w)).
Proof.
  intros Hname Hall. unfold fit.
  erewrite bind_ok by reflexivity.
  destruct (_is_system_entity (this w)); simpl; [apply R_refl |].
  rewrite Hname.
  apply (steps_bind _ _ R_connect). intros c.
  apply steps_bind; [apply steps_indices_exists | intros ex].
  apply steps_bind.
  { destruct (negb ex); [| apply steps_ret].
    apply (steps_bind _ _ R_connect). intros c'. apply steps_create_index. }
  intros _.
  apply steps_bind; [apply R_logger | intros _].
  apply steps_bind; [now apply steps_ingest_synonym | intros _; apply steps_ret].
Qed.

End Steps.

Section Frames.
Context `{Elasticsearch}.

(** What an action changes is in its target index. *)
Lemma execute_action_other index e a j :
  j <> target_index index a -> fst (execute_action index e a) !! j = e !! j.
Proof.
  intros Hj. unfold execute_action.
  destruct (es_accepts index a); [| reflexivity].
  destruct (action_data a) as [| d | v]; simpl.
  - destruct (bool_decide _); simpl; [| reflexivity].
    now rewrite lookup_insert_ne by congruence.
  - destruct (_ && _); simpl; [reflexivity |].
    now rewrite lookup_insert_ne by congruence.
  - reflexivity.
Qed.

(** An action that indexes removes nothing. *)
Lemma execute_action_grows index e a j store :
  indexing a ->
  e !! j = Some store ->
  exists store', fst (execute_action index e a) !! j = Some store' /\
                 dom store ⊆ dom store'.
Proof.
  intros [Hop [d Hd]] Hj. unfold execute_action. rewrite Hd, Hop.
  destruct (es_accepts index a); simpl.
  2: { exists store. split; [exact Hj | reflexivity]. }
  destruct (decide (j = target_index index a)) as [-> | Hne].
  - rewrite lookup_insert_eq, Hj. simpl. eexists. split; [reflexivity |].
    rewrite dom_insert. set_solver.
  - rewrite lookup_insert_ne by congruence. exists store. split; [exact Hj | reflexivity].
Qed.

Lemma execute_actions_other index l : forall e j,
  Forall (fun a => target_index index a = index) l ->
  j <> index -> fst (execute_actions index e l) !! j = e !! j.
Proof.
  induction l as [| a l IH]; intros e j Hall Hj; [reflexivity |].
  apply Forall_cons in Hall as [Ha Hl].
  rewrite execute_actions_cons. cbn [fst].
  rewrite IH by assumption. apply execute_action_other. congruence.
Qed.

Lemma execute_actions_grow index l : forall e j store,
  Forall indexing l ->
  e !! j = Some store ->
  exists store', fst (execute_actions index e l) !! j = Some store' /\
                 dom store ⊆ dom store'.
Proof.
  induction l as [| a l IH]; intros e j store Hall Hj.
  - exists store. split; [exact Hj | reflexivity].
  - apply Forall_cons in Hall as [Ha Hl].
    rewrite execute_actions_cons. cbn [fst].
    destruct (execute_action_grows index e a j store Ha Hj) as (s1 & Hs1 & Hd1).
    destruct (IH _ j s1 Hl Hs1) as (s2 & Hs2 & Hd2).
    exists s2. split; [exact Hs2 | set_solver].
Qed.

Lemma bulk_cases c index chunk w :
  bulk c index chunk w = (Raise (RequestError index), w) \/
  bulk c index chunk w =
    (Ok (snd (execute_actions index (es w) chunk)),
     with_es w (fst (execute_actions index (es w) chunk))).
Proof.
  destruct (forallb well_formed chunk) eqn:Hwf.
  - right. now apply bulk_eq.
  - left. now apply bulk_refused.
Qed.

Lemma never_shrinks_refl w : never_shrinks w w.
Proof. intros index store Hs. exists store. split; [exact Hs | reflexivity]. Qed.

Lemma never_shrinks_trans w1 w2 w3 :
  never_shrinks w1 w2 -> never_shrinks w2 w3 -> never_shrinks w1 w3.
Proof.
  intros H12 H23 index store Hs.
  destruct (H12 index store Hs) as (s2 & Hs2 & Hd2).
  destruct (H23 index s2 Hs2) as (s3 & Hs3 & Hd3).
  exists s3. split; [exact Hs3 | set_solver].
Qed.

Lemma never_shrinks_bulk index c chunk :
  Forall indexing chunk -> steps never_shrinks (bulk c index chunk).
Proof.
  intros Hall w. destruct (bulk_cases c index chunk w) as [-> | ->].
  - apply never_shrinks_refl.
  - intros j store Hs. simpl. now apply execute_actions_grow.
Qed.

Lemma es_client_frame w :
  same_configuration w (snd (_es_client w)) /\
  es (snd (_es_client w)) = es w /\ logs (snd (_es_client w)) = logs w.
Proof.
  unfold _es_client. erewrite bind_ok by reflexivity.
  destruct (__es_client (this w)) as [c |].
  - unfold same_configuration. simpl. repeat split.
  - destruct (create_es_client_eq None None None w) as [c Hnew].
    erewrite bind_ok by exact Hnew. unfold same_configuration. simpl. repeat split.
Qed.

Lemma never_shrinks_same_es w w' : es w' = es w -> never_shrinks w w'.
Proof.
  intros E index store Hs. exists store. rewrite E. split; [exact Hs | reflexivity].
Qed.

Lemma only_index_refl index w : only_index index w w.
Proof. intros j _. reflexivity. Qed.

Lemma only_index_trans index w1 w2 w3 :
  only_index index w1 w2 -> only_index index w2 w3 -> only_index index w1 w3.
Proof. intros H12 H23 j Hj. rewrite (H23 j Hj). apply (H12 j Hj). Qed.

Lemma only_index_same_es index w w' : es w' = es w -> only_index index w w'.
Proof. intros E j _. now rewrite E. Qed.

Lemma only_index_bulk index c chunk :
  Forall (fun a => target_index index a = index) chunk ->
  steps (only_index index) (bulk c index chunk).
Proof.
  intros Hall w. destruct (bulk_cases c index chunk w) as [-> | ->].
  - apply only_index_refl.
  - intros j Hj. simpl. now apply execute_actions_other.
Qed.

Lemma same_configuration_refl w : same_configuration w w.
Proof. unfold same_configuration. repeat split. Qed.

Lemma same_configuration_trans w1 w2 w3 :
  same_configuration w1 w2 -> same_configuration w2 w3 -> same_configuration w1 w3.
Proof.
  unfold same_configuration.
  intros (? & ? & ? & ? & ?) (? & ? & ? & ? & ?). repeat split; congruence.
Qed.

(** When no record of the mapping names an operation or a source of its
    own, [fit], like [ingest_synonym], only ever adds to the backend:
    every index that existed still exists afterwards and holds at least
    the document ids it held, whether the call returns or raises and
    whatever [clean] is. Documents of records that have left the
    mapping stay in the index. *)
Theorem fit_never_removes_documents (clean : bool) (w : world) :
  Forall (fun d => d !! "_op_type" = None /\ d !! "_source" = None)
         (get_entity_map (_resource_loader (this w)) (self_type (this w))) ->
  never_shrinks w (snd (fit clean w)).
Proof.
  intros Hall.
  apply (steps_fit never_shrinks never_shrinks_refl never_shrinks_trans)
    with (index := _es_index_name (this w))
         (sends := fun d => d !! "_op_type" = None /\ d !! "_source" = None)
         (sent := indexing); [| | | | reflexivity | exact Hall].
  - intros l m a w0. now apply never_shrinks_same_es.
  - intros w0. apply never_shrinks_same_es. apply es_client_frame.
  - intros d x [Hop Hsrc] Hx. exact (request_of_indexing d x Hop Hsrc Hx).
  - intros c chunk. apply never_shrinks_bulk.
Qed.

(** When no record of the mapping names an [_index] of its own, [fit]
    writes to the index named after the entity type and to no other:
    every other index of the backend is as it was. *)
Theorem fit_touches_only_its_index (clean : bool) (w : world) :
  Forall (fun d => d !! "_index" = None)
         (get_entity_map (_resource_loader (this w)) (self_type (this w))) ->
  only_index (_es_index_name (this w)) w (snd (fit clean w)).
Proof.
  intros Hall.
  apply (steps_fit (only_index (_es_index_name (this w)))
           (only_index_refl _) (only_index_trans _))
    with (index := _es_index_name (this w))
         (sends := fun d => d !! "_index" = None)
         (sent := fun a => target_index (_es_index_name (this w)) a
                           = _es_index_name (this w));
    [| | | | reflexivity | exact Hall].
  - intros l m a w0. now apply only_index_same_es.
  - intros w0. apply only_index_same_es. apply es_client_frame.
  - intros d x Hd Hx. exact (request_of_same_index _ d x Hd Hx).
  - intros c chunk. apply only_index_bulk.
Qed.

Lemma fit_same_configuration clean w : same_configuration w (snd (fit clean w)).
Proof.
  apply (steps_fit same_configuration same_configuration_refl same_configuration_trans)
    with (index := _es_index_name (this w))
         (sends := fun _ => True) (sent := fun _ => True);
    [| | | | reflexivity | apply Forall_forall; auto].
  - intros l m a w0. unfold same_configuration. simpl. repeat split.
  - intros w0. apply es_client_frame.
  - auto.
  - intros c chunk _ w0. destruct (bulk_cases c (_es_index_name (this w)) chunk w0)
      as [-> | ->]; unfold same_configuration; simpl; repeat split.
Qed.

(** [fit] never builds the tables of the exact path and never
    reconfigures the resolver: after it, returned or raised,
    [_mapping] is what it was, and so are the resource loader, the
    entity type, the index name and the system-entity flag. *)
Theorem fit_never_builds_tables (clean : bool) (w : world) :
  _mapping (this (snd (fit clean w))) = _mapping (this w) /\
  same_configuration w (snd (fit clean w)).
Proof.
  split; [apply tame_fit | apply fit_same_configuration].
Qed.

(** For a system entity [fit] does nothing at all and [predict], in
    either mode, hands back the value the entity came with: no client is
    created, the backend is not asked, nothing is logged. *)
Theorem system_entity_bypasses_the_resolver (clean exact_match_only : bool)
    (entity : Entity) (w : world) :
  _is_system_entity (this w) = true ->
  fit clean w = (Ok VNone, w) /\
  predict entity exact_match_only w = (Ok (Value (entity_value entity)), w).
Proof.
  intros Hsys. split.
  - unfold fit. erewrite bind_ok by reflexivity. now rewrite Hsys.
  - unfold predict. erewrite bind_ok by reflexivity. now rewrite Hsys.
Qed.

(** On a backend that lacks the index, [fit] does not create it: it
    raises the [AttributeError] of [create_index], indexes nothing and
    logs nothing; [ingest_synonym], whose docstring promises a new
    index, fails the same way and leaves the world untouched. *)
Theorem missing_index_is_not_created (clean : bool) (w : world)
    (index_name : string) (mapping : list doc) (client : option es_client) :
  (_is_system_entity (this w) = false ->
   es w !! _es_index_name (this w) = None ->
   fst (fit clean w) =
     Raise (AttributeError "EntityResolver" "DEFAULT_SYNC_ES_MAPPING") /\
   es (snd (fit clean w)) = es w /\
   logs (snd (fit clean w)) = logs w) /\
  (es w !! index_name = None ->
   ingest_synonym index_name mapping client w =
     (Raise (AttributeError "EntityResolver" "DEFAULT_SYNC_ES_MAPPING"), w)).
Proof.
  split.
  - intros Hsys Hidx. unfold fit.
    erewrite bind_ok by reflexivity. rewrite Hsys. cbn [negb].
    destruct (es_client_eq w) as (c & w1 & Hc & Hes & Hlogs & Henv & Hname).
    erewrite bind_ok by exact Hc.
    erewrite bind_ok by apply indices_exists_eq.
    rewrite Hes, bool_decide_eq_false_2 by (rewrite Hidx; intros [? ?]; discriminate).
    cbn [negb].
    assert (Hcached : exists c', _es_client w1 = (Ok c', w1)).
    { destruct (es_client_frame w) as (_ & _ & _).
      unfold _es_client in Hc |- *. revert Hc.
      erewrite !bind_ok by reflexivity.
      destruct (__es_client (this w)) as [c0 |] eqn:E0.
      - intros [= <- <-]. rewrite E0. eauto.
      - destruct (create_es_client_eq None None None w) as [c0 Hnew].
        erewrite bind_ok by exact Hnew. intros [= <- <-]. simpl. eauto. }
    destruct Hcached as [c' Hc'].
    erewrite bind_raise.
    2: { erewrite bind_ok by exact Hc'. apply create_index_eq. }
    simpl. auto.
  - intros Hidx. unfold ingest_synonym.
    destruct (client_or_create_eq client w) as [c Hc].
    erewrite bind_ok by exact Hc.
    erewrite bind_ok by apply indices_exists_eq.
    rewrite bool_decide_eq_false_2 by (rewrite Hidx; intros [? ?]; discriminate).
    cbn [negb].
    erewrite bind_raise by apply create_index_eq. reflexivity.
Qed.

End Frames.

(** ** Beyond the claims: what ingestion leaves in the index *)

Section Stored.
Context `{Elasticsearch}.

Lemma forallb_filter_false {A} (f : A -> bool) (l : list A) :
  forallb f l = match filter (fun x => f x = false) l with [] => true | _ => false end.
Proof.
  induction l as [| x l IH]; [reflexivity |].
  cbn [forallb]. rewrite filter_cons.
  destruct (decide (f x = false)) as [E | E].
  - now rewrite E.
  - destruct (f x); [exact IH | congruence].
Qed.

Lemma filter_accepts_plain index l :
  Forall (fun d => plain d = true) l ->
  filter (fun d => es_accepts index (index_request d) = false) l =
  filter (fun d => accepts index d = false) l.
Proof.
  induction 1 as [| d l Hd _ IH]; [reflexivity |].
  rewrite !filter_cons, IH, (accepts_plain index d Hd). reflexivity.
Qed.

Lemma forallb_accepts index l :
  Forall (fun d => accepts index d = true) l -> forallb (accepts index) l = true.
Proof. induction 1 as [| d l Hd _ IH]; simpl; [reflexivity | now rewrite Hd, IH]. Qed.

(** [fit] on plain records, when the entity map fits in one chunk or
    the backend accepts every record: what it returns and what the
    index holds. *)
Lemma fit_plain clean w :
  _is_system_entity (this w) = false ->
  is_Some (es w !! _es_index_name (this w)) ->
  Forall (fun d => plain d = true)
         (get_entity_map (_resource_loader (this w)) (self_type (this w))) ->
  length (get_entity_map (_resource_loader (this w)) (self_type (this w))) <= chunk_size \/
  Forall (fun d => accepts (_es_index_name (this w)) d = true)
         (get_entity_map (_resource_loader (this w)) (self_type (this w))) ->
  fst (fit clean w) =
    (if forallb (accepts (_es_index_name (this w)))
                (get_entity_map (_resource_loader (this w)) (self_type (this w)))
     then Ok VNone
     else Raise (BulkIndexError
                   (length (filter (fun d => accepts (_es_index_name (this w)) d = false)
                              (get_entity_map (_resource_loader (this w))
                                              (self_type (this w))))))) /\
  es (snd (fit clean w)) =
    <[ _es_index_name (this w) :=
       store_after (_es_index_name (this w))
         (default ∅ (es w !! _es_index_name (this w)))
         (get_entity_map (_resource_loader (this w)) (self_type (this w))) ]> (es w).
Proof.
  intros Hsys Hidx Hplain Hcase.
  set (mapping := get_entity_map (_resource_loader (this w)) (self_type (this w))) in *.
  set (index := _es_index_name (this w)) in *.
  pose proof (requests_of_plain mapping Hplain) as Hreq.
  rewrite <- (execute_index_requests index mapping (es w) Hidx).
  destruct Hcase as [Hlen | Hacc].
  - assert (Hwf : forallb well_formed (map index_request mapping) = true).
    { apply forallb_well_formed, Forall_forall. intros a Ha.
      apply list_elem_of_In, in_map_iff in Ha as (d & <- & _).
      apply index_request_indexing. }
    destruct (fit_one_chunk clean w _ Hsys Hidx Hreq Hwf Hlen) as [Hres Hes].
    split; [| exact Hes].
    rewrite Hres. fold index.
    pose proof (failed_index_requests index mapping (es w)) as Hf.
    rewrite (filter_accepts_plain index mapping Hplain) in Hf.
    rewrite forallb_filter_false.
    destruct (failed _) as [| p l]; simpl in Hf.
    + symmetry in Hf. apply nil_length_inv in Hf. now rewrite Hf.
    + destruct (filter _ mapping) as [| q l']; [discriminate Hf |].
      do 2 f_equal. exact Hf.
  - assert (Hall : Forall (fun a => indexing a /\ es_accepts index a = true)
                          (map index_request mapping)).
    { apply Forall_forall. intros a Ha.
      apply list_elem_of_In, in_map_iff in Ha as (d & <- & Hd).
      apply list_elem_of_In in Hd.
      rewrite Forall_forall in Hplain, Hacc.
      split; [apply index_request_indexing |].
      rewrite <- (accepts_plain index d (Hplain d Hd)). now apply Hacc. }
    destruct (fit_accepted clean w _ Hsys Hidx Hreq Hall) as [Hres Hes].
    split; [| exact Hes].
    now rewrite Hres, (forallb_accepts index mapping Hacc).
Qed.

Lemma written_distinct index mapping d :
  NoDup (map doc_key mapping) ->
  In d mapping ->
  accepts index d = true ->
  written index mapping (doc_key d) = Some d.
Proof.
  intros Hnodup Hin Hacc.
  apply in_split in Hin as (pre & post & ->).
  apply written_last; [exact Hacc |].
  rewrite map_app in Hnodup. apply NoDup_app in Hnodup as (_ & _ & Hpost).
  simpl in Hpost. apply NoDup_cons in Hpost as [Hfresh _].
  apply Forall_forall. intros r Hr Heq. apply Hfresh.
  rewrite <- Heq. apply list_elem_of_In, in_map. now apply list_elem_of_In.
Qed.

(** After [fit] on an existing index with an entity map of plain
    records that fits in one chunk of 50, the index holds under each
    document id the last record of the mapping with that id that the
    backend accepted, and under every other id what it held before,
    whether [fit] returns or raises; [fit] returns when the backend
    accepted every record and raises [BulkIndexError], with the number
    of rejected records, when it did not. *)
Theorem fit_last_accepted_record_wins (clean : bool) (w : world)
    (store : gmap string doc) :
  _is_system_entity (this w) = false ->
  es w !! _es_index_name (this w) = Some store ->
  Forall (fun d => plain d = true)
         (get_entity_map (_resource_loader (this w)) (self_type (this w))) ->
  length (get_entity_map (_resource_loader (this w)) (self_type (this w))) <= chunk_size ->
  fst (fit clean w) =
    (if forallb (accepts (_es_index_name (this w)))
                (get_entity_map (_resource_loader (this w)) (self_type (this w)))
     then Ok VNone
     else Raise (BulkIndexError
                   (length (filter (fun d => accepts (_es_index_name (this w)) d = false)
                              (get_entity_map (_resource_loader (this w))
                                              (self_type (this w))))))) /\
  exists store',
    es (snd (fit clean w)) !! _es_index_name (this w) = Some store' /\
    forall k,
      store' !! k =
      match written (_es_index_name (this w))
              (get_entity_map (_resource_loader (this w)) (self_type (this w))) k
      with
      | Some d => Some d
      | None => store !! k
      end.
Proof.
  intros Hsys Hidx Hplain Hlen.
  destruct (fit_plain clean w Hsys (ltac:(rewrite Hidx; eauto)) Hplain (or_introl Hlen))
    as [Hres Hes].
  split; [exact Hres |].
  rewrite Hes, lookup_insert_eq, Hidx. cbn [default from_option].
  eexists. split; [reflexivity |].
  intros k. now apply store_after_lookup.
Qed.

(** Round trip through the index: when the records of the mapping are
    plain and carry pairwise distinct ids, and the mapping fits in one
    chunk or the backend accepts all of it, [fit] on an existing index
    stores every record the backend accepts verbatim under its id. *)
Theorem fit_stores_records_verbatim (clean : bool) (w : world) (d : doc) :
  _is_system_entity (this w) = false ->
  is_Some (es w !! _es_index_name (this w)) ->
  Forall (fun r => plain r = true)
         (get_entity_map (_resource_loader (this w)) (self_type (this w))) ->
  length (get_entity_map (_resource_loader (this w)) (self_type (this w))) <= chunk_size \/
  Forall (fun r => accepts (_es_index_name (this w)) r = true)
         (get_entity_map (_resource_loader (this w)) (self_type (this w))) ->
  NoDup (map doc_key (get_entity_map (_resource_loader (this w)) (self_type (this w)))) ->
  In d (get_entity_map (_resource_loader (this w)) (self_type (this w))) ->
  accepts (_es_index_name (this w)) d = true ->
  (es (snd (fit clean w)) !! _es_index_name (this w)) ≫= (fun s => s !! doc_key d)
    = Some d.
Proof.
  intros Hsys Hidx Hplain Hcase Hnodup Hin Hacc.
  destruct (fit_plain clean w Hsys Hidx Hplain Hcase) as [_ Hes].
  rewrite Hes, lookup_insert_eq. simpl.
  rewrite store_after_lookup by exact Hplain.
  now rewrite (written_distinct _ _ d Hnodup Hin Hacc).
Qed.

(** [fit] is idempotent on the backend: on an existing index, with an
    entity map of plain records that the backend accepts, a second
    [fit] completes and leaves the indices as the first one left
    them. *)
Theorem fit_twice_same_backend (clean clean' : bool) (w : world) :
  _is_system_entity (this w) = false ->
  is_Some (es w !! _es_index_name (this w)) ->
  Forall (fun d => plain d = true /\ accepts (_es_index_name (this w)) d = true)
         (get_entity_map (_resource_loader (this w)) (self_type (this w))) ->
  fst (fit clean' (snd (fit clean w))) = Ok VNone /\
  es (snd (fit clean' (snd (fit clean w)))) = es (snd (fit clean w)).
Proof.
  intros Hsys Hidx Hall.
  assert (Hplain : Forall (fun d => plain d = true)
                     (get_entity_map (_resource_loader (this w)) (self_type (this w))))
    by (eapply Forall_impl; [exact Hall | now intros d [? _]]).
  assert (Hacc : Forall (fun d => accepts (_es_index_name (this w)) d = true)
                     (get_entity_map (_resource_loader (this w)) (self_type (this w))))
    by (eapply Forall_impl; [exact Hall | now intros d [_ ?]]).
  destruct (fit_plain clean w Hsys Hidx Hplain (or_intror Hacc)) as [_ Hes].
  destruct (fit_same_configuration clean w) as (Hrl & Hty & Hname & Hsys' & _).
  set (w1 := snd (fit clean w)) in *.
  assert (Hidx1 : is_Some (es w1 !! _es_index_name (this w1))).
  { rewrite Hname, Hes, lookup_insert_eq. eauto. }
  destruct (fit_plain clean' w1) as [Hres Hes1].
  - congruence.
  - exact Hidx1.
  - now rewrite Hrl, Hty.
  - right. now rewrite Hrl, Hty, Hname.
  - rewrite Hrl, Hty, Hname in Hres, Hes1.
    split; [now rewrite Hres, (forallb_accepts _ _ Hacc) |].
    rewrite Hes1, Hes, lookup_insert_eq, insert_insert_eq. cbn [default from_option].
    unfold id. f_equal. apply map_eq. intros k.
    rewrite !store_after_lookup by exact Hplain.
    now destruct (written _ _ k).
Qed.

End Stored.

(** ** Beyond the claims: edges of ingestion *)

Section Edges.
Context `{Elasticsearch}.

Lemma bind_not_ok {A B} (m : M A) (k : A -> M B) w :
  (forall a w', is_ok (fst (k a w')) = false) ->
  is_ok (fst (bind m k w)) = false.
Proof.
  intros Hk. unfold bind. destruct (m w) as [[a | e] w']; [apply Hk | reflexivity].
Qed.

Lemma streaming_loop_missing_id c index docs : forall pending count w,
  Exists (fun d => d !! "id" = None) docs ->
  is_ok (fst (streaming_loop c index docs pending count w)) = false.
Proof.
  induction docs as [| d ds IH]; intros pending count w Hex.
  - inversion Hex.
  - rewrite streaming_loop_cons.
    destruct (d !! "id") as [v |] eqn:Hd.
    + assert (Hds : Exists (fun d => d !! "id" = None) ds).
      { apply Exists_cons in Hex as [Hex | Hex]; [congruence | exact Hex]. }
      destruct (request_of d) as [x | e]; [| reflexivity].
      destruct (Nat.eqb (length pending) chunk_size).
      * apply bind_not_ok. intros n w'. now apply IH.
      * now apply IH.
    + now rewrite (request_of_without_id d Hd).
Qed.

Lemma streaming_loop_missing_id_small c index docs : forall pending count w,
  Exists (fun d => d !! "id" = None) docs ->
  Forall (fun d => hashable (default (VStr "index") (d !! "_op_type")) = true) docs ->
  length pending + length docs <= chunk_size ->
  streaming_loop c index docs pending count w = (Raise (KeyError "id"), w).
Proof.
  induction docs as [| d ds IH]; intros pending count w Hex Hop Hlen.
  - inversion Hex.
  - apply Forall_cons in Hop as [Hd Hds].
    rewrite streaming_loop_cons.
    destruct (d !! "id") as [v |] eqn:Hv.
    + assert (Hex' : Exists (fun d => d !! "id" = None) ds).
      { apply Exists_cons in Hex as [Hex | Hex]; [congruence | exact Hex]. }
      rewrite (request_of_with_id d v Hv), expand_action_eq.
      rewrite action_lookup_ne, Hd by discriminate.
      simpl in Hlen.
      destruct (Nat.eqb_spec (length pending) chunk_size) as [E | _]; [lia |].
      apply IH; [exact Hex' | exact Hds |]. rewrite length_app. simpl. lia.
    + now rewrite (request_of_without_id d Hv).
Qed.

(** One record without an [id] anywhere in the mapping and
    [ingest_synonym] does not return: it raises, whatever the backend
    holds and answers. When the index exists, the mapping fits in one
    chunk of 50 records and no record has a list for its [_op_type],
    the exception is the [KeyError] of the generator, and nothing has
    been sent to the backend and nothing logged by then, the records
    before the faulty one included. *)
Theorem ingest_synonym_missing_id (index_name : string) (mapping : list doc)
    (client : option es_client) (w : world) :
  Exists (fun d => d !! "id" = None) mapping ->
  is_ok (fst (ingest_synonym index_name mapping client w)) = false /\
  (is_Some (es w !! index_name) ->
   length mapping <= chunk_size ->
   Forall (fun d => hashable (default (VStr "index") (d !! "_op_type")) = true) mapping ->
   ingest_synonym index_name mapping client w = (Raise (KeyError "id"), w)).
Proof.
  intros Hex. split.
  - destruct (decide (is_Some (es w !! index_name))) as [Hidx | Hidx].
    + destruct (ingest_synonym_loop index_name mapping client w Hidx) as [c ->].
      pose proof (streaming_loop_missing_id c index_name mapping [] 0 w Hex) as Hr.
      now destruct (streaming_loop c index_name mapping [] 0 w) as [[n | e] w'].
    + unfold ingest_synonym.
      destruct (client_or_create_eq client w) as [c Hc].
      erewrite bind_ok by exact Hc.
      erewrite bind_ok by apply indices_exists_eq.
      rewrite bool_decide_eq_false_2 by exact Hidx. cbn [negb].
      erewrite bind_raise by apply create_index_eq. reflexivity.
  - intros Hidx Hlen Hop.
    destruct (ingest_synonym_loop index_name mapping client w Hidx) as [c ->].
    now rewrite (streaming_loop_missing_id_small c index_name mapping [] 0 w Hex Hop)
      by (simpl; lia).
Qed.

(** An empty mapping on an existing index: [ingest_synonym] sends
    nothing, leaves the backend as it is and logs the one closing
    message, with count 0 and the plural form. *)
Theorem ingest_synonym_empty_mapping (index_name : string)
    (client : option es_client) (w : world) :
  is_Some (es w !! index_name) ->
  ingest_synonym index_name [] client w =
  (Ok VNone,
   add_logs w [ {| lvl := INFO; msg := "Loaded %s document%s";
                   args := [LNat 0; LStr "s"] |} ]).
Proof.
  intros Hidx.
  destruct (ingest_synonym_loop index_name [] client w Hidx) as [c ->].
  reflexivity.
Qed.

Lemma requests_of_accepted index mapping :
  Forall (fun d => d !! "_op_type" = None /\ d !! "_source" = None) mapping ->
  Forall (fun d => accepts index d = true) mapping ->
  exists reqs,
    requests_of mapping = Ok reqs /\
    Forall (fun a => indexing a /\ es_accepts index a = true) reqs.
Proof.
  induction mapping as [| d ds IH]; intros Hshape Hacc.
  - exists []. split; [reflexivity | constructor].
  - apply Forall_cons in Hshape as [[Hop Hsrc] Hshape].
    apply Forall_cons in Hacc as [Hd Hacc].
    destruct (IH Hshape Hacc) as (l & Hl & Hall).
    unfold accepts in Hd.
    destruct (request_of d) as [x |] eqn:Hx; [| discriminate].
    exists (x :: l). split; [simpl; now rewrite Hx, Hl |].
    constructor; [| exact Hall].
    split; [exact (request_of_indexing d x Hop Hsrc Hx) | exact Hd].
Qed.

(** When every record carries an [id], names no operation and no source
    of its own, and the backend accepts the action made of each,
    [ingest_synonym] logs no failure: one loaded-document record per
    record of the mapping, then the closing message with the length of
    the mapping. *)
Theorem ingest_synonym_all_accepted (index_name : string) (mapping : list doc)
    (client : option es_client) (w : world) :
  is_Some (es w !! index_name) ->
  Forall (fun d => is_Some (d !! "id")) mapping ->
  Forall (fun d => d !! "_op_type" = None /\ d !! "_source" = None) mapping ->
  Forall (fun d => accepts index_name d = true) mapping ->
  exists loaded,
    logs (snd (ingest_synonym index_name mapping client w)) =
      logs w ++ loaded ++ [loaded_log (length mapping)] /\
    length loaded = length mapping /\
    Forall (fun r => lvl r = DEBUG /\ msg r = "Loaded document: %s") loaded.
Proof.
  intros Hidx Hids Hshape Hacc.
  destruct (requests_of_accepted index_name mapping Hshape Hacc) as (reqs & Hreq & Hall).
  rewrite (ingest_synonym_accepted index_name mapping client w reqs Hidx Hreq Hall).
  exists (map (loaded_document index_name)
              (snd (execute_actions index_name (es w) reqs))).
  rewrite (requests_of_length mapping reqs Hreq).
  split; [reflexivity |].
  split; [now rewrite length_map, execute_actions_length, (requests_of_length _ _ Hreq) |].
  apply Forall_forall. intros r Hr.
  apply list_elem_of_In, in_map_iff in Hr as (x & <- & _). now split.
Qed.

(** The branch of the loop that logs a failed document never runs:
    whatever the mapping and the backend, every record [ingest_synonym]
    logs is a loaded document or the closing message. *)
Lemma ingest_synonym_logs_no_failure (index_name : string) (mapping : list doc)
    (client : option es_client) (w : world) :
  exists l,
    logs (snd (ingest_synonym index_name mapping client w)) = logs w ++ l /\
    Forall (fun r => lvl r = DEBUG \/ lvl r = INFO) l.
Proof.
  assert (Hsend : forall c chunk count w0, exists l,
             logs (snd (send_chunk c index_name chunk count w0)) = logs w0 ++ l /\
             Forall (fun r => lvl r = DEBUG \/ lvl r = INFO) l).
  { intros c chunk count w0. unfold send_chunk.
    destruct (bulk_cases c index_name chunk w0) as [E | E].
    - erewrite bind_raise by exact E. exists []. split; [now rewrite app_nil_r | constructor].
    - erewrite bind_ok by exact E. rewrite process_bulk_chunk_eq. simpl.
      eexists. split; [reflexivity |].
      apply Forall_forall. intros r Hr.
      apply list_elem_of_In, in_map_iff in Hr as (x & <- & _). now left. }
  assert (Hloop : forall c docs pending count w0, exists l,
             logs (snd (streaming_loop c index_name docs pending count w0)) = logs w0 ++ l /\
             Forall (fun r => lvl r = DEBUG \/ lvl r = INFO) l).
  { intros c docs. induction docs as [| d ds IH]; intros pending count w0.
    - cbn [streaming_loop]. destruct pending; [| apply Hsend].
      exists []. split; [simpl; now rewrite app_nil_r | constructor].
    - rewrite streaming_loop_cons.
      destruct (request_of d) as [x | e].
      2: { exists []. split; [simpl; now rewrite app_nil_r | constructor]. }
      destruct (Nat.eqb (length pending) chunk_size); [| apply IH].
      destruct (Hsend c pending count w0) as (l1 & Hl1 & Hf1).
      unfold bind.
      destruct (send_chunk c index_name pending count w0) as [[n | e] w1];
        simpl in Hl1; [| eauto].
      destruct (IH [x] n w1) as (l2 & Hl2 & Hf2).
      exists (l1 ++ l2). split; [now rewrite Hl2, Hl1, app_assoc |].
      apply Forall_app. now split. }
  destruct (decide (is_Some (es w !! index_name))) as [Hidx | Hidx].
  - destruct (ingest_synonym_loop index_name mapping client w Hidx) as [c ->].
    destruct (Hloop c mapping [] 0 w) as (l & Hl & Hf).
    destruct (streaming_loop c index_name mapping [] 0 w) as [[n | e] w1];
      simpl in Hl; [| eauto].
    exists (l ++ [loaded_log n]). simpl. split; [now rewrite Hl, app_assoc |].
    apply Forall_app. split; [exact Hf |]. constructor; [now right | constructor].
  - unfold ingest_synonym.
    destruct (client_or_create_eq client w) as [c Hc].
    erewrite bind_ok by exact Hc.
    erewrite bind_ok by apply indices_exists_eq.
    rewrite bool_decide_eq_false_2 by exact Hidx. cbn [negb].
    erewrite bind_raise by apply create_index_eq.
    exists []. split; [simpl; now rewrite app_nil_r | constructor].
Qed.

End Edges.

(** ** Beyond the claims: the two paths of [predict] *)

Section Paths.
Context `{Elasticsearch}.

Lemma collect_values_eq self m cnames : forall values,
  _mapping self = Some m ->
  Forall (fun c => is_Some (items m !! c)) cnames ->
  collect_values self cnames values =
  Ok (values ++ flat_map (fun c => map item_value (default [] (items m !! c))) cnames).
Proof.
  intros values Hm Hall. revert values.
  induction Hall as [| c cs [its Hc] _ IH]; intros values; simpl.
  - now rewrite app_nil_r.
  - unfold mapping_items. rewrite Hm, Hc. rewrite IH. simpl. now rewrite app_assoc.
Qed.

Lemma collect_values_dangling self m pre c post : forall values,
  _mapping self = Some m ->
  Forall (fun c => is_Some (items m !! c)) pre ->
  items m !! c = None ->
  collect_values self (pre ++ c :: post) values = Raise (KeyError c).
Proof.
  intros values Hm Hpre Hc. revert values.
  induction Hpre as [| p ps [its Hp] _ IH]; intros values; simpl.
  - unfold mapping_items. now rewrite Hm, Hc.
  - unfold mapping_items at 1. rewrite Hm, Hp. apply IH.
Qed.

Lemma collect_values_invariant (P : doc -> Prop) self cnames : forall values vs,
  (forall item, P (item_value item)) ->
  Forall P values ->
  collect_values self cnames values = Ok vs ->
  Forall P vs.
Proof.
  induction cnames as [| c cs IH]; intros values vs HP Hvalues; simpl.
  - now intros [= <-].
  - destruct (mapping_items self c) as [its |]; [| discriminate].
    apply IH; [exact HP |].
    apply Forall_app. split; [exact Hvalues |].
    apply Forall_forall. intros x Hx.
    apply list_elem_of_In, in_map_iff in Hx as (item & <- & _). apply HP.
Qed.

(** The exact path never goes to the backend: whatever the resolver and
    the mention, it leaves the resolver, the environment and the indices
    as they are and sends the logger at most one record. *)
Theorem predict_exact_only_logs (entity : Entity) (w : world) :
  exists records,
    snd (predict entity true w) = add_logs w records /\ length records <= 1.
Proof.
  unfold predict. erewrite bind_ok by reflexivity.
  destruct (_is_system_entity (this w)).
  { exists []. rewrite add_logs_nil. split; [reflexivity | simpl; lia]. }
  unfold bind, except_KeyError, lift, mapping_synonyms.
  destruct (_mapping (this w)) as [m |]; simpl.
  2: { exists []. rewrite add_logs_nil. split; [reflexivity | simpl; lia]. }
  destruct (synonyms m !! _normalizer (this w) (text entity)) as [cnames |]; simpl.
  2: { eexists [_]. split; [reflexivity | simpl; lia]. }
  destruct (Nat.ltb 1 (length cnames)); simpl;
    destruct (collect_values (this w) cnames []); simpl;
    first [ (eexists [_]; split; [reflexivity | simpl; lia])
          | (exists []; rewrite add_logs_nil; split; [reflexivity | simpl; lia]) ].
Qed.

(** On a resolver that holds tables, a mention whose normalized text is
    a synonym resolves to the items of its canonical names, flattened:
    the names in the order of the synonym entry, the items of a name in
    the order of the item table, each without its [whitelist]. *)
Theorem predict_exact_flattens_in_order (entity : Entity) (w : world)
    (m : mapping_tables) (cnames : list string) :
  _is_system_entity (this w) = false ->
  _mapping (this w) = Some m ->
  synonyms m !! _normalizer (this w) (text entity) = Some cnames ->
  Forall (fun c => is_Some (items m !! c)) cnames ->
  fst (predict entity true w) =
  Ok (Values (flat_map (fun c => map item_value (default [] (items m !! c))) cnames)).
Proof.
  intros Hsys Hm Hsyn Hall.
  rewrite (predict_exact_loaded_hit entity w m cnames _ Hsys Hm Hsyn
             (collect_values_eq (this w) m cnames [] Hm Hall)).
  reflexivity.
Qed.

(** A synonym entry that names a canonical name absent from the item
    table makes the exact path raise [KeyError] on the first such name:
    that lookup is outside the handler of the miss. *)
Theorem predict_exact_dangling_cname (entity : Entity) (w : world)
    (m : mapping_tables) (pre post : list string) (c : string) :
  _is_system_entity (this w) = false ->
  _mapping (this w) = Some m ->
  synonyms m !! _normalizer (this w) (text entity) = Some (pre ++ c :: post) ->
  Forall (fun c' => is_Some (items m !! c')) pre ->
  items m !! c = None ->
  fst (predict entity true w) = Raise (KeyError c).
Proof.
  intros Hsys Hm Hsyn Hpre Hc. unfold predict.
  erewrite bind_ok by reflexivity. rewrite Hsys.
  unfold bind, except_KeyError, lift, mapping_synonyms. rewrite Hm, Hsyn. simpl.
  rewrite (collect_values_dangling (this w) m pre c post [] Hm Hpre Hc).
  now destruct (Nat.ltb _ _).
Qed.

(** No item the exact path returns carries a [whitelist]. *)
Theorem predict_exact_returns_no_whitelist (entity : Entity) (w : world)
    (values : list doc) :
  fst (predict entity true w) = Ok (Values values) ->
  Forall (fun v => v !! "whitelist" = None) values.
Proof.
  unfold predict. erewrite bind_ok by reflexivity.
  destruct (_is_system_entity (this w)); [discriminate |].
  unfold bind, except_KeyError, lift, mapping_synonyms.
  destruct (_mapping (this w)) as [m |]; simpl; [| discriminate].
  destruct (synonyms m !! _normalizer (this w) (text entity)) as [cnames |];
    simpl; [| discriminate].
  destruct (collect_values (this w) cnames []) as [vs |] eqn:E.
  2: { destruct (Nat.ltb _ _); discriminate. }
  intros Hvs.
  assert (vs = values) as <- by (destruct (Nat.ltb _ _); simpl in Hvs; congruence).
  eapply (collect_values_invariant (fun v => v !! "whitelist" = None));
    [| constructor | exact E].
  intros item. unfold item_value. apply lookup_delete_eq.
Qed.

(** The fuzzy path only reads: it writes to no index and logs nothing,
    whether the search returns or raises, and it leaves the tables and
    the configuration of the resolver alone. *)
Theorem predict_fuzzy_only_reads (entity : Entity) (w : world) :
  es (snd (predict entity false w)) = es w /\
  logs (snd (predict entity false w)) = logs w /\
  _mapping (this (snd (predict entity false w))) = _mapping (this w) /\
  same_configuration w (snd (predict entity false w)).
Proof.
  unfold predict. erewrite bind_ok by reflexivity.
  destruct (_is_system_entity (this w)).
  { simpl. repeat split. }
  destruct (es_client_frame w) as (Hconf & Hes & Hlogs).
  destruct (tame_es_client w) as (Hmap & _).
  destruct (_es_client w) as [[c | e] w1] eqn:Hc; simpl in *.
  - erewrite bind_ok by exact Hc.
    destruct (es w1 !! _es_index_name (this w)) as [docs |] eqn:Hidx.
    + erewrite bind_ok by (apply search_eq; exact Hidx). simpl. auto.
    + erewrite bind_raise by (apply search_missing; exact Hidx). simpl. auto.
  - erewrite bind_raise by exact Hc. simpl. auto.
Qed.

(** On a backend that lacks the index, the fuzzy path raises the error
    of the search to the caller; it returns no empty result. *)
Theorem predict_fuzzy_missing_index (entity : Entity) (w : world) :
  _is_system_entity (this w) = false ->
  es w !! _es_index_name (this w) = None ->
  fst (predict entity false w) = Raise (NotFoundError (_es_index_name (this w))).
Proof.
  intros Hsys Hidx. unfold predict.
  erewrite bind_ok by reflexivity. rewrite Hsys.
  destruct (es_client_eq w) as (c & w1 & Hc & Hes & _).
  erewrite bind_ok by exact Hc.
  erewrite bind_raise by (apply search_missing; rewrite Hes; exact Hidx).
  reflexivity.
Qed.

End Paths.

(** ** Beyond the claims: the sort *)

Lemma filter_insert_reverse (q : Q) (x : candidate) (l : list candidate) :
  List.filter (fun y => Qeq_bool (max_score y) q) (insert_reverse x l) =
  if Qeq_bool (max_score x) q
  then x :: List.filter (fun y => Qeq_bool (max_score y) q) l
  else List.filter (fun y => Qeq_bool (max_score y) q) l.
Proof.
  induction l as [| y l IH]; simpl.
  - now destruct (Qeq_bool (max_score x) q).
  - destruct (Qle_bool (max_score y) (max_score x)) eqn:Hle; simpl.
    + now destruct (Qeq_bool (max_score x) q).
    + rewrite IH.
      destruct (Qeq_bool (max_score x) q) eqn:Hx; [| reflexivity].
      destruct (Qeq_bool (max_score y) q) eqn:Hy; [| reflexivity].
      exfalso. apply Qeq_bool_iff in Hx, Hy.
      assert (Hyx : (max_score y <= max_score x)%Q) by (rewrite Hx, Hy; apply Qle_refl).
      apply Qle_bool_iff in Hyx. congruence.
Qed.

(** The sort of the fuzzy result is stable: the entries of any one score
    come out in the order in which the response listed them. *)
Theorem sort_reverse_keeps_ties_in_order (q : Q) (l : list candidate) :
  List.filter (fun x => Qeq_bool (max_score x) q) (sort_reverse l) =
  List.filter (fun x => Qeq_bool (max_score x) q) l.
Proof.
  induction l as [| x l IH]; simpl; [reflexivity |].
  rewrite filter_insert_reverse, IH. reflexivity.
Qed.

(** ** Beyond the claims: the parameters of a request *)

Module AppManagerFacts.
Import AppManager.

Section Validation.
Context `{Collaborators}.

Lemma bind_return {T U} (m : A T) (k : T -> A U) s a s' :
  m s = (Return a, s') -> bind m k s = k a s'.
Proof. intros E. unfold bind. now rewrite E. Qed.

Lemma bind_raised {T U} (m : A T) (k : T -> A U) s e s' :
  m s = (Raised e, s') -> bind m k s = (Raised e, s').
Proof. intros E. unfold bind. now rewrite E. Qed.

Lemma add_records_nil s : add_records s [] = s.
Proof. destruct s. unfold add_records. simpl. now rewrite app_nil_r. Qed.

Lemma add_records_app s l1 l2 :
  add_records (add_records s l1) l2 = add_records s (l1 ++ l2).
Proof. unfold add_records. simpl. now rewrite app_assoc. Qed.

Lemma validate_generic_eq name t p s :
  _validate_generic name t p s =
  if isinstance p t then (Return p, s)
  else (Return PNone,
        add_records s [ {| rlvl := WARNING;
                           rmsg := "Invalid %r param: %s is not of type %s.";
                           rargs := [AStr name; AVal p; AType t] |} ]).
Proof. unfold _validate_generic. now destruct (isinstance p t). Qed.

Lemma validate_time_zone_eq p s :
  truthy p = true ->
  exists r, rlvl r = WARNING /\
    _validate_time_zone p s =
    if passes "time_zone" p then (Return p, s)
    else (Return PNone, add_records s [r]).
Proof.
  intros Hp. unfold _validate_time_zone. rewrite Hp. unfold passes. simpl.
  destruct p as [| b | z | q | zone | l | d]; simpl;
    try (eexists {| rlvl := WARNING; rmsg := _; rargs := _ |};
         split; reflexivity).
  exists {| rlvl := WARNING;
            rmsg := "Invalid %r param: %s is not a valid time zone.";
            rargs := [AStr "time_zone"; AVal (PStr zone)] |}.
  split; [reflexivity |]. now destruct (time_zone_known zone).
Qed.

(** The four ways [_validate_param] can go on a dictionary. *)
Lemma validate_param_cases d name mode s :
  (truthy (default PNone (d !! name)) = false /\
   _validate_param (PDict d) name mode s = (Return (default PNone (d !! name)), s)) \/
  (truthy (default PNone (d !! name)) = true /\ registered name = false /\
   _validate_param (PDict d) name mode s =
     (Raised (TypeError "'NoneType' object is not callable"), s)) \/
  (truthy (default PNone (d !! name)) = true /\ registered name = true /\
   passes name (default PNone (d !! name)) = true /\
   _validate_param (PDict d) name mode s = (Return (default PNone (d !! name)), s)) \/
  (truthy (default PNone (d !! name)) = true /\ registered name = true /\
   passes name (default PNone (d !! name)) = false /\
   exists r, rlvl r = WARNING /\
     _validate_param (PDict d) name mode s = (Return PNone, add_records s [r])).
Proof.
  unfold _validate_param. erewrite bind_return by reflexivity.
  set (p := default PNone (d !! name)).
  destruct (truthy p) eqn:Hp; [| left; auto].
  right.
  destruct (String.eqb_spec "allowed_intents" name) as [<- | N1].
  { right.
    change (validator_of "allowed_intents" PARAM_VALIDATORS)
      with (Some (_validate_generic "allowed_intents" TList)).
    cbv beta iota. rewrite validate_generic_eq.
    change (passes "allowed_intents" p) with (isinstance p TList).
    destruct (isinstance p TList); [left | right]; repeat split; eauto;
      eexists; (split; [| reflexivity]); reflexivity. }
  destruct (String.eqb_spec "kws" name) as [<- | N2].
  { right.
    change (validator_of "kws" PARAM_VALIDATORS)
      with (Some (_validate_generic "kws" TStr)).
    cbv beta iota. rewrite validate_generic_eq.
    change (passes "kws" p) with (isinstance p TStr).
    destruct (isinstance p TStr); [left | right]; repeat split; eauto;
      eexists; (split; [| reflexivity]); reflexivity. }
  destruct (String.eqb_spec "target_dialogue_state" name) as [<- | N3].
  { right.
    change (validator_of "target_dialogue_state" PARAM_VALIDATORS)
      with (Some (_validate_generic "target_dialogue_state" TStr)).
    cbv beta iota. rewrite validate_generic_eq.
    change (passes "target_dialogue_state" p) with (isinstance p TStr).
    destruct (isinstance p TStr); [left | right]; repeat split; eauto;
      eexists; (split; [| reflexivity]); reflexivity. }
  destruct (String.eqb_spec "time_zone" name) as [<- | N4].
  { right.
    change (validator_of "time_zone" PARAM_VALIDATORS) with (Some _validate_time_zone).
    cbv beta iota. destruct (validate_time_zone_eq p s Hp) as (r & Hr & ->).
    destruct (passes "time_zone" p); [left | right]; repeat split; eauto. }
  destruct (String.eqb_spec "timestamp" name) as [<- | N5].
  { right.
    change (validator_of "timestamp" PARAM_VALIDATORS)
      with (Some (_validate_generic "timestamp" TInt)).
    cbv beta iota. rewrite validate_generic_eq.
    change (passes "timestamp" p) with (isinstance p TInt).
    destruct (isinstance p TInt); [left | right]; repeat split; eauto;
      eexists; (split; [| reflexivity]); reflexivity. }
  left. repeat split.
  - unfold registered. apply bool_decide_eq_false_2. intros Hin.
    repeat (apply elem_of_cons in Hin as [-> | Hin]; [congruence |]).
    inversion Hin.
  - cbn [validator_of PARAM_VALIDATORS].
    rewrite (proj2 (String.eqb_neq _ _) N1), (proj2 (String.eqb_neq _ _) N2),
      (proj2 (String.eqb_neq _ _) N3), (proj2 (String.eqb_neq _ _) N4),
      (proj2 (String.eqb_neq _ _) N5).
    reflexivity.
Qed.

Lemma validate_param_skips_falsy_lemma d name mode s :
  truthy (default PNone (d !! name)) = false ->
  _validate_param (PDict d) name mode s = (Return (default PNone (d !! name)), s).
Proof.
  intros Hp.
  destruct (validate_param_cases d name mode s)
    as [(_ & E) | [(Hp' & _) | [(Hp' & _) | (Hp' & _)]]]; congruence.
Qed.

Lemma validate_param_sound_lemma params name mode s v :
  fst (_validate_param params name mode s) = Return v ->
  truthy v = true ->
  passes name v = true /\
  exists d, params = PDict d /\ d !! name = Some v.
Proof.
  intros Hret Hv.
  destruct params as [| b | z | q | str | l | d]; try discriminate Hret.
  destruct (validate_param_cases d name mode s)
    as [(Hp & E) | [(Hp & Hr & E) | [(Hp & Hr & Hpass & E) | (Hp & Hr & Hpass & r & _ & E)]]];
    rewrite E in Hret; simpl in Hret.
  - injection Hret as <-. congruence.
  - discriminate.
  - injection Hret as <-. split; [exact Hpass |]. exists d. split; [reflexivity |].
    destruct (d !! name) as [x |]; [reflexivity | discriminate Hp].
  - injection Hret as <-. discriminate Hv.
Qed.

(** A value [_validate_param] lets through is the one the request gave
    under that name, and when it is truthy it has passed the check
    registered for the name: a list for [allowed_intents], a string for
    [kws] and [target_dialogue_state], an integer for [timestamp], the
    name of a known zone for [time_zone]. *)
Theorem validate_param_sound (params : pyval) (name mode : string)
    (s : state) (v : pyval) :
  fst (_validate_param params name mode s) = Return v ->
  truthy v = true ->
  passes name v = true /\
  exists d, params = PDict d /\ d !! name = Some v.
Proof. apply validate_param_sound_lemma. Qed.

(** A truthy value that fails the check registered for its name is
    replaced by [None], with one warning; the request goes on. *)
Theorem validate_param_drops_invalid (d : gmap string pyval) (name mode : string)
    (s : state) (p : pyval) :
  d !! name = Some p ->
  truthy p = true ->
  registered name = true ->
  passes name p = false ->
  exists r,
    rlvl r = WARNING /\
    _validate_param (PDict d) name mode s = (Return PNone, add_records s [r]).
Proof.
  intros Hd Hp Hreg Hpass.
  destruct (validate_param_cases d name mode s)
    as [(Hp' & E) | [(Hp' & Hr & E) | [(Hp' & Hr & Hpass' & E) | (Hp' & Hr & Hpass' & r & Hw & E)]]];
    rewrite Hd in *; simpl in *; try congruence.
  exists r. auto.
Qed.

(** A falsy value is never checked: an empty string, a zero, an empty
    list or dictionary, [False] or [None] under any name, registered or
    not and of the expected type or not, comes back as it is, without a
    warning. A name the request does not carry gives [None]. *)
Theorem validate_param_skips_falsy (d : gmap string pyval) (name mode : string)
    (s : state) :
  truthy (default PNone (d !! name)) = false ->
  _validate_param (PDict d) name mode s = (Return (default PNone (d !! name)), s).
Proof. apply validate_param_skips_falsy_lemma. Qed.

(** A truthy value under a name that has no validator raises
    [TypeError]; parameters that are not a dictionary raise
    [AttributeError]. Neither logs. *)
Theorem validate_param_errors (params : pyval) (name mode : string) (s : state) :
  (forall d p, params = PDict d -> d !! name = Some p -> truthy p = true ->
               registered name = false ->
     _validate_param params name mode s =
       (Raised (TypeError "'NoneType' object is not callable"), s)) /\
  ((forall d, params <> PDict d) ->
     _validate_param params name mode s =
       (Raised (AttributeError (type_name params) "get"), s)).
Proof.
  split.
  - intros d p -> Hd Hp Hreg.
    destruct (validate_param_cases d name mode s)
      as [(Hp' & E) | [(Hp' & Hr & E) | [(Hp' & Hr & _) | (Hp' & Hr & _)]]];
      rewrite Hd in *; simpl in *; congruence.
  - intros Hnot. destruct params; try reflexivity. now elim (Hnot d).
Qed.

(** Validation is idempotent: putting the validated value back under
    its name and validating again gives that value, without a
    warning. *)
Theorem validate_param_idempotent (d : gmap string pyval) (name mode mode' : string)
    (s s' : state) (v : pyval) :
  fst (_validate_param (PDict d) name mode s) = Return v ->
  _validate_param (PDict (<[ name := v ]> d)) name mode' s' = (Return v, s').
Proof.
  intros Hret.
  assert (Hlook : default PNone (<[ name := v ]> d !! name) = v)
    by now rewrite lookup_insert_eq.
  destruct (truthy v) eqn:Hv.
  - destruct (validate_param_sound_lemma (PDict d) name mode s v Hret Hv) as [Hpass _].
    destruct (validate_param_cases (<[ name := v ]> d) name mode' s')
      as [(Hp & E) | [(Hp & Hr & E) | [(Hp & Hr & Hp' & E) | (Hp & Hr & Hp' & _)]]];
      rewrite Hlook in *; try congruence.
    exfalso. revert Hpass Hr. unfold passes, registered.
    destruct (String.eqb_spec name "allowed_intents") as [-> | ?]; [discriminate |].
    destruct (String.eqb_spec name "kws") as [-> | ?]; [discriminate |].
    destruct (String.eqb_spec name "target_dialogue_state") as [-> | ?]; [discriminate |].
    destruct (String.eqb_spec name "time_zone") as [-> | ?]; [discriminate |].
    destruct (String.eqb_spec name "timestamp") as [-> | ?]; [discriminate |].
    discriminate.
  - rewrite <- Hlook at 2. apply validate_param_skips_falsy_lemma. now rewrite Hlook.
Qed.

End Validation.

End AppManagerFacts.

(** ** Beyond the claims: a request through [parse] *)

Module ParseFacts.
Import AppManager AppManagerFacts.

Section Parse.
Context `{Collaborators}.

Lemma checked_since_refl s : checked_since s s.
Proof. exists []. split; [now rewrite app_nil_r | constructor]. Qed.

Lemma checked_since_same s s1 s2 :
  checked_since s s1 -> calls s2 = calls s1 -> checked_since s s2.
Proof. intros (cs & E & Hcs) E2. exists cs. split; [congruence | exact Hcs]. Qed.

Lemma checked_since_called s s1 c :
  checked_since s s1 -> checked c -> checked_since s (snd (called c s1)).
Proof.
  intros (cs & E & Hcs) Hc. exists (cs ++ [c]). simpl. split.
  - rewrite E. now rewrite app_assoc.
  - apply Forall_app. split; [exact Hcs | now constructor].
Qed.

Lemma validate_param_calls params name mode s :
  calls (snd (_validate_param params name mode s)) = calls s.
Proof.
  destruct params as [| b | z | q | str | l | d]; try reflexivity.
  destruct (validate_param_cases d name mode s)
    as [(_ & E) | [(_ & _ & E) | [(_ & _ & _ & E) | (_ & _ & _ & r & _ & E)]]];
    now rewrite E.
Qed.

Lemma validated_string params name mode s v :
  fst (_validate_param params name mode s) = Return v ->
  truthy v = true ->
  passes name v = isinstance v TStr ->
  exists str, v = PStr str.
Proof.
  intros Hret Hv Hname.
  destruct (validate_param_sound_lemma params name mode s v Hret Hv) as [Hpass _].
  rewrite Hname in Hpass. destruct v; try discriminate Hpass. eauto.
Qed.

Lemma try_extract_calls allowed_intents s o s' :
  try_extract allowed_intents s = (o, s') ->
  calls s' = calls s ++ [ExtractAllowedIntents allowed_intents].
Proof.
  unfold try_extract, bind, called. simpl.
  destruct (extract_allowed_intents allowed_intents) as [h | []]; simpl;
    intros [= <- <-]; reflexivity.
Qed.

(** What [parse_tail] calls and what it returns. *)
Lemma parse_tail_spec text params context ai tz ts bypass tds s0 s o s' :
  checked_since s0 s ->
  (truthy ai = true -> isinstance ai TList = true) ->
  (truthy tz = true -> passes "time_zone" tz = true) ->
  (truthy ts = true -> isinstance ts TInt = true) ->
  (bypass = PBool true \/ bypass = PNone) ->
  (truthy tds = true -> exists name, tds = PStr name /\ name ∈ handler_map) ->
  parse_tail text params context ai tz ts bypass tds s = (o, s') ->
  checked_since s0 s' /\
  forall response,
    o = Return response ->
    exists h q ctx old,
      process text h tz ts bypass = Return q /\
      apply_handler (delete "text" (q ∪ context)) tds = Return ctx /\
      (ctx ∪ delete "text" (q ∪ context)) !! "history" = Some (PList old) /\
      response =
        <[ "history" :=
             PList (firstn MAX_HISTORY_LEN
                      (PDict (delete "history" (ctx ∪ delete "text" (q ∪ context)))
                       :: old)) ]>
          (delete "history" (ctx ∪ delete "text" (q ∪ context))).
Proof.
  intros Hs Hai Htz Hts Hby Htds E. unfold parse_tail in E.
  (* the hierarchy *)
  assert (Hh : exists o1 s1,
            (if truthy ai then try_extract ai else ret PNone) s = (o1, s1) /\
            checked_since s0 s1).
  { destruct (truthy ai) eqn:Ht.
    - destruct (try_extract ai s) as [o1 s1] eqn:E1. exists o1, s1.
      split; [reflexivity |].
      destruct Hs as (cs & Ecs & Hcs).
      exists (cs ++ [ExtractAllowedIntents ai]). split.
      + rewrite (try_extract_calls _ _ _ _ E1), Ecs. now rewrite app_assoc.
      + apply Forall_app. split; [exact Hcs |]. constructor; [| constructor].
        simpl. auto.
    - exists (Return PNone), s. split; [reflexivity | exact Hs]. }
  destruct Hh as (o1 & s1 & E1 & Hs1).
  destruct o1 as [h | e].
  2: { rewrite (bind_raised _ _ _ _ _ E1) in E. injection E as <- <-.
       split; [exact Hs1 | discriminate]. }
  rewrite (bind_return _ _ _ _ _ E1) in E.
  (* the call of the processor *)
  set (s2 := snd (called (Process text h tz ts bypass) s1)) in *.
  assert (Hs2 : checked_since s0 s2).
  { apply checked_since_called; [exact Hs1 |]. simpl. auto. }
  rewrite (bind_return (called (Process text h tz ts bypass)) _ s1 tt s2 eq_refl) in E.
  destruct (process text h tz ts bypass) as [q | e] eqn:Eq.
  2: { rewrite (bind_raised (lift (Raised e)) _ s2 e s2 eq_refl) in E.
       injection E as <- <-. split; [exact Hs2 | discriminate]. }
  rewrite (bind_return (lift (Return q)) _ s2 q s2 eq_refl) in E. cbv zeta in E.
  (* the text is popped *)
  unfold pop at 1 in E.
  destruct ((q ∪ context) !! "text") as [t |] eqn:Et.
  2: { rewrite (bind_raised (throw (KeyError "text")) _ s2 (KeyError "text") s2 eq_refl)
         in E.
       injection E as <- <-. split; [exact Hs2 | discriminate]. }
  rewrite (bind_return (ret (t, delete "text" (q ∪ context))) _ s2
             (t, delete "text" (q ∪ context)) s2 eq_refl) in E.
  cbn [snd fst] in E.
  (* the handler *)
  set (s3 := snd (called (ApplyHandler (delete "text" (q ∪ context)) tds) s2)) in *.
  assert (Hs3 : checked_since s0 s3).
  { apply checked_since_called; [exact Hs2 |]. simpl. exact Htds. }
  rewrite (bind_return (called _) _ s2 tt s3 eq_refl) in E.
  destruct (apply_handler (delete "text" (q ∪ context)) tds) as [ctx | e] eqn:Eh.
  2: { rewrite (bind_raised (lift (Raised e)) _ s3 e s3 eq_refl) in E.
       injection E as <- <-. split; [exact Hs3 | discriminate]. }
  rewrite (bind_return (lift (Return ctx)) _ s3 ctx s3 eq_refl) in E. cbv zeta in E.
  (* the history is popped *)
  unfold pop at 1 in E.
  destruct ((ctx ∪ delete "text" (q ∪ context)) !! "history") as [old |] eqn:Ehist.
  2: { rewrite (bind_raised (throw (KeyError "history")) _ s3 (KeyError "history") s3
                  eq_refl) in E.
       injection E as <- <-. split; [exact Hs3 | discriminate]. }
  rewrite (bind_return (ret (old, delete "history" (ctx ∪ delete "text" (q ∪ context)))) _
             s3 (old, delete "history" (ctx ∪ delete "text" (q ∪ context))) s3 eq_refl)
    in E.
  cbn [snd fst] in E.
  destruct old as [| | | | | old |];
    try (injection E as <- <-; split; [exact Hs3 | discriminate]).
  (* the outgoing validation *)
  pose proof (validate_param_calls params "allowed_intents" "outgoing" s3) as Hc4.
  destruct (_validate_param params "allowed_intents" "outgoing" s3) as [[v4 | e4] s4] eqn:E4.
  2: { rewrite (bind_raised _ _ _ _ _ E4) in E. injection E as <- <-.
       split; [| discriminate].
       eapply checked_since_same; [exact Hs3 | exact Hc4]. }
  rewrite (bind_return _ _ _ _ _ E4) in E.
  pose proof (validate_param_calls params "target_dialogue_state" "outgoing" s4) as Hc5.
  destruct (_validate_param params "target_dialogue_state" "outgoing" s4)
    as [[v5 | e5] s5] eqn:E5.
  2: { rewrite (bind_raised _ _ _ _ _ E5) in E. injection E as <- <-.
       split; [| discriminate].
       eapply checked_since_same; [exact Hs3 | simpl in *; congruence]. }
  rewrite (bind_return _ _ _ _ _ E5) in E. injection E as <- <-.
  split.
  - eapply checked_since_same; [exact Hs3 | simpl in *; congruence].
  - intros response [= <-]. exists h, q, ctx, old. auto.
Qed.

Lemma validate_param_step params name mode s0 s :
  checked_since s0 s ->
  exists o s1,
    _validate_param params name mode s = (o, s1) /\
    checked_since s0 s1 /\
    forall v, o = Return v -> truthy v = true -> passes name v = true.
Proof.
  intros Hs.
  destruct (_validate_param params name mode s) as [o s1] eqn:E.
  exists o, s1. split; [reflexivity |]. split.
  - eapply checked_since_same; [exact Hs |].
    pose proof (validate_param_calls params name mode s) as Hc. now rewrite E in Hc.
  - intros v -> Hv.
    apply (validate_param_sound_lemma params name mode s v); [now rewrite E | exact Hv].
Qed.

(** [parse], from the request to the response. *)
Lemma parse_spec text params session frame history verbose s o s' :
  parse text params session frame history verbose s = (o, s') ->
  checked_since s s' /\
  forall response,
    o = Return response ->
    exists old,
      response !! "history" =
        Some (PList (firstn MAX_HISTORY_LEN
                       (PDict (delete "history" response) :: old))) /\
      ((forall t h tz ts b q, process t h tz ts b = Return q -> q !! "history" = None) ->
       (forall c t r, apply_handler c t = Return r -> r !! "history" = None) ->
       PList old = py_or history (PList [])).
Proof.
  intros E. unfold parse in E. cbv zeta in E.
  destruct (validate_param_step (py_or params (PDict ∅)) "allowed_intents" "incoming"
              s s (checked_since_refl s)) as (o1 & s1 & E1 & Hs1 & Hai).
  destruct o1 as [ai | e].
  2: { rewrite (bind_raised _ _ _ _ _ E1) in E. injection E as <- <-.
       split; [exact Hs1 | discriminate]. }
  rewrite (bind_return _ _ _ _ _ E1) in E.
  destruct (validate_param_step (py_or params (PDict ∅)) "kws" "incoming" s s1 Hs1)
    as (o2 & s2 & E2 & Hs2 & Hkws).
  destruct o2 as [kws | e].
  2: { rewrite (bind_raised _ _ _ _ _ E2) in E. injection E as <- <-.
       split; [exact Hs2 | discriminate]. }
  rewrite (bind_return _ _ _ _ _ E2) in E.
  destruct (validate_param_step (py_or params (PDict ∅)) "target_dialogue_state"
              "incoming" s s2 Hs2) as (o3 & s3 & E3 & Hs3 & Htds).
  destruct o3 as [tds | e].
  2: { rewrite (bind_raised _ _ _ _ _ E3) in E. injection E as <- <-.
       split; [exact Hs3 | discriminate]. }
  rewrite (bind_return _ _ _ _ _ E3) in E.
  destruct (validate_param_step (py_or params (PDict ∅)) "time_zone" "incoming" s s3 Hs3)
    as (o4 & s4 & E4 & Hs4 & Htz).
  destruct o4 as [tz | e].
  2: { rewrite (bind_raised _ _ _ _ _ E4) in E. injection E as <- <-.
       split; [exact Hs4 | discriminate]. }
  rewrite (bind_return _ _ _ _ _ E4) in E.
  destruct (validate_param_step (py_or params (PDict ∅)) "timestamp" "incoming" s s4 Hs4)
    as (o5 & s5 & E5 & Hs5 & Hts).
  destruct o5 as [ts | e].
  2: { rewrite (bind_raised _ _ _ _ _ E5) in E. injection E as <- <-.
       split; [exact Hs5 | discriminate]. }
  rewrite (bind_return _ _ _ _ _ E5) in E.
  (* the target dialogue state is settled *)
  assert (Hsettle : exists tds' s6,
            (if truthy tds then
               known <~ lift (in_keys tds handler_map);
               if negb known then
                 log ERROR "Target dialogue state {} does not match any dialogue state names in for the application. Not applying the target dialogue state this turn."
                     [AVal tds];>
                 ret PNone
               else ret tds
             else ret tds) s5 = (Return tds', s6) /\
            calls s6 = calls s5 /\
            (truthy tds' = true -> exists name, tds' = PStr name /\ name ∈ handler_map)).
  { destruct (truthy tds) eqn:Ht.
    - specialize (Htds tds eq_refl Ht).
      destruct tds as [| | | | name | |]; try discriminate Htds.
      erewrite bind_return by reflexivity.
      destruct (decide (name ∈ handler_map)) as [Hin | Hout].
      + rewrite bool_decide_eq_true_2 by exact Hin. simpl.
        exists (PStr name), s5. repeat split. eauto.
      + rewrite bool_decide_eq_false_2 by exact Hout. simpl.
        eexists PNone, _. split; [reflexivity |]. split; [reflexivity | discriminate].
    - exists tds, s5. repeat split. intros Ht'. rewrite Ht in Ht'. discriminate. }
  destruct Hsettle as (tds' & s6 & E6 & Hc6 & Htds').
  rewrite (bind_return _ _ _ _ _ E6) in E.
  apply (parse_tail_spec text (py_or params (PDict ∅))
           {[ "request" := PDict {[ "text" := PStr text;
                                    "params" := py_or params (PDict ∅);
                                    "session" := py_or session (PDict ∅) ]};
              "history" := py_or history (PList []);
              "params" := PDict ∅;
              "frame" := py_or frame (PDict ∅);
              "entities" := PList [] ]}
           ai tz ts
           (match kws with
            | PStr k => if String.eqb k "true" then PBool true else PNone
            | _ => PNone
            end)
           tds' s s6 o s') in E.
  - destruct E as [Hcalls Hresp]. split; [exact Hcalls |].
    intros response Ho.
    destruct (Hresp response Ho) as (h & q & ctx & old & Hq & Hctx & Hhist & ->).
    exists old. split.
    + rewrite lookup_insert_eq. do 4 f_equal.
      rewrite delete_insert_eq. now rewrite delete_delete_eq.
    + intros Hprocess Hhandler.
      rewrite lookup_union_r in Hhist by (eapply Hhandler; exact Hctx).
      rewrite lookup_delete_ne in Hhist by discriminate.
      rewrite lookup_union_r in Hhist by (eapply Hprocess; exact Hq).
      rewrite lookup_insert_ne in Hhist by discriminate.
      rewrite lookup_insert_eq in Hhist. congruence.
  - eapply checked_since_same; [exact Hs5 | exact Hc6].
  - intros Ht. specialize (Hai ai eq_refl Ht). exact Hai.
  - intros Ht. exact (Htz tz eq_refl Ht).
  - intros Ht. exact (Hts ts eq_refl Ht).
  - destruct kws as [| | | | k | |]; auto. destruct (String.eqb k "true"); auto.
  - exact Htds'.
Qed.

(** Whatever the request holds and however it ends, every call [parse]
    makes on the language processor and on the dialogue manager has
    checked arguments: the allowed intents it has resolved are a
    non-empty list, the time zone it passes on is falsy or a zone
    [pytz] knows, the timestamp falsy or an integer, the bypass flag
    [True] or [None], and the target dialogue state falsy or the name of
    a registered handler. *)
Theorem parse_checks_every_call (text : string)
    (params session frame history : pyval) (verbose : bool) (s : state) :
  exists cs,
    calls (snd (parse text params session frame history verbose s)) = calls s ++ cs /\
    Forall checked cs.
Proof.
  destruct (parse text params session frame history verbose s) as [o s'] eqn:E.
  exact (proj1 (parse_spec _ _ _ _ _ _ _ _ _ E)).
Qed.

(** The response of [parse] carries a history of at most 100 turns that
    starts with the turn it answers, which is the response without its
    history; when neither the language processor nor the dialogue
    handler return a [history] of their own, the turns after it are
    those the caller passed in, oldest dropped first. *)
Theorem parse_bounds_the_history (text : string)
    (params session frame history : pyval) (verbose : bool) (s : state)
    (response : gmap string pyval) :
  fst (parse text params session frame history verbose s) = Return response ->
  exists turns old,
    response !! "history" = Some (PList turns) /\
    length turns <= MAX_HISTORY_LEN /\
    turns = firstn MAX_HISTORY_LEN (PDict (delete "history" response) :: old) /\
    ((forall t h tz ts b q, process t h tz ts b = Return q -> q !! "history" = None) ->
     (forall c t r, apply_handler c t = Return r -> r !! "history" = None) ->
     PList old = py_or history (PList [])).
Proof.
  intros Hret.
  destruct (parse text params session frame history verbose s) as [o s'] eqn:E.
  simpl in Hret. subst o.
  destruct (proj2 (parse_spec _ _ _ _ _ _ _ _ _ E) response eq_refl)
    as (old & Hhist & Hold).
  eexists _, old. split; [exact Hhist |]. split; [| split; [reflexivity | exact Hold]].
  rewrite length_take. lia.
Qed.

End Parse.

End ParseFacts.

(** ** Beyond the claims: [QuestionAnswerer.get] *)

Module QuestionAnswererFacts.
Import AppManager QuestionAnswerer.

Section GetFacts.
Context `{Backend}.

Lemma bind_b_return {T U} (m : B T) (k : T -> B U) s a s' :
  m s = (Return a, s') -> bind_b m k s = k a s'.
Proof. intros E. unfold bind_b. now rewrite E. Qed.

Lemma bind_b_raised {T U} (m : B T) (k : T -> B U) s e s' :
  m s = (Raised e, s') -> bind_b m k s = (Raised e, s').
Proof. intros E. unfold bind_b. now rewrite E. Qed.

(** [converted] calls nothing; it renames the coordinates of a
    dictionary that has both and hands anything else back. *)
Lemma converted_spec raw s o s' :
  converted raw s = (o, s') ->
  s' = s /\
  forall location, o = Return location ->
    (exists d lat lon,
       raw = PDict d /\ d !! "latitude" = Some lat /\ d !! "longitude" = Some lon /\
       location = PDict {[ "lat" := lat; "lon" := lon ]}) \/
    (location = raw /\
     forall d, raw = PDict d -> d !! "latitude" = None \/ d !! "longitude" = None).
Proof.
  unfold converted.
  destruct (truthy raw) eqn:Ht.
  2: { intros [= <- <-]. split; [reflexivity |]. intros location [= <-]. right.
       split; [reflexivity |]. intros d ->. simpl in Ht.
       destruct (d !! "latitude") as [x |] eqn:E; [| now left].
       exfalso. apply negb_false_iff, Nat.eqb_eq in Ht.
       apply map_size_empty_iff in Ht. subst d. discriminate E. }
  destruct raw as [| b | z | q | str | l | d]; try discriminate Ht.
  - intros [= <- <-]. split; [reflexivity | discriminate].
  - intros [= <- <-]. split; [reflexivity | discriminate].
  - intros [= <- <-]. split; [reflexivity | discriminate].
  - (* a string *)
    unfold bind_b, lift_b, py_in, unit_b. simpl.
    destruct (occurs "latitude" str); simpl.
    + destruct (occurs "longitude" str); simpl; intros [= <- <-];
        (split; [reflexivity |]); intros location Hl; try discriminate Hl.
      injection Hl as <-. right. split; [reflexivity | discriminate].
    + intros [= <- <-]. split; [reflexivity |]. intros location [= <-].
      right. split; [reflexivity | discriminate].
  - (* a list *)
    unfold bind_b, lift_b, py_in, unit_b. simpl.
    destruct (existsb _ l); simpl.
    + destruct (existsb _ l); simpl; intros [= <- <-];
        (split; [reflexivity |]); intros location Hl; try discriminate Hl.
      injection Hl as <-. right. split; [reflexivity | discriminate].
    + intros [= <- <-]. split; [reflexivity |]. intros location [= <-].
      right. split; [reflexivity | discriminate].
  - (* a dictionary *)
    unfold bind_b, lift_b, py_in, py_index, unit_b. simpl.
    destruct (d !! "latitude") as [lat |] eqn:Elat.
    + rewrite bool_decide_eq_true_2 by eauto.
      destruct (d !! "longitude") as [lon |] eqn:Elon.
      * rewrite bool_decide_eq_true_2 by eauto.
        intros [= <- <-]. split; [reflexivity |]. intros location [= <-].
        left. exists d, lat, lon. auto.
      * rewrite bool_decide_eq_false_2 by (intros [? ?]; discriminate).
        intros [= <- <-]. split; [reflexivity |]. intros location [= <-].
        right. split; [reflexivity |]. intros d' [= <-]. now right.
    + rewrite bool_decide_eq_false_2 by (intros [? ?]; discriminate).
      intros [= <- <-]. split; [reflexivity |]. intros location [= <-].
      right. split; [reflexivity |]. intros d' [= <-]. now left.
Qed.

(** [get] cannot do without an index, and an id settles the request:
    without the keyword [index] it raises [TypeError] before any call on
    the backend; with a truthy [id] it makes one call, the retrieval of
    that document from the index of the application, never a search,
    whatever [sort] and [location] say, and what it returns is the list
    of that one source. *)
Theorem get_by_id (app_name query_string : pyval) (kwargs : gmap string pyval)
    (s : list backend_call) :
  (kwargs !! "index" = None ->
   get app_name query_string kwargs s =
     (Raised (TypeError "get() missing required keyword argument 'index'"), s)) /\
  (forall index doc_id,
     kwargs !! "index" = Some index ->
     kwargs !! "id" = Some doc_id ->
     truthy doc_id = true ->
     snd (get app_name query_string kwargs s) =
       s ++ [Get (render app_name +:+ "$" +:+ render index) doc_id] /\
     forall result,
       fst (get app_name query_string kwargs s) = Return result ->
       exists response source,
         es_get (render app_name +:+ "$" +:+ render index) doc_id = Return response /\
         py_index response "_source" = Return source /\
         result = PList [source]).
Proof.
  split.
  - intros Hidx. unfold get. now rewrite Hidx.
  - intros index doc_id Hidx Hid Ht. unfold get. rewrite Hidx, Hid. simpl. rewrite Ht.
    unfold bind_b, call_b, lift_b, unit_b.
    destruct (es_get _ doc_id) as [response | e]; simpl; [| split; [reflexivity | discriminate]].
    destruct (py_index response "_source") as [source | e] eqn:Es; simpl;
      [| split; [reflexivity | discriminate]].
    split; [reflexivity |]. intros result [= <-].
    exists response, source. repeat split. exact Es.
Qed.

(** Without an id, a request that returns has made exactly one search
    on the index of the application. Its body is empty unless [sort] is
    the string [location]; then it is the distance sort on the location
    of the request, a dictionary with both [latitude] and [longitude]
    reduced to [lat] and [lon], anything else passed as it is. *)
Theorem get_searches_once (app_name query_string : pyval)
    (kwargs : gmap string pyval) (s : list backend_call)
    (index result : pyval) :
  kwargs !! "index" = Some index ->
  truthy (default PNone (kwargs !! "id")) = false ->
  fst (get app_name query_string kwargs s) = Return result ->
  exists location body,
    snd (get app_name query_string kwargs s) =
      s ++ [Search (render app_name +:+ "$" +:+ render index) body query_string] /\
    (kwargs !! "sort" = Some (PStr "location") /\ body = geo_distance_sort location \/
     kwargs !! "sort" <> Some (PStr "location") /\ body = PDict ∅) /\
    ((exists d lat lon,
        kwargs !! "location" = Some (PDict d) /\
        d !! "latitude" = Some lat /\ d !! "longitude" = Some lon /\
        location = PDict {[ "lat" := lat; "lon" := lon ]}) \/
     (location = default PNone (kwargs !! "location") /\
      forall d, kwargs !! "location" = Some (PDict d) ->
                d !! "latitude" = None \/ d !! "longitude" = None)).
Proof.
  intros Hidx Hid. unfold get. rewrite Hidx. cbv zeta. rewrite Hid.
  destruct (converted (default PNone (kwargs !! "location")) s) as [o s1] eqn:Ec.
  destruct (converted_spec _ _ _ _ Ec) as [-> Hloc].
  destruct o as [location | e].
  2: { rewrite (bind_b_raised _ _ _ _ _ Ec). discriminate. }
  rewrite (bind_b_return _ _ _ _ _ Ec).
  set (body := match default PNone (kwargs !! "sort") with
               | PStr srt => if String.eqb srt "location"
                             then geo_distance_sort location else PDict ∅
               | _ => PDict ∅
               end).
  intros Hret. exists location, body.
  assert (Hcalls : snd ((call_b (Search (render app_name +:+ "$" +:+ render index)
                                   body query_string);>>
                         response <~~ lift_b (es_search
                                        (render app_name +:+ "$" +:+ render index)
                                        body query_string);
                         hits <~~ lift_b (py_index response "hits");
                         hits0 <~~ lift_b (py_index hits "hits");
                         results <~~ lift_b (sources_of hits0);
                         unit_b (PList results)) s) =
                   s ++ [Search (render app_name +:+ "$" +:+ render index)
                           body query_string]).
  { unfold bind_b, call_b, lift_b, unit_b.
    destruct (es_search _ body query_string) as [response | e]; simpl; [| reflexivity].
    destruct (py_index response "hits") as [hits | e]; simpl; [| reflexivity].
    destruct (py_index hits "hits") as [hits0 | e]; simpl; [| reflexivity].
    destruct (sources_of hits0); reflexivity. }
  split; [exact Hcalls |]. split.
  - unfold body. destruct (kwargs !! "sort") as [[| | | | srt | |] |] eqn:Es; simpl;
      try (right; split; [discriminate | reflexivity]).
    destruct (String.eqb_spec srt "location") as [-> | Hne].
    + left. split; reflexivity.
    + right. split; [congruence | reflexivity].
  - destruct (Hloc location eq_refl) as [(d & lat & lon & Hraw & Hlat & Hlon & ->) | [-> Hnot]].
    + left. exists d, lat, lon. repeat split; try assumption.
      destruct (kwargs !! "location") as [x |]; simpl in Hraw; [congruence | discriminate].
    + right. split; [reflexivity |]. intros d Hd. apply Hnot. now rewrite Hd.
Qed.

End GetFacts.

End QuestionAnswererFacts.

(** ** The statements beyond the claims, on the sample deployment *)

Module Checks.
Import Sample Fixtures.

Lemma system_entity_bypasses_the_resolver_witness :
  _is_system_entity (this system_world) = true /\
  fit true system_world = (Ok VNone, system_world) /\
  predict (mention "tomorrow") false system_world = (Ok (Value VNone), system_world).
Proof.
  assert (Hsys : _is_system_entity (this system_world) = true) by reflexivity.
  split; [exact Hsys |].
  exact (system_entity_bypasses_the_resolver true false (mention "tomorrow")
           system_world Hsys).
Defined.

Lemma missing_index_is_not_created_witness :
  _is_system_entity (this fresh_world) = false /\
  es fresh_world !! _es_index_name (this fresh_world) = None /\
  fst (fit false fresh_world) =
    Raise (AttributeError "EntityResolver" "DEFAULT_SYNC_ES_MAPPING") /\
  ingest_synonym "synonym_city" [seattle] None fresh_world =
    (Raise (AttributeError "EntityResolver" "DEFAULT_SYNC_ES_MAPPING"), fresh_world).
Proof.
  assert (Hsys : _is_system_entity (this fresh_world) = false) by reflexivity.
  assert (Hidx : es fresh_world !! _es_index_name (this fresh_world) = None)
    by (vm_compute; reflexivity).
  split; [exact Hsys |]. split; [exact Hidx |]. split.
  - exact (proj1 (proj1 (missing_index_is_not_created false fresh_world
                           "synonym_city" [seattle] None) Hsys Hidx)).
  - exact (proj2 (missing_index_is_not_created false fresh_world
                    "synonym_city" [seattle] None) Hidx).
Defined.

Lemma fit_never_removes_documents_witness :
  Forall (fun d => d !! "_op_type" = None /\ d !! "_source" = None)
         (get_entity_map (_resource_loader (this stale_world))
                         (self_type (this stale_world))) /\
  never_shrinks stale_world (snd (fit true stale_world)).
Proof.
  assert (Hall : Forall (fun d => d !! "_op_type" = None /\ d !! "_source" = None)
                   (get_entity_map (_resource_loader (this stale_world))
                                   (self_type (this stale_world))))
    by (repeat (constructor; [split; vm_compute; reflexivity |]); constructor).
  split; [exact Hall |].
  exact (fit_never_removes_documents true stale_world Hall).
Defined.

(** A record that names the operation [delete] makes [fit] remove the
    document of that id. *)
Lemma fit_delete_removes_document :
  fst (fit false (world_with [<[ "_op_type" := VStr "delete" ]> old_town]
                             {[ "9" := old_town ]})) = Ok VNone /\
  es (snd (fit false (world_with [<[ "_op_type" := VStr "delete" ]> old_town]
                                 {[ "9" := old_town ]}))) !! "synonym_city" = Some ∅.
Proof. split; vm_compute; reflexivity. Qed.

Lemma fit_touches_only_its_index_witness :
  Forall (fun d => d !! "_index" = None)
         (get_entity_map (_resource_loader (this shared_world))
                         (self_type (this shared_world))) /\
  only_index (_es_index_name (this shared_world)) shared_world
             (snd (fit false shared_world)).
Proof.
  assert (Hall : Forall (fun d => d !! "_index" = None)
                   (get_entity_map (_resource_loader (this shared_world))
                                   (self_type (this shared_world))))
    by (repeat (constructor; [vm_compute; reflexivity |]); constructor).
  split; [exact Hall |].
  exact (fit_touches_only_its_index false shared_world Hall).
Defined.

(** A record that names an [_index] and a [pipeline] is written to that
    index, without either field. *)
Lemma fit_follows_the_index_of_a_record :
  fst (fit false (world_with [<[ "_index" := VStr "synonym_state" ]>
                                (<[ "pipeline" := VStr "clean" ]> seattle)] ∅)) = Ok VNone /\
  es (snd (fit false (world_with [<[ "_index" := VStr "synonym_state" ]>
                                    (<[ "pipeline" := VStr "clean" ]> seattle)] ∅))) =
    {[ "synonym_city" := ∅; "synonym_state" := {[ "1" := seattle ]} ]}.
Proof. split; vm_compute; reflexivity. Qed.

Lemma fit_last_accepted_record_wins_witness :
  _is_system_entity (this batch_world) = false /\
  es batch_world !! _es_index_name (this batch_world) = Some ∅ /\
  Forall (fun d => plain d = true)
         (get_entity_map (_resource_loader (this batch_world))
                         (self_type (this batch_world))) /\
  length (get_entity_map (_resource_loader (this batch_world))
                         (self_type (this batch_world))) <= chunk_size /\
  fst (fit false batch_world) =
    (if forallb (accepts (_es_index_name (this batch_world)))
                (get_entity_map (_resource_loader (this batch_world))
                                (self_type (this batch_world)))
     then Ok VNone
     else Raise (BulkIndexError
                   (length (filter (fun d => accepts (_es_index_name (this batch_world)) d
                                             = false)
                              (get_entity_map (_resource_loader (this batch_world))
                                              (self_type (this batch_world))))))).
Proof.
  assert (Hsys : _is_system_entity (this batch_world) = false) by reflexivity.
  assert (Hidx : es batch_world !! _es_index_name (this batch_world) = Some ∅)
    by (vm_compute; reflexivity).
  assert (Hplain : Forall (fun d => plain d = true)
                     (get_entity_map (_resource_loader (this batch_world))
                                     (self_type (this batch_world))))
    by (repeat (constructor; [vm_compute; reflexivity |]); constructor).
  assert (Hlen : length (get_entity_map (_resource_loader (this batch_world))
                                        (self_type (this batch_world))) <= chunk_size)
    by (vm_compute; lia).
  split; [exact Hsys |]. split; [exact Hidx |]. split; [exact Hplain |].
  split; [exact Hlen |].
  exact (proj1 (fit_last_accepted_record_wins false batch_world ∅ Hsys Hidx Hplain Hlen)).
Defined.

(** On the batch with a rejected record [fit] raises and the index
    holds the two records the backend accepted. *)
Lemma fit_batch_with_a_rejected_record :
  fst (fit false batch_world) = Raise (BulkIndexError 1) /\
  es (snd (fit false batch_world)) !! "synonym_city" =
    Some {[ "1" := seattle; "2" := new_york_city ]}.
Proof. split; vm_compute; reflexivity. Qed.

Lemma fit_stores_records_verbatim_witness :
  (es (snd (fit false nyc_world)) !! _es_index_name (this nyc_world))
    ≫= (fun s => s !! doc_key new_york_city) = Some new_york_city.
Proof.
  apply (fit_stores_records_verbatim false nyc_world new_york_city).
  - reflexivity.
  - vm_compute. eexists; reflexivity.
  - repeat (constructor; [vm_compute; reflexivity |]); constructor.
  - left. vm_compute. lia.
  - apply (bool_decide_unpack _). vm_compute. exact I.
  - simpl. right. left. reflexivity.
  - vm_compute. reflexivity.
Defined.

Lemma fit_twice_same_backend_witness :
  fst (fit false (snd (fit true seattle_world))) = Ok VNone /\
  es (snd (fit false (snd (fit true seattle_world)))) = es (snd (fit true seattle_world)).
Proof.
  apply (fit_twice_same_backend true false seattle_world).
  - reflexivity.
  - vm_compute. eexists; reflexivity.
  - repeat (constructor; [split; vm_compute; reflexivity |]); constructor.
Defined.

Lemma ingest_synonym_missing_id_witness :
  is_ok (fst (ingest_synonym "synonym_city" [seattle; portland] None seattle_world))
    = false /\
  ingest_synonym "synonym_city" [seattle; portland] None seattle_world
    = (Raise (KeyError "id"), seattle_world).
Proof.
  assert (Hex : Exists (fun d => d !! "id" = None) [seattle; portland])
    by (apply Exists_cons_tl, Exists_cons_hd; vm_compute; reflexivity).
  assert (Hidx : is_Some (es seattle_world !! "synonym_city"))
    by (vm_compute; eexists; reflexivity).
  assert (Hlen : length [seattle; portland] <= chunk_size) by (vm_compute; lia).
  assert (Hop : Forall (fun d => hashable (default (VStr "index") (d !! "_op_type")) = true)
                       [seattle; portland])
    by (repeat (constructor; [vm_compute; reflexivity |]); constructor).
  split.
  - exact (proj1 (ingest_synonym_missing_id "synonym_city" [seattle; portland] None
                    seattle_world Hex)).
  - exact (proj2 (ingest_synonym_missing_id "synonym_city" [seattle; portland] None
                    seattle_world Hex) Hidx Hlen Hop).
Defined.

(** With a rejected record in a full first chunk, the [BulkIndexError]
    of that chunk comes before the [KeyError] of a later record, and the
    records after the chunk are never sent. *)
Lemma ingest_synonym_rejection_before_missing_id :
  fst (ingest_synonym "synonym_city"
         (malformed :: repeat seattle 49 ++ [new_york_city; portland]) None seattle_world)
    = Raise (BulkIndexError 1) /\
  es (snd (ingest_synonym "synonym_city"
             (malformed :: repeat seattle 49 ++ [new_york_city; portland]) None
             seattle_world)) !! "synonym_city"
    = Some {[ "1" := seattle ]}.
Proof. split; vm_compute; reflexivity. Qed.

Lemma ingest_synonym_empty_mapping_witness :
  ingest_synonym "synonym_city" [] None seattle_world =
  (Ok VNone,
   add_logs seattle_world
     [ {| lvl := INFO; msg := "Loaded %s document%s"; args := [LNat 0; LStr "s"] |} ]).
Proof.
  apply (ingest_synonym_empty_mapping "synonym_city" None seattle_world).
  vm_compute. eexists; reflexivity.
Defined.

Lemma ingest_synonym_all_accepted_witness :
  exists loaded,
    logs (snd (ingest_synonym "synonym_city" [seattle; new_york_city] None seattle_world))
      = logs seattle_world ++ loaded ++ [loaded_log (length [seattle; new_york_city])] /\
    length loaded = length [seattle; new_york_city] /\
    Forall (fun r => lvl r = DEBUG /\ msg r = "Loaded document: %s") loaded.
Proof.
  apply (ingest_synonym_all_accepted "synonym_city" [seattle; new_york_city] None
           seattle_world).
  - vm_compute. eexists; reflexivity.
  - repeat (constructor; [vm_compute; eexists; reflexivity |]); constructor.
  - repeat (constructor; [split; vm_compute; reflexivity |]); constructor.
  - repeat (constructor; [vm_compute; reflexivity |]); constructor.
Defined.

(** A record with an [id] that the backend accepts, and yet no loaded
    document and no closing message: the record names the operation
    [delete] and the index holds no such document, the item answers
    404 and the helper raises. *)
Lemma ingest_synonym_delete_of_absent_document :
  is_Some ((<[ "_op_type" := VStr "delete" ]> old_town) !! "id") /\
  accepts "synonym_city" (<[ "_op_type" := VStr "delete" ]> old_town) = true /\
  ingest_synonym "synonym_city" [<[ "_op_type" := VStr "delete" ]> old_town] None
                 seattle_world
    = (Raise (BulkIndexError 1), seattle_world).
Proof.
  split; [vm_compute; eexists; reflexivity |].
  split; vm_compute; reflexivity.
Qed.

(** A record whose [_op_type] is a list never reaches the backend. *)
Lemma ingest_synonym_unhashable_operation :
  ingest_synonym "synonym_city" [<[ "_op_type" := VStrs ["index"] ]> seattle] None
                 seattle_world
    = (Raise (TypeError "unhashable type: 'list'"), seattle_world).
Proof. vm_compute. reflexivity. Qed.

Lemma predict_exact_flattens_in_order_witness :
  fst (predict (mention "NYC") true loaded_world) =
  Ok (Values (flat_map (fun c => map item_value (default [] (items nyc_tables !! c)))
                       ["NYC"; "New York City"])).
Proof.
  apply (predict_exact_flattens_in_order (mention "NYC") loaded_world nyc_tables
           ["NYC"; "New York City"]).
  - reflexivity.
  - reflexivity.
  - vm_compute. reflexivity.
  - repeat constructor; vm_compute; eexists; reflexivity.
Defined.

Lemma predict_exact_dangling_cname_witness :
  fst (predict (mention "nyc") true dangling_world) = Raise (KeyError "Gotham").
Proof.
  apply (predict_exact_dangling_cname (mention "nyc") dangling_world dangling_tables
           ["NYC"] ["New York City"] "Gotham").
  - reflexivity.
  - reflexivity.
  - vm_compute. reflexivity.
  - repeat constructor; vm_compute; eexists; reflexivity.
  - vm_compute. reflexivity.
Defined.

Lemma predict_exact_returns_no_whitelist_witness :
  Forall (fun v => v !! "whitelist" = None) [nyc; delete "whitelist" new_york_city].
Proof.
  apply (predict_exact_returns_no_whitelist (mention "nyc") loaded_world).
  vm_compute. reflexivity.
Defined.

Lemma predict_fuzzy_missing_index_witness :
  fst (predict (mention "Sea") false fresh_world) =
  Raise (NotFoundError (_es_index_name (this fresh_world))).
Proof.
  apply (predict_fuzzy_missing_index (mention "Sea") fresh_world).
  - reflexivity.
  - vm_compute. reflexivity.
Defined.

End Checks.

Module ManagerChecks.
Import AppManager AppManagerFacts ParseFacts QuestionAnswerer QuestionAnswererFacts Fixtures.

Lemma validate_param_sound_witness :
  passes "time_zone" (PStr "UTC") = true /\
  exists d, PDict request_params = PDict d /\ d !! "time_zone" = Some (PStr "UTC").
Proof.
  apply (validate_param_sound (PDict request_params) "time_zone" "incoming" quiet).
  - vm_compute. reflexivity.
  - reflexivity.
Defined.

Lemma validate_param_drops_invalid_witness :
  exists r,
    rlvl r = WARNING /\
    _validate_param (PDict request_params) "timestamp" "incoming" quiet =
      (Return PNone, add_records quiet [r]).
Proof.
  apply (validate_param_drops_invalid request_params "timestamp" "incoming" quiet
           (PStr "noon")).
  - vm_compute. reflexivity.
  - reflexivity.
  - vm_compute. reflexivity.
  - vm_compute. reflexivity.
Defined.

Lemma validate_param_skips_falsy_witness :
  _validate_param (PDict request_params) "allowed_intents" "incoming" quiet =
  (Return (default PNone (request_params !! "allowed_intents")), quiet).
Proof.
  apply (validate_param_skips_falsy request_params "allowed_intents" "incoming" quiet).
  vm_compute. reflexivity.
Defined.

Lemma validate_param_errors_witness :
  _validate_param (PDict (<[ "frame" := PInt 3 ]> request_params)) "frame" "incoming" quiet =
    (Raised (TypeError "'NoneType' object is not callable"), quiet) /\
  _validate_param (PStr "kws=true") "kws" "incoming" quiet =
    (Raised (AttributeError "str" "get"), quiet).
Proof.
  split.
  - apply (proj1 (validate_param_errors
                    (PDict (<[ "frame" := PInt 3 ]> request_params)) "frame" "incoming" quiet)
             (<[ "frame" := PInt 3 ]> request_params) (PInt 3)).
    + reflexivity.
    + vm_compute. reflexivity.
    + reflexivity.
    + vm_compute. reflexivity.
  - apply (proj2 (validate_param_errors (PStr "kws=true") "kws" "incoming" quiet)).
    intros d. discriminate.
Defined.

Lemma validate_param_idempotent_witness :
  _validate_param (PDict (<[ "timestamp" := PNone ]> request_params)) "timestamp"
    "outgoing" quiet = (Return PNone, quiet).
Proof.
  apply (validate_param_idempotent request_params "timestamp" "incoming" "outgoing"
           quiet quiet PNone).
  vm_compute. reflexivity.
Defined.

Lemma parse_bounds_the_history_witness :
  exists response turns old,
    fst (parse "where is the store" (PDict request_params) PNone PNone PNone false quiet)
      = Return response /\
    response !! "history" = Some (PList turns) /\
    length turns <= MAX_HISTORY_LEN /\
    turns = firstn MAX_HISTORY_LEN (PDict (delete "history" response) :: old).
Proof.
  destruct (parse "where is the store" (PDict request_params) PNone PNone PNone false quiet)
    as [[response | e] s'] eqn:E.
  - destruct (parse_bounds_the_history "where is the store" (PDict request_params)
                PNone PNone PNone false quiet response)
      as (turns & old & Hhist & Hlen & Hturns & _).
    + now rewrite E.
    + exists response, turns, old. auto.
  - exfalso. vm_compute in E. discriminate E.
Defined.

Lemma get_by_id_witness :
  snd (get (PStr "food") PNone
         {[ "index" := PStr "stores"; "id" := PStr "12"; "sort" := PStr "location" ]} [])
    = [] ++ [Get ("food" +:+ "$" +:+ "stores") (PStr "12")].
Proof.
  assert (Hidx : ({[ "index" := PStr "stores"; "id" := PStr "12";
                     "sort" := PStr "location" ]} : gmap string pyval) !! "index"
                 = Some (PStr "stores")) by (vm_compute; reflexivity).
  assert (Hid : ({[ "index" := PStr "stores"; "id" := PStr "12";
                    "sort" := PStr "location" ]} : gmap string pyval) !! "id"
                = Some (PStr "12")) by (vm_compute; reflexivity).
  exact (proj1 (proj2 (get_by_id (PStr "food") PNone
                         {[ "index" := PStr "stores"; "id" := PStr "12";
                            "sort" := PStr "location" ]} [])
                  (PStr "stores") (PStr "12") Hidx Hid eq_refl)).
Defined.

Lemma get_searches_once_witness :
  exists location body,
    snd (get (PStr "food") (PStr "market")
           {[ "index" := PStr "stores"; "sort" := PStr "price" ]} [])
      = [] ++ [Search ("food" +:+ "$" +:+ "stores") body (PStr "market")] /\
    (({[ "index" := PStr "stores"; "sort" := PStr "price" ]} : gmap string pyval)
       !! "sort" = Some (PStr "location") /\ body = geo_distance_sort location \/
     ({[ "index" := PStr "stores"; "sort" := PStr "price" ]} : gmap string pyval)
       !! "sort" <> Some (PStr "location") /\ body = PDict ∅).
Proof.
  destruct (get_searches_once (PStr "food") (PStr "market")
              {[ "index" := PStr "stores"; "sort" := PStr "price" ]} []
              (PStr "stores") (PList [store_12]))
    as (location & body & Hcalls & Hbody & _).
  - vm_compute. reflexivity.
  - vm_compute. reflexivity.
  - vm_compute. reflexivity.
  - exists location, body. split; [exact Hcalls | exact Hbody].
Defined.

End ManagerChecks.
